(** * NVDocument and NVConnectome: document persistence, scene state and
      connectome edge/node bookkeeping.

    A shallow embedding of [nvdocument.ts] (class [NVDocument]) and of the
    node/edge methods of [nvconnectome.ts] (class [NVConnectome]).

    JavaScript objects live in a store and are named by locations, so that
    two references to one object observe each other's writes.  Methods are
    state transformers over that store and the receiver, and either return
    or throw; a throw keeps the state reached so far. *)

From Stdlib Require Import ZArith List String Ascii Bool Lia DecimalString.
From Stdlib Require Import Floats.SpecFloat.
From stdpp Require Import base option list gmap strings.

Local Open Scope string_scope.
Local Open Scope list_scope.

(* ===================================================================== *)
(** ** JavaScript values *)
(* ===================================================================== *)

Module JS.

(** A JavaScript [number] is an IEEE-754 binary64 value. *)
Definition number : Type := spec_float.

Definition Infinity : number := S754_infinity false.
Definition NaN : number := S754_nan.
Definition zero : number := S754_zero false.

(** [binary_normalize 53 1024 m e false] is the double nearest to
    [m * 2^e]. *)
Definition double (m e : Z) : number := binary_normalize 53 1024 m e false.

(** Object identity. *)
Abbreviation loc := nat.

Inductive Value : Type :=
| VUndefined
| VNull
| VBool (b : bool)
| VNum (n : number)
| VStr (s : string)
| VRef (l : loc).

(** [a === b] *)
Definition strict_eq (a b : Value) : bool :=
  match a, b with
  | VUndefined, VUndefined => true
  | VNull, VNull => true
  | VBool x, VBool y => Bool.eqb x y
  | VNum x, VNum y => SFeqb x y
  | VStr x, VStr y => String.eqb x y
  | VRef x, VRef y => Nat.eqb x y
  | _, _ => false
  end.

(** ToBoolean *)
Definition truthy (v : Value) : bool :=
  match v with
  | VUndefined | VNull => false
  | VBool b => b
  | VNum (S754_zero _) | VNum S754_nan => false
  | VNum _ => true
  | VStr s => negb (String.eqb s "")
  | VRef _ => true
  end.

(** [a || b] *)
Definition or_else (a b : Value) : Value := if truthy a then a else b.

(** An object is a finite map from property names to values; an array
    is a sequence of values. *)
Inductive Obj : Type :=
| OObject (fields : gmap string Value)
| OArray (elems : list Value).

(** The store of objects: location [l] is the [l]-th object allocated. *)
Abbreviation Heap := (list Obj).

Definition alloc (o : Obj) (h : Heap) : loc * Heap := (length h, h ++ [o]).

(** The own properties of the object at [l] (none for anything else). *)
Definition fields_of (h : Heap) (l : loc) : gmap string Value :=
  match h !! l with
  | Some (OObject m) => m
  | _ => ∅
  end.

(** [k in o] *)
Definition has_field (h : Heap) (l : loc) (k : string) : bool :=
  bool_decide (is_Some (fields_of h l !! k)).

(** [o.k] *)
Definition get_field (h : Heap) (l : loc) (k : string) : Value :=
  default VUndefined (fields_of h l !! k).

(** [o.k = v] *)
Definition set_field (l : loc) (k : string) (v : Value) (h : Heap) : Heap :=
  match h !! l with
  | Some (OObject m) => <[l := OObject (<[k := v]> m)]> h
  | _ => h
  end.

(** [a[i]] and [a[i] = v] on an array object. *)
Definition get_index (h : Heap) (l : loc) (i : nat) : Value :=
  match h !! l with
  | Some (OArray xs) => default VUndefined (xs !! i)
  | _ => VUndefined
  end.

Definition set_index (l : loc) (i : nat) (v : Value) (h : Heap) : Heap :=
  match h !! l with
  | Some (OArray xs) =>
      if decide (i < length xs) then <[l := OArray (<[i := v]> xs)]> h
      else <[l := OArray (xs ++ replicate (i - length xs) VUndefined ++ [v])]> h
  | _ => h
  end.

(** Errors a method can throw. *)
Inductive Exception : Type :=
| TypeError (msg : string)
| Error (msg : string).

(** The outcome of running a method from a state of type [S]. *)
Inductive Outcome (S A : Type) : Type :=
| Returns (a : A) (s : S)
| Throws (e : Exception) (s : S).
Arguments Returns {S A} a s.
Arguments Throws {S A} e s.

Definition final_state {S A} (o : Outcome S A) : S :=
  match o with Returns _ s => s | Throws _ s => s end.

Definition returned {S A} (o : Outcome S A) : option A :=
  match o with Returns a _ => Some a | Throws _ _ => None end.

Definition thrown {S A} (o : Outcome S A) : option Exception :=
  match o with Returns _ _ => None | Throws e _ => Some e end.

Definition M (S A : Type) : Type := S -> Outcome S A.

Definition ret {S A} (a : A) : M S A := fun s => Returns a s.
Definition throw {S A} (e : Exception) : M S A := fun s => Throws e s.
Definition bind {S A B} (m : M S A) (k : A -> M S B) : M S B :=
  fun s => match m s with
           | Returns a s' => k a s'
           | Throws e s' => Throws e s'
           end.
Definition get {S} : M S S := fun s => Returns s s.
Definition put {S} (s : S) : M S unit := fun _ => Returns tt s.
Definition modify {S} (f : S -> S) : M S unit := fun s => Returns tt (f s).

End JS.

Import JS.

Notation "'let!' x ':=' m 'in' k" := (JS.bind m (fun x => k))
  (at level 10, x name, m at level 100, k at level 200, only parsing).
Notation "m '>>' k" := (JS.bind m (fun _ => k))
  (at level 65, right associativity, only parsing).

(* ===================================================================== *)
(** ** Scene state ([NVDocument.scene]) *)
(* ===================================================================== *)

Module Scene.

(** [type SceneData]; [vec3]/[vec4] and [number[]] fields are sequences
    of numbers. *)
Record SceneData : Type := mkSceneData {
  azimuth : number;
  elevation : number;
  crosshairPos : list number;
  clipPlane : list number;
  clipPlaneDepthAziElev : list number;
  volScaleMultiplier : number;
  pan2Dxyzmm : list number;
  clipThick : number;
  clipVolumeLow : list number;
  clipVolumeHigh : list number
}.

Definition with_azimuth (x : number) (d : SceneData) : SceneData :=
  mkSceneData x (elevation d) (crosshairPos d) (clipPlane d)
    (clipPlaneDepthAziElev d) (volScaleMultiplier d) (pan2Dxyzmm d)
    (clipThick d) (clipVolumeLow d) (clipVolumeHigh d).
Definition with_elevation (x : number) (d : SceneData) : SceneData :=
  mkSceneData (azimuth d) x (crosshairPos d) (clipPlane d)
    (clipPlaneDepthAziElev d) (volScaleMultiplier d) (pan2Dxyzmm d)
    (clipThick d) (clipVolumeLow d) (clipVolumeHigh d).
Definition with_crosshairPos (x : list number) (d : SceneData) : SceneData :=
  mkSceneData (azimuth d) (elevation d) x (clipPlane d)
    (clipPlaneDepthAziElev d) (volScaleMultiplier d) (pan2Dxyzmm d)
    (clipThick d) (clipVolumeLow d) (clipVolumeHigh d).
Definition with_clipPlane (x : list number) (d : SceneData) : SceneData :=
  mkSceneData (azimuth d) (elevation d) (crosshairPos d) x
    (clipPlaneDepthAziElev d) (volScaleMultiplier d) (pan2Dxyzmm d)
    (clipThick d) (clipVolumeLow d) (clipVolumeHigh d).
Definition with_clipPlaneDepthAziElev (x : list number) (d : SceneData) : SceneData :=
  mkSceneData (azimuth d) (elevation d) (crosshairPos d) (clipPlane d)
    x (volScaleMultiplier d) (pan2Dxyzmm d)
    (clipThick d) (clipVolumeLow d) (clipVolumeHigh d).
Definition with_volScaleMultiplier (x : number) (d : SceneData) : SceneData :=
  mkSceneData (azimuth d) (elevation d) (crosshairPos d) (clipPlane d)
    (clipPlaneDepthAziElev d) x (pan2Dxyzmm d)
    (clipThick d) (clipVolumeLow d) (clipVolumeHigh d).
Definition with_pan2Dxyzmm (x : list number) (d : SceneData) : SceneData :=
  mkSceneData (azimuth d) (elevation d) (crosshairPos d) (clipPlane d)
    (clipPlaneDepthAziElev d) (volScaleMultiplier d) x
    (clipThick d) (clipVolumeLow d) (clipVolumeHigh d).

(** [INITIAL_SCENE_DATA]; [vec3.create()] and [vec4.create()] are zero
    vectors. *)
Definition INITIAL_SCENE_DATA : SceneData := {|
  azimuth := double 110 0;
  elevation := double 10 0;
  crosshairPos := [zero; zero; zero];
  clipPlane := [zero; zero; zero; zero];
  clipPlaneDepthAziElev := [double 2 0; zero; zero];
  volScaleMultiplier := double 1 0;
  pan2Dxyzmm := [zero; zero; zero; zero];
  clipThick := double 2 0;
  clipVolumeLow := [zero; zero; zero];
  clipVolumeHigh := [double 1 0; double 1 0; double 1 0]
|}.

(** A function object held in an observer slot. *)
Definition callback : Type := nat.

(** One invocation of an observer, as a recording stub sees it: the slot
    through which it was called, the callee and the arguments. *)
Inductive Call : Type :=
| CallAzimuthElevationChange (f : callback) (azimuth elevation : number)
| CallZoom3DChange (f : callback) (scale : number).

(** [type Scene].  A slot holding a falsy value is [None]. *)
Record Scene : Type := mkScene {
  onAzimuthElevationChange : option callback;
  onZoom3DChange : option callback;
  sceneData : SceneData
}.

Definition update_sceneData (f : SceneData -> SceneData) (sc : Scene) : Scene :=
  mkScene (onAzimuthElevationChange sc) (onZoom3DChange sc) (f (sceneData sc)).

(** The scene together with the record of observer invocations so far. *)
Definition World : Type := Scene * list Call.

(** The scene built by the [NVDocument] constructor; its two observers
    are the no-op arrows [noop_azel] and [noop_zoom]. *)
Definition new_scene (noop_azel noop_zoom : callback) : Scene := {|
  onAzimuthElevationChange := Some noop_azel;
  onZoom3DChange := Some noop_zoom;
  sceneData :=
    with_crosshairPos [double 1 (-1); double 1 (-1); double 1 (-1)]
      (with_pan2Dxyzmm [zero; zero; zero; double 1 0] INITIAL_SCENE_DATA)
|}.

Definition get_renderAzimuth (sc : Scene) : number := azimuth (sceneData sc).
Definition get_renderElevation (sc : Scene) : number := elevation (sceneData sc).
Definition get_volScaleMultiplier (sc : Scene) : number :=
  volScaleMultiplier (sceneData sc).

(** The shared tail of the two orientation setters:
    [if (this.onAzimuthElevationChange) this.onAzimuthElevationChange(az, el)]. *)
Definition notify_azimuthElevation : M World unit := fun w =>
  let '(sc, log) := w in
  match onAzimuthElevationChange sc with
  | Some f =>
      Returns tt (sc, log ++ [CallAzimuthElevationChange f
                                (azimuth (sceneData sc)) (elevation (sceneData sc))])
  | None => Returns tt (sc, log)
  end.

Definition write_sceneData (f : SceneData -> SceneData) : M World unit :=
  fun w => Returns tt (update_sceneData f (fst w), snd w).

Definition set_renderAzimuth (azimuth : number) : M World unit :=
  write_sceneData (with_azimuth azimuth) >> notify_azimuthElevation.

Definition set_renderElevation (elevation : number) : M World unit :=
  write_sceneData (with_elevation elevation) >> notify_azimuthElevation.

(** [this.onZoom3DChange(scale)] is not guarded: calling an empty slot
    is a TypeError, raised after the field was written. *)
Definition set_volScaleMultiplier (scale : number) : M World unit :=
  write_sceneData (with_volScaleMultiplier scale) >> fun w =>
    let '(sc, log) := w in
    match onZoom3DChange sc with
    | Some f => Returns tt (sc, log ++ [CallZoom3DChange f scale])
    | None => Throws (TypeError "this.onZoom3DChange is not a function") w
    end.

Definition set_crosshairPos (crosshairPos : list number) : M World unit :=
  write_sceneData (with_crosshairPos crosshairPos).
Definition set_clipPlane (clipPlane : list number) : M World unit :=
  write_sceneData (with_clipPlane clipPlane).
Definition set_clipPlaneDepthAziElev (v : list number) : M World unit :=
  write_sceneData (with_clipPlaneDepthAziElev v).
Definition set_pan2Dxyzmm (pan2Dxyzmm : list number) : M World unit :=
  write_sceneData (with_pan2Dxyzmm pan2Dxyzmm).

End Scene.

(* ===================================================================== *)
(** ** String helpers used by [addImageOptions] *)
(* ===================================================================== *)

Module Str.

(** [s.split('/')] *)
Fixpoint split_slash (s : string) : list string :=
  match s with
  | EmptyString => [EmptyString]
  | String c r =>
      if Ascii.eqb c "/"%char then EmptyString :: split_slash r
      else match split_slash r with
           | x :: xs => String c x :: xs
           | [] => [String c EmptyString]
           end
  end.

(** [a.pop()] on the result of a split (never empty). *)
Definition pop (l : list string) : string := List.last l EmptyString.

Definition lower_ascii (c : ascii) : ascii :=
  let n := nat_of_ascii c in
  if (65 <=? n)%nat && (n <=? 90)%nat then ascii_of_nat (n + 32) else c.

(** [s.toLowerCase()], on the ASCII letters; no other character maps to
    one of the letters of the two suffixes tested below. *)
Fixpoint toLowerCase (s : string) : string :=
  match s with
  | EmptyString => EmptyString
  | String c r => String (lower_ascii c) (toLowerCase r)
  end.

(** [s.endsWith(suffix)] *)
Definition endsWith (s suffix : string) : bool :=
  let n := String.length s in
  let m := String.length suffix in
  (m <=? n)%nat && String.eqb (substring (n - m) m s) suffix.

(** [s.slice(0, -k)] *)
Definition drop_last (k : nat) (s : string) : string :=
  substring 0 (String.length s - k) s.

(** The three steps that turn the last path segment into a display
    name: drop a [.gz] suffix, then make sure the name ends in [.nii]. *)
Definition nii_name (segment : string) : string :=
  let name := segment in
  let name := if endsWith (toLowerCase name) ".gz" then drop_last 3 name else name in
  if negb (endsWith (toLowerCase name) ".nii") then name ++ ".nii" else name.

End Str.

(* ===================================================================== *)
(** ** The document ([class NVDocument]) *)
(* ===================================================================== *)

Module Document.

Definition bytes : Type := list Byte.byte.

(** What the document needs of a live volume ([NVImage]): its
    identifier and its current display settings. *)
Record NVImage : Type := mkNVImage {
  id : string;
  colormap : Value;
  colormapLabel : Value;
  opacity : Value;
  cal_min : Value;
  cal_max : Value
}.

(** A mesh layer as a plain object. *)
Abbreviation Layer := (gmap string Value).

(** The parts of the program that are imported by [nvdocument.ts] and
    are not part of it: the image and mesh classes, label objects, the
    binary-to-text codec, the structured-clone serializer and the
    browser's URL parser. *)
Class Collaborators : Type := {
  (** [NVIMAGE_TYPE.NII] *)
  NVIMAGE_TYPE_NII : Value;
  (** [NVLabel3D] *)
  Label : Type;
  (** [volume.toUint8Array()] and [volume.toUint8Array(drawBitmap)] *)
  toUint8Array : NVImage -> option bytes -> bytes;
  (** [NVUtilities.uint8tob64] *)
  uint8tob64 : bytes -> string;
  (** The pathname of [new URL(u)] for an absolute [u] and of
      [new URL(u, window.location.href)] otherwise; [None] when the
      constructor throws. *)
  url_pathname : Value -> option string;
  (** A live [NVMesh | NVConnectome]. *)
  Mesh : Type;
  (** [mesh.type === MeshType.CONNECTOME] *)
  is_connectome : Mesh -> bool;
  (** [JSON.stringify((mesh as NVConnectome).json())] *)
  connectome_string : Mesh -> string;
  (** [mesh.layers] *)
  mesh_layers : Mesh -> list Layer;
  (** Everything of a serialized mesh but its layers. *)
  MeshBody : Type;
  (** The properties other than [layers] of the plain copy [copyMesh]
      that [json()] builds: the geometry, appearance and connectome
      properties it lists, and the fiber properties of a mesh with
      [offsetPt0]. *)
  copy_body : Mesh -> MeshBody;
  (** [JSON.stringify(serialize(meshes))] *)
  serialize_meshes : list (MeshBody * list Layer) -> string;
  (** [deserialize(JSON.parse(s))], or what either of them throws. *)
  deserialize_meshes : string -> Exception + list (MeshBody * list Layer)
}.

(** [DocumentData.sceneData] as read from a container: any field may be
    missing. *)
Record PartialSceneData : Type := mkPartialSceneData {
  p_azimuth : option number;
  p_elevation : option number;
  p_crosshairPos : option (list number);
  p_clipPlane : option (list number);
  p_clipPlaneDepthAziElev : option (list number);
  p_volScaleMultiplier : option number;
  p_pan2Dxyzmm : option (list number);
  p_clipThick : option number;
  p_clipVolumeLow : option (list number);
  p_clipVolumeHigh : option (list number)
}.

Definition full_sceneData (d : Scene.SceneData) : PartialSceneData := {|
  p_azimuth := Some (Scene.azimuth d);
  p_elevation := Some (Scene.elevation d);
  p_crosshairPos := Some (Scene.crosshairPos d);
  p_clipPlane := Some (Scene.clipPlane d);
  p_clipPlaneDepthAziElev := Some (Scene.clipPlaneDepthAziElev d);
  p_volScaleMultiplier := Some (Scene.volScaleMultiplier d);
  p_pan2Dxyzmm := Some (Scene.pan2Dxyzmm d);
  p_clipThick := Some (Scene.clipThick d);
  p_clipVolumeLow := Some (Scene.clipVolumeLow d);
  p_clipVolumeHigh := Some (Scene.clipVolumeHigh d)
|}.

(** [{ ...base, ...over }] *)
Definition merge_sceneData (base : Scene.SceneData) (over : option PartialSceneData)
  : Scene.SceneData :=
  match over with
  | None => base
  | Some o => {|
      Scene.azimuth := default (Scene.azimuth base) (p_azimuth o);
      Scene.elevation := default (Scene.elevation base) (p_elevation o);
      Scene.crosshairPos := default (Scene.crosshairPos base) (p_crosshairPos o);
      Scene.clipPlane := default (Scene.clipPlane base) (p_clipPlane o);
      Scene.clipPlaneDepthAziElev :=
        default (Scene.clipPlaneDepthAziElev base) (p_clipPlaneDepthAziElev o);
      Scene.volScaleMultiplier :=
        default (Scene.volScaleMultiplier base) (p_volScaleMultiplier o);
      Scene.pan2Dxyzmm := default (Scene.pan2Dxyzmm base) (p_pan2Dxyzmm o);
      Scene.clipThick := default (Scene.clipThick base) (p_clipThick o);
      Scene.clipVolumeLow := default (Scene.clipVolumeLow base) (p_clipVolumeLow o);
      Scene.clipVolumeHigh := default (Scene.clipVolumeHigh base) (p_clipVolumeHigh o)
    |}
  end.

(** [DEFAULT_OPTIONS]: the arrays it holds are objects of their own,
    allocated before it in the order they are written. *)
Definition DEFAULT_OPTIONS_arrays : list (list number) := [
  (* backColor *) [zero; zero; zero; double 1 0];
  (* crosshairColor *) [double 1 0; zero; zero; double 1 0];
  (* fontColor *) [double 1 (-1); double 1 (-1); double 1 (-1); double 1 0];
  (* selectionBoxColor *) [double 1 0; double 1 0; double 1 0; double 1 (-1)];
  (* clipPlaneColor *) [double 3152519739159347 (-52); zero; double 3152519739159347 (-52); double 1 (-1)];
  (* clipVolumeLow *) [zero; zero; zero];
  (* clipVolumeHigh *) [double 1 0; double 1 0; double 1 0];
  (* rulerColor *) [double 1 0; zero; zero; double 3602879701896397 (-52)];
  (* legendBackgroundColor *) [double 5404319552844595 (-54); double 5404319552844595 (-54); double 5404319552844595 (-54); double 1 (-1)];
  (* legendTextColor *) [double 1 0; double 1 0; double 1 0; double 1 0]
].

Definition DEFAULT_OPTIONS_fields : list (string * Value) := [
  ("textHeight", VNum (double 1080863910568919 (-54)));
  ("colorbarHeight", VNum (double 3602879701896397 (-56)));
  ("crosshairWidth", VNum (double 1 0));
  ("crosshairGap", VNum (zero));
  ("rulerWidth", VNum (double 4 0));
  ("show3Dcrosshair", VBool false);
  ("backColor", VRef 0);
  ("crosshairColor", VRef 1);
  ("fontColor", VRef 2);
  ("selectionBoxColor", VRef 3);
  ("clipPlaneColor", VRef 4);
  ("clipThick", VNum (double 2 0));
  ("clipVolumeLow", VRef 5);
  ("clipVolumeHigh", VRef 6);
  ("rulerColor", VRef 7);
  ("colorbarMargin", VNum (double 3602879701896397 (-56)));
  ("trustCalMinMax", VBool true);
  ("clipPlaneHotKey", VStr "KeyC");
  ("viewModeHotKey", VStr "KeyV");
  ("doubleTouchTimeout", VNum (double 500 0));
  ("longTouchTimeout", VNum (double 1000 0));
  ("keyDebounceTime", VNum (double 50 0));
  ("isNearestInterpolation", VBool false);
  ("isResizeCanvas", VBool true);
  ("atlasOutline", VNum (zero));
  ("isRuler", VBool false);
  ("isColorbar", VBool false);
  ("isOrientCube", VBool false);
  ("multiplanarPadPixels", VNum (zero));
  ("multiplanarForceRender", VBool false);
  ("multiplanarShowRender", VNum (double 2 0));
  ("isRadiologicalConvention", VBool false);
  ("meshThicknessOn2D", VNum Infinity);
  ("dragMode", VNum (double 1 0));
  ("yoke3Dto2DZoom", VBool false);
  ("isDepthPickMesh", VBool false);
  ("isCornerOrientationText", VBool false);
  ("sagittalNoseLeft", VBool false);
  ("isSliceMM", VBool false);
  ("isV1SliceShader", VBool false);
  ("isHighResolutionCapable", VBool true);
  ("logLevel", VStr "info");
  ("loadingText", VStr "waiting for images...");
  ("isForceMouseClickToVoxelCenters", VBool false);
  ("dragAndDropEnabled", VBool true);
  ("drawingEnabled", VBool false);
  ("penValue", VNum (double 1 0));
  ("floodFillNeighbors", VNum (double 6 0));
  ("isFilledPen", VBool false);
  ("thumbnail", VStr "");
  ("maxDrawUndoBitmaps", VNum (double 8 0));
  ("sliceType", VNum (double 3 0));
  ("meshXRay", VNum (zero));
  ("isAntiAlias", VNull);
  ("limitFrames4D", VNum NaN);
  ("isAdditiveBlend", VBool false);
  ("showLegend", VBool true);
  ("legendBackgroundColor", VRef 8);
  ("legendTextColor", VRef 9);
  ("multiplanarLayout", VNum (zero));
  ("renderOverlayBlend", VNum (double 1 0));
  ("sliceMosaicString", VStr "");
  ("centerMosaic", VBool false);
  ("clickToSegment", VBool false);
  ("clickToSegmentRadius", VNum (double 2 0));
  ("clickToSegmentSteps", VNum (double 10 0));
  ("clickToSegmentBright", VBool true)
].

Definition module_heap : Heap :=
  (OArray <$> (fmap VNum <$> DEFAULT_OPTIONS_arrays))
    ++ [OObject (list_to_map DEFAULT_OPTIONS_fields)].

Definition DEFAULT_OPTIONS : loc := 10.

(** The record synthesized by [json()] for a volume without load
    options (the same literal at both places). *)
Definition default_imageOptions {platform : Collaborators} : gmap string Value :=
  list_to_map [
    ("name", VStr "");
    ("colormap", VStr "gray");
    ("opacity", VNum (double 1 0));
    ("pairedImgData", VNull);
    ("cal_min", VNum NaN);
    ("cal_max", VNum NaN);
    ("trustCalMinMax", VBool true);
    ("percentileFrac", VNum (double 5764607523034235 (-58)));
    ("ignoreZeroVoxels", VBool false);
    ("useQFormNotSForm", VBool false);
    ("colormapNegative", VStr "");
    ("colormapLabel", VNull);
    ("imageType", NVIMAGE_TYPE_NII);
    ("frame4D", VNum zero);
    ("limitFrames4D", VNum NaN);
    ("url", VStr "");
    ("urlImageData", VStr "");
    ("alphaThreshold", VBool false);
    ("cal_minNeg", VNum NaN);
    ("cal_maxNeg", VNum NaN);
    ("colorbarVisible", VBool true)
  ].

Section Methods.
Context {platform : Collaborators}.

(** [type DocumentData].  [title] and [meshOptionsArray] are missing
    from a container read back by [loadFromJSON], and
    [encodedDrawingBlob] from one exported without a drawing. *)
Record DocumentData : Type := mkDocumentData {
  title : option string;
  imageOptionsArray : list loc;
  meshOptionsArray : option (list Value);
  opts : loc;
  previewImageDataURL : string;
  labels : list Label;
  encodedImageBlobs : list string;
  encodedDrawingBlob : option string;
  meshesString : option string;
  sceneData : option PartialSceneData;
  connectomes : option (list string);
  customData : option string
}.

(** The fields of an [NVDocument] instance. *)
Record NVDocument : Type := mkNVDocument {
  data : DocumentData;
  scene : Scene.Scene;
  volumes : list NVImage;
  meshDataObjects : option (list (MeshBody * list Layer));
  meshes : list Mesh;
  drawBitmap : option bytes;
  imageOptionsMap : gmap string nat;
  meshOptionsMap : gmap string nat
}.

(** [type ExportDocumentData], as [json()] fills it. *)
Record ExportDocumentData : Type := mkExportDocumentData {
  x_encodedImageBlobs : list string;
  x_encodedDrawingBlob : option string;
  x_previewImageDataURL : string;
  x_imageOptionsMap : gmap string nat;
  x_imageOptionsArray : list loc;
  x_sceneData : Scene.SceneData;
  x_opts : loc;
  x_meshesString : string;
  x_labels : list Label;
  x_connectomes : list string;
  x_customData : option string
}.

Definition with_imageOptionsArray (a : list loc) (d : DocumentData) : DocumentData :=
  mkDocumentData (title d) a (meshOptionsArray d) (opts d)
    (previewImageDataURL d) (labels d) (encodedImageBlobs d)
    (encodedDrawingBlob d) (meshesString d) (sceneData d) (connectomes d)
    (customData d).

Definition with_opts (o : loc) (d : DocumentData) : DocumentData :=
  mkDocumentData (title d) (imageOptionsArray d) (meshOptionsArray d) o
    (previewImageDataURL d) (labels d) (encodedImageBlobs d)
    (encodedDrawingBlob d) (meshesString d) (sceneData d) (connectomes d)
    (customData d).

Definition with_data (x : DocumentData) (doc : NVDocument) : NVDocument :=
  mkNVDocument x (scene doc) (volumes doc) (meshDataObjects doc) (meshes doc)
    (drawBitmap doc) (imageOptionsMap doc) (meshOptionsMap doc).

Definition with_scene (x : Scene.Scene) (doc : NVDocument) : NVDocument :=
  mkNVDocument (data doc) x (volumes doc) (meshDataObjects doc) (meshes doc)
    (drawBitmap doc) (imageOptionsMap doc) (meshOptionsMap doc).

Definition with_volumes (x : list NVImage) (doc : NVDocument) : NVDocument :=
  mkNVDocument (data doc) (scene doc) x (meshDataObjects doc) (meshes doc)
    (drawBitmap doc) (imageOptionsMap doc) (meshOptionsMap doc).

Definition with_meshDataObjects (x : option (list (MeshBody * list Layer)))
  (doc : NVDocument) : NVDocument :=
  mkNVDocument (data doc) (scene doc) (volumes doc) x (meshes doc)
    (drawBitmap doc) (imageOptionsMap doc) (meshOptionsMap doc).

Definition with_imageOptionsMap (x : gmap string nat) (doc : NVDocument) : NVDocument :=
  mkNVDocument (data doc) (scene doc) (volumes doc) (meshDataObjects doc)
    (meshes doc) (drawBitmap doc) x (meshOptionsMap doc).

(** A method of the document runs on the store and the receiver. *)
Definition State : Type := Heap * NVDocument.

(** [new NVDocument()]: the data object with a spread copy of
    [DEFAULT_OPTIONS], and a scene with no-op observers. *)
Definition new_NVDocument (noop_azel noop_zoom : Scene.callback) (h : Heap) : State :=
  let '(o, h1) := alloc (OObject (fields_of h DEFAULT_OPTIONS)) h in
  (h1,
   {| data := {| title := Some "Untitled document";
                 imageOptionsArray := [];
                 meshOptionsArray := Some [];
                 opts := o;
                 previewImageDataURL := "";
                 labels := [];
                 encodedImageBlobs := [];
                 encodedDrawingBlob := Some "";
                 meshesString := None;
                 sceneData := None;
                 connectomes := None;
                 customData := None |};
      scene := Scene.new_scene noop_azel noop_zoom;
      volumes := [];
      meshDataObjects := None;
      meshes := [];
      drawBitmap := None;
      imageOptionsMap := ∅;
      meshOptionsMap := ∅ |}).

(** [get opts] *)
Definition get_opts (doc : NVDocument) : loc := opts (data doc).

(** [set opts(opts) { this.data.opts = { ...opts } }] *)
Definition set_opts (o : loc) : M State unit := fun st =>
  let '(h, doc) := st in
  let '(copy, h1) := alloc (OObject (fields_of h o)) h in
  Returns tt (h1, with_data (with_opts copy (data doc)) doc).

(** [hasImage]: a lookup in the live volumes. *)
Definition hasImage (doc : NVDocument) (image : NVImage) : bool :=
  bool_decide (is_Some (List.find (fun i => String.eqb (id i) (id image)) (volumes doc))).

(** [hasImageFromUrl] *)
Definition hasImageFromUrl (h : Heap) (doc : NVDocument) (url : string) : bool :=
  bool_decide (is_Some (List.find
    (fun i => strict_eq (get_field h i "url") (VStr url))
    (imageOptionsArray (data doc)))).

(** The naming block of [addImageOptions], entered when the image is
    not among the volumes and the options carry no name. *)
Definition name_imageOptions (imageOptions : loc) : M Heap unit := fun h =>
  if truthy (get_field h imageOptions "url") then
    match url_pathname (get_field h imageOptions "url") with
    | None => Throws (TypeError "Invalid URL") h
    | Some pathname =>
        let name := Str.nii_name (Str.pop (Str.split_slash pathname)) in
        Returns tt (set_field imageOptions "name" (VStr name) h)
    end
  else Returns tt (set_field imageOptions "name" (VStr "untitled.nii") h).

(** [addImageOptions(image, imageOptions)] *)
Definition addImageOptions (image : NVImage) (imageOptions : loc) : M State unit :=
  fun st =>
  let '(h, doc) := st in
  let named :=
    if negb (hasImage doc image) then
      if negb (truthy (get_field h imageOptions "name")) then
        name_imageOptions imageOptions h
      else Returns tt h
    else Returns tt h in
  match named with
  | Throws e h1 => Throws e (h1, doc)
  | Returns _ h1 =>
      let h2 := set_field imageOptions "imageType" NVIMAGE_TYPE_NII h1 in
      let array := imageOptionsArray (data doc) ++ [imageOptions] in
      Returns tt
        (h2,
         with_imageOptionsMap
           (<[id image := length array - 1]> (imageOptionsMap doc))
           (with_data (with_imageOptionsArray array (data doc)) doc))
  end.

(** [removeImage(image)] *)
Definition removeImage (image : NVImage) : M State unit := fun st =>
  let '(h, doc) := st in
  let doc1 :=
    match imageOptionsMap doc !! id image with
    | Some index =>
        let array := imageOptionsArray (data doc) in
        let array :=
          if decide (index < length array) then delete index array else array in
        with_imageOptionsMap (delete (id image) (imageOptionsMap doc))
          (with_data (with_imageOptionsArray array (data doc)) doc)
    | None => doc
    end in
  Returns tt
    (h, with_volumes
          (List.filter (fun i => negb (String.eqb (id i) (id image))) (volumes doc1))
          doc1).

(** [getImageOptions(image)]: the record at the recorded index
    ([undefined] when the index is past the end), or [null] for an
    unknown identifier. *)
Definition getImageOptions (doc : NVDocument) (image : NVImage) : Value :=
  match imageOptionsMap doc !! id image with
  | Some index =>
      match imageOptionsArray (data doc) !! index with
      | Some l => VRef l
      | None => VUndefined
      end
  | None => VNull
  end.

(** *** Export: [json()] *)

(** The object built for one layer by [mesh.layers.map]. *)
Definition copy_layer (layer : Layer) : Layer :=
  let get k := default VUndefined (layer !! k) in
  list_to_map [
    ("values", get "values");
    ("nFrame4D", get "nFrame4D");
    ("frame4D", VNum zero);
    ("outlineBorder", get "outlineBorder");
    ("global_min", get "global_min");
    ("global_max", get "global_max");
    ("cal_min", get "cal_min");
    ("cal_max", get "cal_max");
    ("opacity", get "opacity");
    ("colormap", get "colormap");
    ("colormapNegative", get "colormapNegative");
    ("colormapLabel", get "colormapLabel");
    ("useNegativeCmap", get "useNegativeCmap")
  ].

(** [copyMesh] *)
Definition copy_mesh (mesh : Mesh) : MeshBody * list Layer :=
  (copy_body mesh, List.map copy_layer (mesh_layers mesh)).

(** [data.opts = { ...this.opts }] and the substitution of the token
    for the infinite mesh thickness. *)
Definition export_opts (doc : NVDocument) : M Heap loc := fun h =>
  let '(o, h1) := alloc (OObject (fields_of h (get_opts doc))) h in
  let h2 :=
    if strict_eq (get_field h1 (get_opts doc) "meshThicknessOn2D") (VNum Infinity)
    then set_field o "meshThicknessOn2D" (VStr "infinity") h1
    else h1 in
  Returns o h2.

(** "update image options on current image settings", base volume. *)
Definition refresh_base (imageOptions : loc) (volume : NVImage) (h : Heap) : Heap :=
  set_field imageOptions "cal_min" (or_else (cal_min volume) (VNum NaN))
    (set_field imageOptions "cal_max" (or_else (cal_max volume) (VNum NaN))
       (set_field imageOptions "opacity" (opacity volume)
          (set_field imageOptions "colormap" (colormap volume) h))).

(** The same for a volume of the loop, which also copies the label
    color map. *)
Definition refresh_overlay (imageOptions : loc) (volume : NVImage) (h : Heap) : Heap :=
  set_field imageOptions "cal_min" (or_else (cal_min volume) (VNum NaN))
    (set_field imageOptions "cal_max" (or_else (cal_max volume) (VNum NaN))
       (set_field imageOptions "opacity" (opacity volume)
          (set_field imageOptions "colormapLabel" (colormapLabel volume)
             (set_field imageOptions "colormap" (colormap volume) h)))).

(** What the volume part of [json()] accumulates. *)
Record VolumeExport : Type := mkVolumeExport {
  v_imageOptionsArray : list loc;
  v_encodedImageBlobs : list string;
  v_imageOptionsMap : gmap string nat
}.

Definition push_volume (imageOptions : loc) (volume : NVImage) (i : nat)
  (acc : VolumeExport) : VolumeExport := {|
    v_imageOptionsArray := v_imageOptionsArray acc ++ [imageOptions];
    v_encodedImageBlobs :=
      v_encodedImageBlobs acc ++ [uint8tob64 (toUint8Array volume None)];
    v_imageOptionsMap := <[id volume := i]> (v_imageOptionsMap acc)
  |}.

(** The record used for the volume at position [i >= 1]: the
    registered one, given its type marker if it has none; a fresh
    default one when [getImageOptions] answers [null].  When it
    answers [undefined], the test ['imageType' in imageOptions]
    throws. *)
Definition overlay_imageOptions (doc : NVDocument) (volume : NVImage) : M Heap loc :=
  fun h =>
  match getImageOptions doc volume with
  | VNull =>
      let '(l, h1) := alloc (OObject default_imageOptions) h in Returns l h1
  | VRef l =>
      Returns l
        (if negb (has_field h l "imageType")
         then set_field l "imageType" NVIMAGE_TYPE_NII h else h)
  | _ =>
      Throws (TypeError
        "Cannot use 'in' operator to search for 'imageType' in undefined") h
  end.

(** [for (let i = 1; i < this.volumes.length; i++)], entered at
    position [i] with the volumes from there on. *)
Fixpoint export_overlays (doc : NVDocument) (i : nat) (vols : list NVImage)
  (acc : VolumeExport) : M Heap VolumeExport :=
  match vols with
  | [] => JS.ret acc
  | volume :: rest =>
      let! imageOptions := overlay_imageOptions doc volume in
      modify (refresh_overlay imageOptions volume) >>
      export_overlays doc (S i) rest (push_volume imageOptions volume i acc)
  end.

(** The record used for the base volume: the first of the sequence,
    or a fresh default one when the sequence is empty. *)
Definition base_imageOptions (doc : NVDocument) : M Heap loc := fun h =>
  match imageOptionsArray (data doc) !! 0 with
  | Some l => Returns l h
  | None =>
      let '(l, h1) := alloc (OObject default_imageOptions) h in Returns l h1
  end.

(** [if (this.volumes.length) { ... }].  The record of the base
    volume is an object, so the branch that throws "image options for
    base layer not found" is never taken. *)
Definition export_volumes (doc : NVDocument)
  : M Heap (VolumeExport * option string) :=
  match volumes doc with
  | [] => JS.ret (mkVolumeExport [] [] ∅, None)
  | base :: rest =>
      let! imageOptions := base_imageOptions doc in
      modify (refresh_base imageOptions base) >>
      let drawing :=
        match drawBitmap doc with
        | Some bitmap => Some (uint8tob64 (toUint8Array base (Some bitmap)))
        | None => None
        end in
      let! acc :=
        export_overlays doc 1 rest
          (push_volume imageOptions base 0 (mkVolumeExport [] [] ∅)) in
      JS.ret (acc, drawing)
  end.

(** [json()] *)
Definition json_heap (doc : NVDocument) : M Heap ExportDocumentData :=
  let! o := export_opts doc in
  let! vols := export_volumes doc in
  JS.ret {|
    x_encodedImageBlobs := v_encodedImageBlobs (fst vols);
    x_encodedDrawingBlob := snd vols;
    x_previewImageDataURL := previewImageDataURL (data doc);
    x_imageOptionsMap := v_imageOptionsMap (fst vols);
    x_imageOptionsArray := v_imageOptionsArray (fst vols);
    x_sceneData := Scene.sceneData (scene doc);
    x_opts := o;
    x_meshesString :=
      serialize_meshes
        (copy_mesh <$> List.filter (fun m => negb (is_connectome m)) (meshes doc));
    x_labels := labels (data doc);
    x_connectomes := connectome_string <$> List.filter is_connectome (meshes doc);
    x_customData := customData (data doc)
  |}.

Definition json : M State ExportDocumentData := fun st =>
  match json_heap (snd st) (fst st) with
  | Returns e h => Returns e (h, snd st)
  | Throws e h => Throws e (h, snd st)
  end.

(** *** Import: [loadFromJSON] *)

(** The legacy-name shim applied to one layer. *)
Definition rename_field (old new : string) (layer : Layer) : Layer :=
  match layer !! old with
  | Some v => delete old (<[new := v]> layer)
  | None => layer
  end.

Definition rename_legacy (layer : Layer) : Layer :=
  rename_field "colorMapNegative" "colormapNegative"
    (rename_field "colorMap" "colormap" layer).

(** [static deserializeMeshDataObjects(document)].  The layers are
    fresh objects of the deserializer, held by the document only. *)
Definition deserializeMeshDataObjects : M NVDocument unit := fun document =>
  match meshesString (data document) with
  | Some s =>
      if truthy (VStr s) then
        match deserialize_meshes s with
        | inl e => Throws e document
        | inr objects =>
            Returns tt
              (with_meshDataObjects
                 (Some (List.map
                    (fun mesh : MeshBody * list Layer =>
                       (fst mesh, List.map rename_legacy (snd mesh)))
                    objects))
                 document)
        end
      else Returns tt document
  | None => Returns tt document
  end.

(** [static loadFromJSON(data)] *)
Definition loadFromJSON (noop_azel noop_zoom : Scene.callback) (data : DocumentData)
  : M Heap NVDocument := fun h =>
  let '(h0, document) := new_NVDocument noop_azel noop_zoom h in
  let document := with_data data document in
  let h1 :=
    if strict_eq (get_field h0 (opts data) "meshThicknessOn2D") (VStr "infinity")
    then set_field (opts data) "meshThicknessOn2D" (VNum Infinity) h0
    else h0 in
  let document :=
    with_scene
      (Scene.update_sceneData
         (fun _ => merge_sceneData Scene.INITIAL_SCENE_DATA (sceneData data))
         (scene document))
      document in
  match deserializeMeshDataObjects document with
  | Returns _ document => Returns document h1
  | Throws e _ => Throws e h1
  end.

(** A container produced by [json()], read at the type
    [DocumentData]. *)
Definition as_DocumentData (e : ExportDocumentData) : DocumentData := {|
  title := None;
  imageOptionsArray := x_imageOptionsArray e;
  meshOptionsArray := None;
  opts := x_opts e;
  previewImageDataURL := x_previewImageDataURL e;
  labels := x_labels e;
  encodedImageBlobs := x_encodedImageBlobs e;
  encodedDrawingBlob := x_encodedDrawingBlob e;
  meshesString := Some (x_meshesString e);
  sceneData := Some (full_sceneData (x_sceneData e));
  connectomes := Some (x_connectomes e);
  customData := x_customData e
|}.

End Methods.

End Document.

(* ===================================================================== *)
(** ** The connectome ([class NVConnectome]) *)
(* ===================================================================== *)

Module Connectome.

(** Types of the classes the connectome builds on. *)
Class Types : Type := {
  (** [NVLabel3D] *)
  Label : Type;
  (** What [updateConnectome] leaves on the mesh: vertex and index
      buffers, extents and the index count. *)
  Geometry : Type
}.

Section Model.
Context {types : Types}.

(** [NVConnectomeNode] *)
Record NVConnectomeNode : Type := mkNode {
  name : string;
  x : number;
  y : number;
  z : number;
  colorValue : number;
  sizeValue : number;
  label : option Label
}.

(** [NVConnectomeEdge].  [first] and [second] are positions in the
    node array: integer-valued numbers, held as integers (an integer
    that is no binary64 value does not occur as a position).  On them
    [===] is equality; [+] is the addition of binary64, see [plus]. *)
Record NVConnectomeEdge : Type := mkEdge {
  first : Z;
  second : Z;
  edgeColorValue : number
}.

(** Node and edge objects, each named by the position at which it was
    allocated. *)
Record Store : Type := mkStore {
  node_objects : list NVConnectomeNode;
  edge_objects : list NVConnectomeEdge
}.

Inductive NodeEvent : Type :=
| nodeAdded (node : loc)
| nodeDeleted (node : loc)
| nodeChanged (node : loc).

(** The fields of an [NVConnectome] that its node and edge methods
    use.  [options] holds the properties named in [defaultOptions];
    [nodesChanged] records the events dispatched so far. *)
Record NVConnectome : Type := mkNVConnectome {
  nodes : option (list loc);
  edges : option (list loc);
  options : gmap string Value;
  geometry : option Geometry;
  nodesChanged : list NodeEvent
}.

Definition with_nodes (x : option (list loc)) (c : NVConnectome) : NVConnectome :=
  mkNVConnectome x (edges c) (options c) (geometry c) (nodesChanged c).
Definition with_edges (x : option (list loc)) (c : NVConnectome) : NVConnectome :=
  mkNVConnectome (nodes c) x (options c) (geometry c) (nodesChanged c).
Definition with_geometry (x : option Geometry) (c : NVConnectome) : NVConnectome :=
  mkNVConnectome (nodes c) (edges c) (options c) x (nodesChanged c).
Definition dispatchEvent (e : NodeEvent) (c : NVConnectome) : NVConnectome :=
  mkNVConnectome (nodes c) (edges c) (options c) (geometry c) (nodesChanged c ++ [e]).

Definition with_label (l : Label) (n : NVConnectomeNode) : NVConnectomeNode :=
  mkNode (name n) (x n) (y n) (z n) (colorValue n) (sizeValue n) (Some l).

Definition State : Type := Store * NVConnectome.

(** [const defaultOptions] *)
Definition defaultOptions : gmap string Value :=
  list_to_map [
    ("name", VStr "untitled connectome");
    ("nodeColormap", VStr "warm");
    ("nodeColormapNegative", VStr "winter");
    ("nodeMinColor", VNum zero);
    ("nodeMaxColor", VNum (double 4 0));
    ("nodeScale", VNum (double 3 0));
    ("edgeColormap", VStr "warm");
    ("edgeColormapNegative", VStr "winter");
    ("edgeMin", VNum (double 2 0));
    ("edgeMax", VNum (double 6 0));
    ("edgeScale", VNum (double 1 0));
    ("legendLineThickness", VNum zero)
  ].

(** [this.k === undefined] for a property of the instance. *)
Definition option_undefined (c : NVConnectome) (k : string) : bool :=
  strict_eq (default VUndefined (options c !! k)) VUndefined.

(** [x + y] on two integer-valued numbers: the binary64 value nearest
    to the exact sum, ties to even, or an infinity when that is out of
    range.  From 2^53 on it is not the exact sum. *)
Definition plus (x y : Z) : number := double (x + y) 0.

(** The code the methods call that is not part of [nvconnectome.ts],
    or that only drives the graphics side. *)
Class Collaborators : Type := {
  (** [NVUtilities.arraysAreEqual] *)
  arraysAreEqual : list number -> list number -> bool;
  (** The text of an array of numbers inside a template literal. *)
  numbers_to_string : list number -> string;
  (** The text of an integer-valued number of magnitude 2^53 or more
      inside a template literal: the shortest digits that identify the
      number, padded with zeros, and in exponent notation from 1e21. *)
  large_integer_string : Z -> string;
  (** The two calls of [cmapper.colormap] on the node color maps of
      the instance, with which [updateLabels] and [updateConnectome]
      both start: the exception one of them throws, if any.  The
      color-map names are among the properties of the instance. *)
  colormaps : gmap string Value -> option Exception;
  (** The label [updateLabels] builds for one node from the color
      tables and the node sizes: [inr None] for a node the loop skips,
      [inl] for what [new NVLabel3D] throws. *)
  node_label : NVConnectome -> list NVConnectomeNode -> NVConnectomeNode
               -> Exception + option Label;
  (** The body of [updateConnectome] after its two guards: the
      spheres and cylinders, the extents and the WebGL buffers; or the
      exception it throws. *)
  build_geometry : Store -> NVConnectome -> Exception + Geometry
}.

Context {platform : Collaborators}.

Definition node_at (s : Store) (l : loc) : option NVConnectomeNode :=
  node_objects s !! l.
Definition edge_at (s : Store) (l : loc) : option NVConnectomeEdge :=
  edge_objects s !! l.

Definition set_node (l : loc) (n : NVConnectomeNode) (s : Store) : Store :=
  mkStore (<[l := n]> (node_objects s)) (edge_objects s).

Definition alloc_edge (e : NVConnectomeEdge) (s : Store) : loc * Store :=
  (length (edge_objects s), mkStore (node_objects s) (edge_objects s ++ [e])).

(** The loop of [updateLabels]: every node the loop does not skip gets
    a new label, in place; a throw leaves the labels written so far. *)
Fixpoint label_nodes (c : NVConnectome) (all : list NVConnectomeNode) (ns : list loc)
  : M Store unit :=
  match ns with
  | [] => JS.ret tt
  | l :: rest => fun s =>
      match node_at s l with
      | Some n =>
          match node_label c all n with
          | inl e => Throws e s
          | inr (Some lbl) => label_nodes c all rest (set_node l (with_label lbl n) s)
          | inr None => label_nodes c all rest s
          end
      | None => label_nodes c all rest s
      end
  end.

(** [updateLabels()]: nothing is done without nodes; otherwise the
    color tables are looked up and then the loop runs. *)
Definition updateLabels : M State unit := fun st =>
  let '(s, c) := st in
  match nodes c with
  | Some ((_ :: _) as ns) =>
      match colormaps (options c) with
      | Some e => Throws e st
      | None =>
          match label_nodes c (omap (node_at s) ns) ns s with
          | Returns _ s' => Returns tt (s', c)
          | Throws e s' => Throws e (s', c)
          end
      end
  | _ => Returns tt st
  end.

(** An integer-valued number inside a template literal: below 2^53 all
    its decimal digits. *)
Definition integer_to_string (n : Z) : string :=
  if (Z.abs n <? 2 ^ 53)%Z then NilZero.string_of_int (Z.to_int n)
  else large_integer_string n.

(** [updateConnectome(gl)]: the color tables are looked up, then come
    its two guards, and then the construction of the geometry. *)
Definition updateConnectome : M State unit := fun st =>
  let '(s, c) := st in
  match colormaps (options c) with
  | Some e => Throws e st
  | None =>
      if option_undefined c "nodeMinColor" || option_undefined c "nodeMaxColor" then
        Throws (Error "nodeMinColor or nodeMaxColor is undefined") st
      else if option_undefined c "edgeMin" || option_undefined c "edgeMax" then
        Throws (Error "edgeMin or edgeMax undefined") st
      else
        match build_geometry s c with
        | inl e => Throws e st
        | inr g => Returns tt (s, with_geometry (Some g) c)
        end
  end.

(** What [updateConnectomeNodeByIndex] does once the element is
    written. *)
Definition node_changed (updatedNode : loc) : M State unit :=
  updateLabels >>
  updateConnectome >>
  modify (fun st : State => (fst st, dispatchEvent (nodeChanged updatedNode) (snd st))).

(** [updateConnectomeNodeByIndex(index, updatedNode)], for an index
    inside the node array (a write past its end would leave holes,
    which a sequence of references does not have). *)
Definition updateConnectomeNodeByIndex (index : nat) (updatedNode : loc) : M State unit :=
  modify (fun st : State =>
            (fst st,
             with_nodes (Some (<[index := updatedNode]> (default [] (nodes (snd st)))))
               (snd st))) >>
  node_changed updatedNode.

(** The test of [nodes.find] in [updateConnectomeNodeByPoint]. *)
Definition node_is_at (s : Store) (point : list number) (l : loc) : bool :=
  match node_at s l with
  | Some n => arraysAreEqual [x n; y n; z n] point
  | None => false
  end.

(** [nodes.findIndex((n) => n === node)] *)
Fixpoint findIndex (node : loc) (ns : list loc) : option nat :=
  match ns with
  | [] => None
  | n :: rest => if Nat.eqb n node then Some 0 else S <$> findIndex node rest
  end.

(** [updateConnectomeNodeByPoint(point, updatedNode)] *)
Definition updateConnectomeNodeByPoint (point : list number) (updatedNode : loc)
  : M State unit := fun st =>
  let '(s, c) := st in
  match nodes c with
  | None => Throws (Error "Node to update does not exist") st
  | Some ns =>
      match List.find (node_is_at s point) ns with
      | None =>
          Throws (Error ("Node with point " ++ numbers_to_string point
                         ++ " to update does not exist")) st
      | Some node =>
          match findIndex node ns with
          | Some index => updateConnectomeNodeByIndex index updatedNode st
          | None =>
              (* index -1: the write sets a property of that name and
                 leaves the elements as they are *)
              node_changed updatedNode st
          end
      end
  end.

(** The test of [edges.find] in [addConnectomeEdge]. *)
Definition add_matches (s : Store) (first' second' : Z) (l : loc) : bool :=
  match edge_at s l with
  | Some f =>
      ((first f =? first')%Z || (second f =? first')%Z)
      && SFeqb (plus (first f) (second f)) (plus first' second')
  | None => false
  end.

(** The test of [edges.find] in [deleteConnectomeEdge]. *)
Definition delete_matches (s : Store) (first' second' : Z) (l : loc) : bool :=
  match edge_at s l with
  | Some f =>
      ((first f =? first')%Z || (first f =? second')%Z)
      && SFeqb (plus (first f) (second f)) (plus first' second')
  | None => false
  end.

(** [addConnectomeEdge(first, second, colorValue)] *)
Definition addConnectomeEdge (first' second' : Z) (colorValue' : number) : M State loc :=
  fun st =>
  let '(s, c) := st in
  match edges c with
  | None => Throws (TypeError "Cannot read properties of undefined (reading 'find')") st
  | Some es =>
      match List.find (add_matches s first' second') es with
      | Some edge => Returns edge st
      | None =>
          let '(edge, s1) := alloc_edge (mkEdge first' second' colorValue') s in
          (updateConnectome >> JS.ret edge) (s1, with_edges (Some (es ++ [edge])) c)
      end
  end.

(** [deleteConnectomeEdge(first, second)] *)
Definition deleteConnectomeEdge (first' second' : Z) : M State loc := fun st =>
  let '(s, c) := st in
  match edges c with
  | None => Throws (TypeError "Cannot read properties of undefined (reading 'find')") st
  | Some es =>
      match List.find (delete_matches s first' second') es with
      | Some edge =>
          (updateConnectome >> JS.ret edge)
            (s, with_edges (Some (List.filter (fun e => negb (Nat.eqb e edge)) es)) c)
      | None =>
          Throws (Error ("edge between " ++ integer_to_string first' ++ " and "
                         ++ integer_to_string second' ++ " not found")) st
      end
  end.

End Model.

End Connectome.

(* ===================================================================== *)
(** ** Vocabulary of the properties *)
(* ===================================================================== *)

Module Props.

Import Document.

(** The properties of a load-option record that [json()] writes. *)
Definition display_keys : list string :=
  ["colormap"; "colormapLabel"; "opacity"; "cal_max"; "cal_min"; "imageType"].

(** [o'] is [o] up to its display properties. *)
Definition refreshed (o o' : Obj) : Prop :=
  match o, o' with
  | OObject m, OObject m' => forall k, k ∉ display_keys -> m' !! k = m !! k
  | _, _ => o' = o
  end.

(** What [json()] may do to a store [h]: the store grows, and an
    object of [h] changes only if it is one of the records [A], and
    then only in its display properties. *)
Definition frame (A : list loc) (h h' : Heap) : Prop :=
  length h <= length h'
  /\ forall l o, h !! l = Some o ->
       exists o', h' !! l = Some o' /\ (l ∉ A -> o' = o) /\ refreshed o o'.

(** The index recorded for [v], if any, is inside the load-option
    sequence. *)
Definition in_range {platform : Collaborators} (doc : NVDocument) (v : NVImage) : bool :=
  match imageOptionsMap doc !! id v with
  | Some index => bool_decide (index < length (imageOptionsArray (data doc)))
  | None => true
  end.

(** That holds of every volume after the base one. *)
Definition overlay_indices_in_range {platform : Collaborators} (doc : NVDocument) : bool :=
  forallb (in_range doc) (tail (volumes doc)).

(** The default record after the display settings of [volume] were
    written to it, for a volume of the loop and for the base volume. *)
Definition overlay_default {platform : Collaborators} (volume : NVImage) : gmap string Value :=
  <["cal_min" := or_else (cal_min volume) (VNum NaN)]>
    (<["cal_max" := or_else (cal_max volume) (VNum NaN)]>
       (<["opacity" := opacity volume]>
          (<["colormapLabel" := colormapLabel volume]>
             (<["colormap" := colormap volume]> default_imageOptions)))).

Definition base_default {platform : Collaborators} (volume : NVImage) : gmap string Value :=
  <["cal_min" := or_else (cal_min volume) (VNum NaN)]>
    (<["cal_max" := or_else (cal_max volume) (VNum NaN)]>
       (<["opacity" := opacity volume]>
          (<["colormap" := colormap volume]> default_imageOptions))).

(** [layer'] is [layer] with the legacy color-map names replaced. *)
Definition renamed (layer layer' : Layer) : Prop :=
  (forall v, layer !! "colorMap" = Some v ->
             layer' !! "colormap" = Some v /\ layer' !! "colorMap" = None)
  /\ (forall v, layer !! "colorMapNegative" = Some v ->
                layer' !! "colormapNegative" = Some v
                /\ layer' !! "colorMapNegative" = None)
  /\ (layer !! "colorMap" = None -> layer !! "colorMapNegative" = None ->
      layer' = layer).

(** [o.k[i]]: an element of an array-valued option. *)
Definition read_element (h : Heap) (o : loc) (k : string) (i : nat) : Value :=
  match get_field h o k with
  | VRef a => get_index h a i
  | _ => VUndefined
  end.

(** [o.k[i] = v] *)
Definition write_element (o : loc) (k : string) (i : nat) (v : Value) (h : Heap) : Heap :=
  match get_field h o k with
  | VRef a => set_index a i v h
  | _ => h
  end.

(** A finite number. *)
Definition is_finite (n : number) : bool :=
  match n with
  | S754_zero _ | S754_finite _ _ _ => true
  | _ => false
  end.

(** The edge [f] joins the nodes [a] and [b], in either orientation. *)
Definition joins `{Connectome.Types} (f : Connectome.NVConnectomeEdge) (a b : Z) : Prop :=
  (Connectome.first f = a /\ Connectome.second f = b)
  \/ (Connectome.first f = b /\ Connectome.second f = a).

(** A node position small enough for the sum of two of them to be
    exact in binary64. *)
Definition small (x : Z) : Prop := (Z.abs x < 2 ^ 52)%Z.

(** The edges of the list have small endpoints. *)
Definition small_edges `{Connectome.Types} (s : Connectome.Store) (es : list loc) : Prop :=
  forall l f, l ∈ es -> Connectome.edge_at s l = Some f ->
              small (Connectome.first f) /\ small (Connectome.second f).

(** [l] is the first edge of the list that joins [a] and [b]: it is at
    position [i] and no edge before it joins them. *)
Definition first_joining `{Connectome.Types} (s : Connectome.Store) (es : list loc)
  (a b : Z) (i : nat) (l : loc) : Prop :=
  es !! i = Some l
  /\ (exists f, Connectome.edge_at s l = Some f /\ joins f a b)
  /\ forall j l' f', j < i -> es !! j = Some l' -> Connectome.edge_at s l' = Some f' ->
                     ~ joins f' a b.

End Props.

(* ===================================================================== *)
(** ** Concrete collaborators and documents, for the examples *)
(* ===================================================================== *)

Module Demo.

Import Document.

(** Stand-ins for the imported code: an empty codec, a URL parser that
    takes the string for the pathname, one serialized mesh with a layer
    that carries the legacy names. *)
Definition platform : Collaborators := {|
  NVIMAGE_TYPE_NII := VNum (double 1 0);
  Label := string;
  toUint8Array := fun _ _ => [];
  uint8tob64 := fun _ => "";
  url_pathname := fun v => match v with VStr s => Some s | _ => None end;
  Mesh := unit;
  is_connectome := fun _ => false;
  connectome_string := fun _ => "{}";
  mesh_layers := fun _ => [];
  MeshBody := unit;
  copy_body := fun _ => tt;
  serialize_meshes := fun _ => "[[1,[]]]";
  deserialize_meshes := fun _ =>
    inr [(tt, [ {[ "colorMap" := VStr "warm"; "opacity" := VNum (double 1 0) ]};
                {[ "colormap" := VStr "gray" ]} ])]
|}.

Definition volume (name : string) (cmap : string) : NVImage :=
  mkNVImage name (VStr cmap) VNull (VNum (double 1 (-1))) (VNum zero) (VNum (double 100 0)).

Definition imgA : NVImage := volume "a" "hot".
Definition imgB : NVImage := volume "b" "winter".
Definition imgC : NVImage := volume "c" "bone".
Definition imgX : NVImage := volume "x" "viridis".

Definition record (name : string) : Obj :=
  OObject {[ "name" := VStr name; "colormap" := VStr "gray";
             "opacity" := VNum (double 1 0) ]}.

(** A new document on the store of the module, with three load-option
    records allocated by the caller at 12, 13 and 14. *)
Definition start : State (platform := platform) :=
  let '(h, doc) := new_NVDocument (platform := platform) 0 1 module_heap in
  (h ++ [record "a.nii"; record "b.nii"; record "c.nii"], doc).

Definition recA : loc := 12.
Definition recB : loc := 13.
Definition recC : loc := 14.

(** Run a method for its final state. *)
Definition after {S A : Type} (m : M S A) (s : S) : S := final_state (m s).

(** An options object of the caller at 16, with a finite mesh
    thickness and a color array of its own at 15. *)
Definition with_user_options : State (platform := platform) :=
  (fst start
     ++ [OArray [VNum zero; VNum zero; VNum zero; VNum (double 1 0)];
         OObject {[ "backColor" := VRef 15;
                    "meshThicknessOn2D" := VNum (double 2 0);
                    "isColorbar" := VBool false ]}],
   snd start).

Definition user_options : loc := 16.

(** A container with a mesh string, as [loadFromJSON] takes it. *)
Definition as_DocumentData_of_start : DocumentData (platform := platform) :=
  with_opts (platform := platform) DEFAULT_OPTIONS
    {| title := None; imageOptionsArray := []; meshOptionsArray := None;
       opts := DEFAULT_OPTIONS; previewImageDataURL := ""; labels := [];
       encodedImageBlobs := []; encodedDrawingBlob := None;
       meshesString := Some "[[1,[]]]"; sceneData := None;
       connectomes := Some []; customData := None |}.

(** [json()] and then [loadFromJSON] on what it returned. *)
Definition export_then_import (st : State (platform := platform))
  : option (State (platform := platform)) :=
  match json (platform := platform) st with
  | Returns e (h1, _) =>
      match loadFromJSON (platform := platform) 0 1 (as_DocumentData e) h1 with
      | Returns doc2 h2 => Some (h2, doc2)
      | Throws _ _ => None
      end
  | Throws _ _ => None
  end.

(** The images A, B and C registered in this order; one record object
    serves both B and C. *)
Definition shared_record : State (platform := platform) :=
  after (addImageOptions (platform := platform) imgC recB)
    (after (addImageOptions (platform := platform) imgB recB)
       (after (addImageOptions (platform := platform) imgA recA) start)).

End Demo.

Module DemoConnectome.

Import Connectome.

Definition types : Types := {| Label := unit; Geometry := unit |}.

(** Stand-ins: element-wise [===] for the array comparison, the text of
    the one point the examples look for, one label for every node, and a
    geometry that is always built. *)
Definition platform : Collaborators (types := types) := {|
  arraysAreEqual := fun a b =>
    (length a =? length b)%nat
    && forallb (fun p => SFeqb (fst p) (snd p)) (combine a b);
  numbers_to_string := fun _ => "7,0,0";
  large_integer_string := fun _ => "9007199254740992";
  colormaps := fun o =>
    match o !! "nodeColormap" with
    | Some (VStr _) => None
    | _ => Some (TypeError "Cannot read properties of null (reading 'toLowerCase')")
    end;
  node_label := fun _ _ _ => inr (Some (tt : @Label types));
  build_geometry := fun _ _ => inr (tt : @Geometry types)
|}.

Definition node (name : string) (px : number) : NVConnectomeNode (types := types) :=
  mkNode (types := types) name px zero zero (double 1 0) (double 1 0) None.

(** Three nodes on the x axis and one edge between the first two. *)
Definition store : Store (types := types) := {|
  node_objects := [node "n0" zero; node "n1" (double 1 0); node "n2" (double 2 0)];
  edge_objects := [mkEdge 0 1 (double 3 0)]
|}.

Definition configured : NVConnectome (types := types) := {|
  nodes := Some [0; 1];
  edges := Some [0];
  options := defaultOptions;
  geometry := None;
  nodesChanged := []
|}.

(** The same connectome without [nodeMinColor]. *)
Definition unconfigured : NVConnectome (types := types) := {|
  nodes := Some [0; 1];
  edges := Some [0];
  options := delete "nodeMinColor" defaultOptions;
  geometry := None;
  nodesChanged := []
|}.

(** The same connectome with a null node color map. *)
Definition null_colormap : NVConnectome (types := types) := {|
  nodes := Some [0; 1];
  edges := Some [0];
  options := <["nodeColormap" := VNull]> defaultOptions;
  geometry := None;
  nodesChanged := []
|}.

(** The same nodes with one edge between the positions 2^53 and 0. *)
Definition big_store : Store (types := types) := {|
  node_objects := node_objects store;
  edge_objects := [mkEdge (2 ^ 53) 0 (double 3 0)]
|}.

End DemoConnectome.

(* ===================================================================== *)
(** ** The connectome: conversions and node bookkeeping *)
(* ===================================================================== *)

Module ConnectomeData.

(** A node and an edge of the plain [Connectome] value that the two
    converters build.  A property read from an array past its end is
    [undefined]; [metadata] is [None] when the node has none. *)
Record Node : Type := mkNode {
  name : Value;
  x : Value;
  y : Value;
  z : Value;
  colorValue : Value;
  sizeValue : Value;
  metadata : option (list (gmap string Value))
}.

Record Edge : Type := mkEdge {
  first : Z;
  second : Z;
  colorValue_of : Value
}.

(** [type Connectome]: [options] are the own properties of the object
    other than [nodes] and [edges]. *)
Record Connectome : Type := mkConnectome {
  options : gmap string Value;
  nodes : list Node;
  edges : list Edge
}.

(** [type LegacyConnectome]: [props] are the properties of the object
    other than [nodes] and [edges]. *)
Record LegacyConnectome : Type := mkLegacyConnectome {
  props : gmap string Value;
  names : list string;
  X : list number;
  Y : list number;
  Z' : list number;
  Color : list number;
  Size : list number;
  legacy_edges : list number
}.

(** [a[i]] on an array of numbers. *)
Definition at_index (a : list number) (i : nat) : Value :=
  match a !! i with
  | Some n => VNum n
  | None => VUndefined
  end.

(** The property names every object literal inherits from
    [Object.prototype]. *)
Definition Object_prototype : list string :=
  ["constructor"; "__defineGetter__"; "__defineSetter__"; "hasOwnProperty";
   "__lookupGetter__"; "__lookupSetter__"; "isPrototypeOf";
   "propertyIsEnumerable"; "toString"; "valueOf"; "__proto__"; "toLocaleString"].

(** [prop in defaultOptions]: an own property or an inherited one. *)
Definition in_defaultOptions (prop : string) : bool :=
  bool_decide (is_Some (Connectome.defaultOptions !! prop))
  || bool_decide (prop ∈ Object_prototype).

(** [connectome[key] = json[key]] adds or replaces an own property,
    unless the key is [__proto__], for which the assignment reaches the
    setter of [Object.prototype]. *)
Definition assigned (prop : string) : bool :=
  in_defaultOptions prop && negb (String.eqb prop "__proto__").

(** [{ ...defaultOptions }] and then, for every property of the input
    that is [in defaultOptions], the value of the input. *)
Definition legacy_options (json : LegacyConnectome) : gmap string Value :=
  filter (fun kv => assigned (fst kv) = true) (props json)
    ∪ Connectome.defaultOptions.

(** The first loop: one node per name. *)
Definition legacy_nodes (json : LegacyConnectome) : list Node :=
  imap (fun i n =>
          mkNode (VStr n) (at_index (X json) i) (at_index (Y json) i)
            (at_index (Z' json) i) (at_index (Color json) i)
            (at_index (Size json) i) None)
       (names json).

(** The inner loop for one [i]: [j] from [i + 1] below [n]. *)
Definition legacy_edges_from (json : LegacyConnectome) (n i : nat) : list Edge :=
  List.map (fun j => mkEdge (Z.of_nat i) (Z.of_nat j)
                       (at_index (legacy_edges json) (i * n + j)))
           (seq (S i) (n - S i)).

(** [static convertLegacyConnectome(json)] *)
Definition convertLegacyConnectome (json : LegacyConnectome) : Connectome :=
  let n := length (names json) in
  {| options := legacy_options json;
     nodes := legacy_nodes json;
     edges := List.flat_map (legacy_edges_from json n) (seq 0 (n - 1)) |}.

(** A point of a FreeSurfer point set.  [comments] is [None] unless it
    is an array; its elements are objects. *)
Record Point : Type := mkPoint {
  comments : option (list (gmap string Value));
  px : number;
  py : number;
  pz : number
}.

(** [type FreeSurferConnectome], as it comes from a JSON file: either
    property may be missing. *)
Record FreeSurferConnectome : Type := mkFreeSurferConnectome {
  data_type : option Value;
  points : option (list Point)
}.

(** The name of a point: the text of its first comment, if it has one. *)
Definition point_name (p : Point) : Value :=
  match comments p with
  | Some (c :: _) =>
      match c !! "text" with
      | Some text => text
      | None => VStr ""
      end
  | _ => VStr ""
  end.

Definition point_node (p : Point) : Node :=
  mkNode (point_name p) (VNum (px p)) (VNum (py p)) (VNum (pz p))
    (VNum (double 1 0)) (VNum (double 1 0)) (comments p).

(** The validity test of [convertFreeSurferConnectome]. *)
Definition valid_pointset (json : FreeSurferConnectome) : bool :=
  match data_type json with
  | Some t => strict_eq t (VStr "fs_pointset")
  | None => false
  end
  && bool_decide (is_Some (points json)).

(** [static convertFreeSurferConnectome(json, colormap = 'warm')] *)
Definition convertFreeSurferConnectome (json : FreeSurferConnectome) (colormap : option string)
  : Exception + Connectome :=
  let colormap := default "warm" colormap in
  if valid_pointset json then
    inr {| options := <["edgeColormap" := VStr colormap]>
                        (<["nodeColormap" := VStr colormap]> Connectome.defaultOptions);
           nodes := List.map point_node (default [] (points json));
           edges := [] |}
  else inl (Error "not a valid FreeSurfer json pointset").

End ConnectomeData.

Module ConnectomeNodes.

Import Connectome.

Section Methods.
Context {types : Types} {platform : Collaborators}.

(** [addConnectomeNode(node)]: the labels are rebuilt, the geometry is
    not. *)
Definition addConnectomeNode (node : loc) : M State unit := fun st =>
  match nodes (snd st) with
  | None => Throws (Error "nodes not defined") st
  | Some ns =>
      (updateLabels >>
       modify (fun st : State => (fst st, dispatchEvent (nodeAdded node) (snd st))))
        (fst st, with_nodes (Some (ns ++ [node])) (snd st))
  end.

(** [nodes.indexOf(node)] *)
Definition indexOf (node : loc) (ns : list loc) : Z :=
  match findIndex node ns with
  | Some i => Z.of_nat i
  | None => (-1)%Z
  end.

(** The test of [edges.filter] in [deleteConnectomeNode]. *)
Definition avoids (s : Store) (index : Z) (l : loc) : bool :=
  match edge_at s l with
  | Some e => negb (first e =? index)%Z && negb (second e =? index)%Z
  | None => true
  end.

(** [deleteConnectomeNode(node)] *)
Definition deleteConnectomeNode (node : loc) : M State unit := fun st =>
  let '(s, c) := st in
  match nodes c with
  | None => Throws (TypeError "Cannot read properties of undefined (reading 'indexOf')") st
  | Some ns =>
      let index := indexOf node ns in
      let c1 :=
        match edges c with
        | Some es => with_edges (Some (List.filter (avoids s index) es)) c
        | None => c
        end in
      let c2 := with_nodes (Some (List.filter (fun n => negb (Nat.eqb n node)) ns)) c1 in
      (updateLabels >>
       updateConnectome >>
       modify (fun st : State => (fst st, dispatchEvent (nodeDeleted node) (snd st))))
        (s, c2)
  end.

(** [updateMesh(gl)] *)
Definition updateMesh : M State unit := updateConnectome >> updateLabels.

End Methods.

End ConnectomeNodes.

(* ===================================================================== *)
(** ** Vocabulary of the further properties *)
(* ===================================================================== *)

Module MoreProps.

Import Document.

(** Every index of the registry lies inside the load-option sequence. *)
Definition registry_in_range {platform : Collaborators} (doc : NVDocument) : Prop :=
  forall k index, imageOptionsMap doc !! k = Some index ->
                  index < length (imageOptionsArray (data doc)).

(** [c] occurs in [s]. *)
Fixpoint occurs (c : ascii) (s : string) : bool :=
  match s with
  | EmptyString => false
  | String d r => Ascii.eqb d c || occurs c r
  end.

(** The blob of a volume, as [json()] encodes it. *)
Definition blob {platform : Collaborators} (v : NVImage) : string :=
  uint8tob64 (toUint8Array v None).

(** The identifier map after the positions of [vols], counted from
    [i], were written to [m] one after the other. *)
Fixpoint positions_from {platform : Collaborators} (i : nat) (vols : list NVImage)
  (m : gmap string nat) : gmap string nat :=
  match vols with
  | [] => m
  | v :: rest => positions_from (S i) rest (<[id v := i]> m)
  end.

(** The object at [l] is a plain object, not an array. *)
Definition is_object (h : Heap) (l : loc) : Prop :=
  exists m, h !! l = Some (OObject m).

(** The record at [l] holds the display settings of [v], as [json()]
    writes them for every volume. *)
Definition shows {platform : Collaborators} (h : Heap) (l : loc) (v : NVImage) : Prop :=
  get_field h l "colormap" = colormap v
  /\ get_field h l "opacity" = opacity v
  /\ get_field h l "cal_max" = or_else (cal_max v) (VNum NaN)
  /\ get_field h l "cal_min" = or_else (cal_min v) (VNum NaN).

(** The [imageType] of the record at [l] once [json()] has used it
    for a volume after the first: the one it has in [h], or the NII
    marker if it has none. *)
Definition imageType_after {platform : Collaborators} (h : Heap) (l : loc) : Value :=
  if has_field h l "imageType" then get_field h l "imageType" else NVIMAGE_TYPE_NII.

(** The node [n'] is [n] up to its label. *)
Definition relabelled `{Connectome.Types} (n n' : Connectome.NVConnectomeNode) : Prop :=
  Connectome.name n' = Connectome.name n
  /\ Connectome.x n' = Connectome.x n
  /\ Connectome.y n' = Connectome.y n
  /\ Connectome.z n' = Connectome.z n
  /\ Connectome.colorValue n' = Connectome.colorValue n
  /\ Connectome.sizeValue n' = Connectome.sizeValue n.

(** The store [s'] is [s] up to the labels of its nodes. *)
Definition labels_only `{Connectome.Types} (s s' : Connectome.Store) : Prop :=
  Connectome.edge_objects s' = Connectome.edge_objects s
  /\ length (Connectome.node_objects s') = length (Connectome.node_objects s)
  /\ forall l n, Connectome.node_at s l = Some n ->
       exists n', Connectome.node_at s' l = Some n' /\ relabelled n n'.

End MoreProps.

Module MoreDemo.

Import Document ConnectomeData.

(** The store of [Demo.start] with one more record at 15, which has a
    URL and no name. *)
Definition unnamed_record : loc := 15.

Definition unnamed : State (platform := Demo.platform) :=
  (fst Demo.start ++ [OObject {[ "url" := VStr "/data/sub-01/T1w.nii.gz" ]}],
   snd Demo.start).

(** A legacy connectome with three nodes and the 3 x 3 edge matrix in
    row order. *)
Definition legacy : LegacyConnectome := {|
  props := {[ "name" := VStr "demo"; "nodeScale" := VNum (double 5 0);
              "comment" := VStr "ignored"; "toString" := VStr "kept" ]};
  names := ["a"; "b"; "c"];
  X := [zero; double 1 0; double 2 0];
  Y := [zero; zero; zero];
  Z' := [zero; zero; zero];
  Color := [double 1 0; double 2 0; double 3 0];
  Size := [double 1 0; double 1 0];
  legacy_edges := List.map (fun k => double k 0) [0; 1; 2; 1; 0; 3; 2; 3; 0]%Z
|}.

(** Collaborators whose deserializer rejects every string, and a
    container for them: its options object, at the end of [broken_heap],
    holds the token for the infinite mesh thickness. *)
Definition failing : Collaborators := {|
  NVIMAGE_TYPE_NII := VNum (double 1 0);
  Label := string;
  toUint8Array := fun _ _ => [];
  uint8tob64 := fun _ => "";
  url_pathname := fun v => match v with VStr s => Some s | _ => None end;
  Mesh := unit;
  is_connectome := fun _ => false;
  connectome_string := fun _ => "{}";
  mesh_layers := fun _ => [];
  MeshBody := unit;
  copy_body := fun _ => tt;
  serialize_meshes := fun _ => "[]";
  deserialize_meshes := fun _ => inl (Error "Unexpected end of JSON input")
|}.

Definition broken_heap : Heap :=
  module_heap ++ [OObject {[ "meshThicknessOn2D" := VStr "infinity" ]}].

Definition broken_container : DocumentData (platform := failing) :=
  {| title := None; imageOptionsArray := []; meshOptionsArray := None;
     opts := length module_heap; previewImageDataURL := ""; labels := [];
     encodedImageBlobs := []; encodedDrawingBlob := None;
     meshesString := Some "[[1,"; sceneData := None;
     connectomes := None; customData := None |}.

(** The store of [DemoConnectome] with a second edge, between the
    nodes 1 and 2, and a connectome that lists the three nodes and the
    two edges. *)
Definition store3 : Connectome.Store (types := DemoConnectome.types) :=
  Connectome.mkStore (types := DemoConnectome.types)
    (Connectome.node_objects DemoConnectome.store)
    (Connectome.edge_objects DemoConnectome.store
       ++ [Connectome.mkEdge 1 2 (double 4 0)]).

Definition triangle : Connectome.NVConnectome (types := DemoConnectome.types) :=
  Connectome.with_edges (Some [0; 1])
    (Connectome.with_nodes (Some [0; 1; 2]) DemoConnectome.configured).

Definition pointset : FreeSurferConnectome := {|
  data_type := Some (VStr "fs_pointset");
  points := Some [ mkPoint (Some [ {[ "text" := VStr "left" ]} ])
                     (double 1 0) (double 2 0) (double 3 0);
                   mkPoint None zero zero zero ]
|}.

End MoreDemo.

(* ===================================================================== *)
(** ** Properties of the scene accessors *)
(* ===================================================================== *)

Module SceneFacts.

Import Scene.

Lemma notify_registered (sc : Scene) (log : list Call) (f : callback) :
  onAzimuthElevationChange sc = Some f ->
  notify_azimuthElevation (sc, log)
  = Returns tt (sc, log ++ [CallAzimuthElevationChange f
                              (azimuth (sceneData sc)) (elevation (sceneData sc))]).
Proof. intros Hf. unfold notify_azimuthElevation. now rewrite Hf. Qed.

(** C5.  With observers in both slots: setting the azimuth or the
    elevation writes the field and calls the azimuth/elevation observer
    once, with the pair as it is after the write; setting the volume
    scale writes the field and calls the zoom observer once with the new
    scale, and nothing else; the four other setters write their field
    and call nothing. *)
Theorem scene_observer_contract (sc : Scene) (log : list Call) (f g : callback) :
  onAzimuthElevationChange sc = Some f ->
  onZoom3DChange sc = Some g ->
  (forall a,
      set_renderAzimuth a (sc, log)
      = Returns tt (update_sceneData (with_azimuth a) sc,
                    log ++ [CallAzimuthElevationChange f a (elevation (sceneData sc))]))
  /\ (forall e,
      set_renderElevation e (sc, log)
      = Returns tt (update_sceneData (with_elevation e) sc,
                    log ++ [CallAzimuthElevationChange f (azimuth (sceneData sc)) e]))
  /\ (forall s,
      set_volScaleMultiplier s (sc, log)
      = Returns tt (update_sceneData (with_volScaleMultiplier s) sc,
                    log ++ [CallZoom3DChange g s]))
  /\ (forall v,
      set_crosshairPos v (sc, log)
      = Returns tt (update_sceneData (with_crosshairPos v) sc, log))
  /\ (forall v,
      set_clipPlane v (sc, log)
      = Returns tt (update_sceneData (with_clipPlane v) sc, log))
  /\ (forall v,
      set_clipPlaneDepthAziElev v (sc, log)
      = Returns tt (update_sceneData (with_clipPlaneDepthAziElev v) sc, log))
  /\ (forall v,
      set_pan2Dxyzmm v (sc, log)
      = Returns tt (update_sceneData (with_pan2Dxyzmm v) sc, log)).
Proof.
  intros Hf Hg. repeat split; intros.
  - unfold set_renderAzimuth, JS.bind, write_sceneData. cbn [fst snd].
    now rewrite (notify_registered _ _ f).
  - unfold set_renderElevation, JS.bind, write_sceneData. cbn [fst snd].
    now rewrite (notify_registered _ _ f).
  - unfold set_volScaleMultiplier, JS.bind, write_sceneData. cbn. now rewrite Hg.
Qed.

Lemma scene_observer_contract_witness :
  let sc := new_scene 7 8 in
  set_renderAzimuth (double 45 0) (sc, [])
  = Returns tt (update_sceneData (with_azimuth (double 45 0)) sc,
                [CallAzimuthElevationChange 7 (double 45 0) (double 10 0)])
  /\ set_volScaleMultiplier (double 2 0) (sc, [])
     = Returns tt (update_sceneData (with_volScaleMultiplier (double 2 0)) sc,
                   [CallZoom3DChange 8 (double 2 0)]).
Proof.
  intros sc.
  destruct (scene_observer_contract sc [] 7 8 eq_refl eq_refl) as (Ha & _ & Hz & _).
  split; [apply Ha | apply Hz].
Defined.

(** An empty azimuth/elevation slot is skipped; an empty zoom slot makes
    the setter throw after the write. *)
Lemma empty_slots (sc : Scene) (log : list Call) (a : number) :
  (onAzimuthElevationChange sc = None ->
   set_renderAzimuth a (sc, log)
   = Returns tt (update_sceneData (with_azimuth a) sc, log))
  /\ (onZoom3DChange sc = None ->
      exists e, set_volScaleMultiplier a (sc, log)
                = Throws e (update_sceneData (with_volScaleMultiplier a) sc, log)).
Proof.
  split; intros Hn.
  - unfold set_renderAzimuth, JS.bind, write_sceneData, notify_azimuthElevation.
    cbn. now rewrite Hn.
  - unfold set_volScaleMultiplier, JS.bind, write_sceneData. cbn. rewrite Hn. eauto.
Qed.

End SceneFacts.

(* ===================================================================== *)
(** ** The store: allocation and property writes *)
(* ===================================================================== *)

Module HeapFacts.

Lemma alloc_length (o : Obj) (h : Heap) :
  length (snd (alloc o h)) = S (length h).
Proof. unfold alloc. cbn [fst snd]. rewrite length_app. cbn. lia. Qed.

Lemma alloc_old (o : Obj) (h : Heap) (l : loc) :
  l < length h -> snd (alloc o h) !! l = h !! l.
Proof. intros Hl. unfold alloc. cbn [fst snd]. now apply lookup_app_l. Qed.

Lemma alloc_new (o : Obj) (h : Heap) :
  snd (alloc o h) !! fst (alloc o h) = Some o.
Proof.
  unfold alloc. cbn [fst snd]. rewrite lookup_app_r by lia.
  now rewrite Nat.sub_diag.
Qed.

Lemma set_field_length (l : loc) (k : string) (v : Value) (h : Heap) :
  length (set_field l k v h) = length h.
Proof.
  unfold set_field. destruct (h !! l) as [[m|xs]|]; auto. apply length_insert.
Qed.

Lemma set_field_other (l l' : loc) (k : string) (v : Value) (h : Heap) :
  l <> l' -> set_field l k v h !! l' = h !! l'.
Proof.
  intros Hne. unfold set_field. destruct (h !! l) as [[m|xs]|]; auto.
  now apply list_lookup_insert_ne.
Qed.

Lemma set_field_object (l : loc) (k : string) (v : Value) (h : Heap)
  (m : gmap string Value) :
  h !! l = Some (OObject m) ->
  set_field l k v h !! l = Some (OObject (<[k := v]> m)).
Proof.
  intros Hl. unfold set_field. rewrite Hl.
  apply list_lookup_insert_eq. now apply lookup_lt_Some in Hl.
Qed.

Lemma set_field_not_object (l : loc) (k : string) (v : Value) (h : Heap) :
  (forall m, h !! l <> Some (OObject m)) -> set_field l k v h = h.
Proof.
  intros Hl. unfold set_field. destruct (h !! l) as [[m|xs]|]; auto.
  now destruct (Hl m).
Qed.

(** A write to the newest object. *)
Lemma set_field_last (k : string) (v : Value) (h : Heap) (m : gmap string Value) :
  set_field (length h) k v (h ++ [OObject m]) = h ++ [OObject (<[k := v]> m)].
Proof.
  unfold set_field. rewrite lookup_app_r by lia. rewrite Nat.sub_diag. cbn.
  rewrite insert_app_r_alt by lia. now rewrite Nat.sub_diag.
Qed.

Lemma fields_of_set_field_other (l l' : loc) (k : string) (v : Value) (h : Heap) :
  l <> l' -> fields_of (set_field l k v h) l' = fields_of h l'.
Proof. intros Hne. unfold fields_of. now rewrite set_field_other. Qed.

Lemma get_field_set_field_other (l l' : loc) (k k' : string) (v : Value) (h : Heap) :
  l <> l' -> get_field (set_field l k v h) l' k' = get_field h l' k'.
Proof. intros Hne. unfold get_field. now rewrite fields_of_set_field_other. Qed.

Lemma get_field_set_field_key (l l' : loc) (k k' : string) (v : Value) (h : Heap) :
  k <> k' -> get_field (set_field l k v h) l' k' = get_field h l' k'.
Proof.
  intros Hne. destruct (decide (l = l')) as [<-|Hl].
  - unfold get_field, fields_of.
    destruct (h !! l) as [[m|xs]|] eqn:E.
    + rewrite (set_field_object _ _ _ _ _ E). now rewrite lookup_insert_ne.
    + rewrite set_field_not_object; [now rewrite E | intros m; congruence].
    + rewrite set_field_not_object; [now rewrite E | intros m; congruence].
  - now apply get_field_set_field_other.
Qed.

Lemma get_field_set_field_eq (l : loc) (k : string) (v : Value) (h : Heap)
  (m : gmap string Value) :
  h !! l = Some (OObject m) -> get_field (set_field l k v h) l k = v.
Proof.
  intros E. unfold get_field, fields_of.
  rewrite (set_field_object _ _ _ _ _ E). now rewrite lookup_insert_eq.
Qed.

(** A write to an array element leaves the properties of every
    object as they are. *)
Lemma fields_of_set_index (a : loc) (i : nat) (v : Value) (h : Heap) (l : loc) :
  fields_of (set_index a i v h) l = fields_of h l.
Proof.
  unfold set_index. destruct (h !! a) as [[m|xs]|] eqn:Ea; auto.
  unfold fields_of. destruct (decide (a = l)) as [<-|Hne].
  - rewrite Ea. apply lookup_lt_Some in Ea.
    destruct (decide (i < length xs)); now rewrite list_lookup_insert_eq.
  - destruct (decide (i < length xs)); now rewrite list_lookup_insert_ne.
Qed.

Lemma get_field_alloc_old (o : Obj) (h : Heap) (l : loc) (k : string) :
  l < length h -> get_field (snd (alloc o h)) l k = get_field h l k.
Proof. intros Hl. unfold get_field, fields_of. now rewrite alloc_old. Qed.

(** [===] against the two values of the mesh-thickness sentinel. *)
Lemma strict_eq_Infinity (v : Value) :
  strict_eq v (VNum Infinity) = true <-> v = VNum Infinity.
Proof.
  split.
  - destruct v as [| |b|n|s|l]; cbn; try discriminate.
    destruct n as [s|s| |s m e]; try destruct s; cbn; try discriminate; auto.
  - intros ->. reflexivity.
Qed.

Lemma strict_eq_token (v : Value) (t : string) :
  strict_eq v (VStr t) = true <-> v = VStr t.
Proof.
  split.
  - destruct v; cbn; try discriminate. intros E. apply String.eqb_eq in E. now subst.
  - intros ->. cbn. apply String.eqb_refl.
Qed.

End HeapFacts.

(* ===================================================================== *)
(** ** The image-options registry *)
(* ===================================================================== *)

Module RegistryFacts.

Import Document Props.

Section Registry.
Context {platform : Collaborators}.


Lemma getImageOptions_registered (doc : NVDocument) (image : NVImage) (index : nat) :
  imageOptionsMap doc !! id image = Some index ->
  getImageOptions doc image
  = match imageOptionsArray (data doc) !! index with
    | Some l => VRef l
    | None => VUndefined
    end.
Proof. intros E. unfold getImageOptions. now rewrite E. Qed.

(** C4, as the code has it.  Let A be registered at [iA] and B at a
    later index [iB] of the load-option sequence.  [removeImage A]
    returns, deletes the entry of A from the registry and splices
    position [iA] out of the sequence; every other entry of the
    registry, that of B included, keeps its index.  Afterwards
    [getImageOptions B] yields what the old sequence held one place
    after B: the record of B's successor, or [undefined] when B was
    last.  That is another object than the record of B whenever the
    sequence holds no object twice. *)
Theorem removeImage_does_not_renumber
  (h : Heap) (doc : NVDocument) (A B : NVImage) (iA iB : nat) :
  imageOptionsMap doc !! id A = Some iA ->
  imageOptionsMap doc !! id B = Some iB ->
  iA < iB ->
  iB < length (imageOptionsArray (data doc)) ->
  exists doc',
    removeImage A (h, doc) = Returns tt (h, doc')
    /\ imageOptionsMap doc' !! id A = None
    /\ (forall k, k <> id A -> imageOptionsMap doc' !! k = imageOptionsMap doc !! k)
    /\ imageOptionsMap doc' !! id B = Some iB
    /\ imageOptionsArray (data doc') = delete iA (imageOptionsArray (data doc))
    /\ getImageOptions doc' B
       = match imageOptionsArray (data doc) !! S iB with
         | Some successor => VRef successor
         | None => VUndefined
         end
    /\ (NoDup (imageOptionsArray (data doc)) ->
        forall rB, imageOptionsArray (data doc) !! iB = Some rB ->
                   getImageOptions doc' B <> VRef rB).
Proof.
  intros HA HB Hlt Hlen.
  assert (Hne : id B <> id A) by (intros E; rewrite E in HB; simplify_eq; lia).
  eexists. split.
  { unfold removeImage. rewrite HA. rewrite decide_True by lia. reflexivity. }
  cbn.
  assert (HB' : delete (id A) (imageOptionsMap doc) !! id B = Some iB).
  { rewrite lookup_delete_ne by congruence. exact HB. }
  assert (Hget : getImageOptions
            (with_volumes
               (List.filter (fun i => negb (String.eqb (id i) (id A))) (volumes doc))
               (with_imageOptionsMap (delete (id A) (imageOptionsMap doc))
                  (with_data
                     (with_imageOptionsArray
                        (delete iA (imageOptionsArray (data doc))) (data doc)) doc))) B
          = match imageOptionsArray (data doc) !! S iB with
            | Some successor => VRef successor
            | None => VUndefined
            end).
  { unfold getImageOptions. cbn. rewrite HB'.
    rewrite list_lookup_delete_ge by lia. reflexivity. }
  repeat split.
  - apply lookup_delete_eq.
  - intros k Hk. now apply lookup_delete_ne.
  - exact HB'.
  - exact Hget.
  - intros Hnd rB HrB. rewrite Hget.
    destruct (imageOptionsArray (data doc) !! S iB) as [s|] eqn:Hs; [|discriminate].
    intros E. injection E as ->.
    pose proof (NoDup_lookup _ _ _ _ Hnd HrB Hs). lia.
Qed.

End Registry.

Section Examples.
#[local] Existing Instance Demo.platform.
Import Demo.


(** C4 fails in its last clause.  After [removeImage A] the stale
    index of B points at the record of its successor C, and that is
    the very object registered for B. *)
Lemma stale_index_can_hit_the_same_record :
  let doc := snd shared_record in
  let doc' := snd (after (removeImage imgA) shared_record) in
  imageOptionsMap doc !! id imgA = Some 0
  /\ imageOptionsMap doc !! id imgB = Some 1
  /\ getImageOptions doc imgB = VRef recB
  /\ imageOptionsArray (data doc') = [recB; recB]
  /\ imageOptionsMap doc' !! id imgB = Some 1
  /\ getImageOptions doc' imgB = VRef recB.
Proof. repeat split; vm_compute; reflexivity. Qed.

Lemma removeImage_does_not_renumber_witness :
  let st := after (addImageOptions imgB recB)
              (after (addImageOptions imgA recA) start) in
  exists doc',
    removeImage imgA st = Returns tt (fst st, doc')
    /\ imageOptionsMap doc' !! id imgB = Some 1
    /\ imageOptionsArray (data doc') = [recB]
    /\ getImageOptions doc' imgB = VUndefined.
Proof.
  intros st.
  destruct (removeImage_does_not_renumber (fst st) (snd st) imgA imgB 0 1)
    as (doc' & Hrun & _ & _ & HB & Harr & Hget & _);
    [ vm_compute; reflexivity | vm_compute; reflexivity
    | lia | vm_compute; lia | ].
  exists doc'. repeat split.
  - exact Hrun.
  - exact HB.
  - rewrite Harr. vm_compute. reflexivity.
  - rewrite Hget. vm_compute. reflexivity.
Defined.

End Examples.

End RegistryFacts.

(* ===================================================================== *)
(** ** Export *)
(* ===================================================================== *)

Module ExportFacts.

Import Document Props.

Lemma refreshed_refl (o : Obj) : refreshed o o.
Proof. destruct o; cbn; auto. Qed.

Lemma refreshed_trans (o1 o2 o3 : Obj) :
  refreshed o1 o2 -> refreshed o2 o3 -> refreshed o1 o3.
Proof.
  destruct o1 as [m1|x1], o2 as [m2|x2], o3 as [m3|x3]; cbn;
    try congruence; try discriminate.
  intros H12 H23 k Hk. rewrite H23 by exact Hk. now apply H12.
Qed.

Lemma frame_refl (A : list loc) (h : Heap) : frame A h h.
Proof.
  split; [lia|]. intros l o Hl. exists o. repeat split; auto using refreshed_refl.
Qed.

(** Allocation keeps the frame. *)
Lemma frame_alloc (A : list loc) (h0 h : Heap) (o : Obj) :
  frame A h0 h -> frame A h0 (snd (alloc o h)).
Proof.
  intros [Hlen Hobj]. split.
  - rewrite HeapFacts.alloc_length. lia.
  - intros l o0 Hl. destruct (Hobj l o0 Hl) as (o' & Ho' & Hsame & Href).
    exists o'. repeat split; auto.
    rewrite HeapFacts.alloc_old; [exact Ho' | now apply lookup_lt_Some in Ho'].
Qed.

(** So does a write to an object allocated since, and a write of a
    display property to one of the records. *)
Lemma frame_set_field (A : list loc) (h0 h : Heap) (l : loc) (k : string) (v : Value) :
  frame A h0 h ->
  length h0 <= l \/ (l ∈ A /\ k ∈ display_keys) ->
  frame A h0 (set_field l k v h).
Proof.
  intros [Hlen Hobj] Hcase. split.
  - rewrite HeapFacts.set_field_length. exact Hlen.
  - intros l0 o Hl0. destruct (Hobj l0 o Hl0) as (o' & Ho' & Hsame & Href).
    destruct (decide (l = l0)) as [->|Hne].
    + destruct Hcase as [Hfresh|[HA Hk]].
      { apply lookup_lt_Some in Hl0. lia. }
      destruct o' as [m'|xs'].
      * exists (OObject (<[k := v]> m')). repeat split.
        -- now apply HeapFacts.set_field_object.
        -- intros Hnot. now destruct Hnot.
        -- destruct o as [m|xs]; cbn in Href; [|discriminate].
           cbn. intros k' Hk'. rewrite lookup_insert_ne; [now apply Href|].
           intros ->. now apply Hk'.
      * exists (OArray xs'). repeat split; auto.
        rewrite HeapFacts.set_field_not_object; [exact Ho'|].
        intros m. congruence.
    + exists o'. repeat split; auto. now rewrite HeapFacts.set_field_other.
Qed.

Lemma display_key_colormap : "colormap" ∈ display_keys.
Proof. unfold display_keys. set_solver. Qed.
Lemma display_key_colormapLabel : "colormapLabel" ∈ display_keys.
Proof. unfold display_keys. set_solver. Qed.
Lemma display_key_opacity : "opacity" ∈ display_keys.
Proof. unfold display_keys. set_solver. Qed.
Lemma display_key_cal_max : "cal_max" ∈ display_keys.
Proof. unfold display_keys. set_solver. Qed.
Lemma display_key_cal_min : "cal_min" ∈ display_keys.
Proof. unfold display_keys. set_solver. Qed.
Lemma display_key_imageType : "imageType" ∈ display_keys.
Proof. unfold display_keys. set_solver. Qed.

Create HintDb display.
#[local] Hint Resolve display_key_colormap display_key_colormapLabel
  display_key_opacity display_key_cal_max display_key_cal_min
  display_key_imageType : display.

Section Exporting.
Context {platform : Collaborators}.

Lemma frame_refresh_base (A : list loc) (h0 h : Heap) (l : loc) (v : NVImage) :
  frame A h0 h -> length h0 <= l \/ l ∈ A -> frame A h0 (refresh_base l v h).
Proof.
  intros Hf Hl. unfold refresh_base.
  repeat apply frame_set_field; auto;
    (destruct Hl; [left; assumption | right; split; auto with display]).
Qed.

Lemma frame_refresh_overlay (A : list loc) (h0 h : Heap) (l : loc) (v : NVImage) :
  frame A h0 h -> length h0 <= l \/ l ∈ A -> frame A h0 (refresh_overlay l v h).
Proof.
  intros Hf Hl. unfold refresh_overlay.
  repeat apply frame_set_field; auto;
    (destruct Hl; [left; assumption | right; split; auto with display]).
Qed.

Lemma refresh_overlay_length (l : loc) (v : NVImage) (h : Heap) :
  length (refresh_overlay l v h) = length h.
Proof. unfold refresh_overlay. now rewrite !HeapFacts.set_field_length. Qed.

Lemma refresh_base_length (l : loc) (v : NVImage) (h : Heap) :
  length (refresh_base l v h) = length h.
Proof. unfold refresh_base. now rewrite !HeapFacts.set_field_length. Qed.

(** The record chosen for a volume of the loop is one of the
    sequence or a new object. *)
Lemma overlay_imageOptions_frame (doc : NVDocument) (volume : NVImage) (h0 h : Heap) :
  frame (imageOptionsArray (data doc)) h0 h ->
  match overlay_imageOptions doc volume h with
  | Returns l h1 =>
      frame (imageOptionsArray (data doc)) h0 h1
      /\ (length h0 <= l \/ l ∈ imageOptionsArray (data doc))
  | Throws _ h1 => h1 = h
  end.
Proof.
  intros Hf. unfold overlay_imageOptions, getImageOptions.
  destruct (imageOptionsMap doc !! id volume) as [index|].
  - destruct (imageOptionsArray (data doc) !! index) as [l|] eqn:Hidx; [|reflexivity].
    assert (Hin : l ∈ imageOptionsArray (data doc))
      by (apply list_elem_of_lookup; eauto).
    split; [|now right].
    destruct (negb (has_field h l "imageType")); [|exact Hf].
    apply frame_set_field; auto with display.
  - split.
    + now apply (frame_alloc _ _ _ (OObject default_imageOptions)).
    + left. destruct Hf. cbn. lia.
Qed.

Lemma export_overlays_frame (doc : NVDocument) (vols : list NVImage) :
  forall (i : nat) (acc : VolumeExport) (h0 h : Heap),
    frame (imageOptionsArray (data doc)) h0 h ->
    frame (imageOptionsArray (data doc)) h0
      (final_state (export_overlays doc i vols acc h)).
Proof.
  induction vols as [|volume rest IH]; intros i acc h0 h Hf; [exact Hf|].
  cbn [export_overlays]. unfold JS.bind at 1.
  pose proof (overlay_imageOptions_frame doc volume h0 h Hf) as Hstep.
  destruct (overlay_imageOptions doc volume h) as [l h1|e h1].
  - destruct Hstep as [Hf1 Hl]. unfold JS.bind, modify. apply IH.
    now apply frame_refresh_overlay.
  - cbn. now subst h1.
Qed.

Lemma export_volumes_frame (doc : NVDocument) (h0 h : Heap) :
  frame (imageOptionsArray (data doc)) h0 h ->
  frame (imageOptionsArray (data doc)) h0 (final_state (export_volumes doc h)).
Proof.
  intros Hf. unfold export_volumes.
  destruct (volumes doc) as [|base rest]; [exact Hf|].
  unfold JS.bind at 1. unfold base_imageOptions.
  assert (Hstep : forall l h1,
            frame (imageOptionsArray (data doc)) h0 h1 ->
            length h0 <= l \/ l ∈ imageOptionsArray (data doc) ->
            frame (imageOptionsArray (data doc)) h0
              (final_state
                 ((modify (refresh_base l base) >>
                   (let drawing :=
                      match drawBitmap doc with
                      | Some bitmap => Some (uint8tob64 (toUint8Array base (Some bitmap)))
                      | None => None
                      end in
                    let! acc :=
                      export_overlays doc 1 rest
                        (push_volume l base 0 (mkVolumeExport [] [] ∅)) in
                    JS.ret (acc, drawing))) h1))).
  { intros l h1 Hf1 Hl. unfold JS.bind at 1, modify.
    pose proof (export_overlays_frame doc rest 1
                  (push_volume l base 0 (mkVolumeExport [] [] ∅)) h0
                  (refresh_base l base h1)
                  (frame_refresh_base _ _ _ _ _ Hf1 Hl)) as Hov.
    unfold JS.bind.
    destruct (export_overlays doc 1 rest _ (refresh_base l base h1)); exact Hov. }
  destruct (imageOptionsArray (data doc) !! 0) as [l|] eqn:H0.
  - apply Hstep; auto. right. apply list_elem_of_lookup. eauto.
  - apply Hstep.
    + now apply (frame_alloc _ _ _ (OObject default_imageOptions)).
    + left. destruct Hf. lia.
Qed.

(** The copy of the options made by [export_opts] reads like the
    original. *)
Lemma fields_of_copy (h : Heap) (o l : loc) :
  l <> length h -> fields_of (h ++ [OObject (fields_of h o)]) l = fields_of h l.
Proof.
  intros Hne. unfold fields_of at 1 3.
  destruct (decide (l < length h)) as [Hlt|Hge].
  - now rewrite lookup_app_l.
  - rewrite lookup_app_r by lia.
    destruct (l - length h) as [|n] eqn:E; [lia|].
    cbn. rewrite (lookup_ge_None_2 h l) by lia. reflexivity.
Qed.

Lemma get_field_copy (h : Heap) (o : loc) (k : string) :
  get_field (h ++ [OObject (fields_of h o)]) o k = get_field h o k.
Proof.
  unfold get_field. destruct (decide (o = length h)) as [->|Hne].
  - unfold fields_of at 1. rewrite lookup_app_r by lia. rewrite Nat.sub_diag. cbn.
    reflexivity.
  - now rewrite fields_of_copy.
Qed.

Lemma export_opts_spec (doc : NVDocument) (h : Heap) :
  exists h1,
    export_opts doc h = Returns (length h) h1
    /\ length h1 = S (length h)
    /\ (forall l, l < length h -> h1 !! l = h !! l)
    /\ h1 !! length h
       = Some (OObject
                 (if strict_eq (get_field h (get_opts doc) "meshThicknessOn2D")
                       (VNum Infinity)
                  then <["meshThicknessOn2D" := VStr "infinity"]>
                         (fields_of h (get_opts doc))
                  else fields_of h (get_opts doc))).
Proof.
  unfold export_opts, alloc. rewrite get_field_copy.
  destruct (strict_eq _ _).
  - eexists. split; [reflexivity|]. rewrite HeapFacts.set_field_last. repeat split.
    + rewrite length_app. cbn. lia.
    + intros l Hl. now apply lookup_app_l.
    + rewrite lookup_app_r by lia. now rewrite Nat.sub_diag.
  - eexists. split; [reflexivity|]. repeat split.
    + rewrite length_app. cbn. lia.
    + intros l Hl. now apply lookup_app_l.
    + rewrite lookup_app_r by lia. now rewrite Nat.sub_diag.
Qed.

Lemma json_heap_frame (doc : NVDocument) (h : Heap) :
  frame (imageOptionsArray (data doc)) h (final_state (json_heap doc h)).
Proof.
  unfold json_heap. unfold JS.bind at 1.
  destruct (export_opts_spec doc h) as (h1 & -> & Hlen & Hold & Hnew).
  assert (Hf1 : frame (imageOptionsArray (data doc)) h h1).
  { split; [lia|]. intros l o Hl. exists o.
    rewrite Hold by (now apply lookup_lt_Some in Hl).
    repeat split; auto using refreshed_refl. }
  pose proof (export_volumes_frame doc h h1 Hf1) as Hv.
  unfold JS.bind. destruct (export_volumes doc h1); exact Hv.
Qed.

Lemma refresh_overlay_fresh (h : Heap) (v : NVImage) :
  refresh_overlay (length h) v (h ++ [OObject default_imageOptions])
  = h ++ [OObject (overlay_default v)].
Proof.
  unfold refresh_overlay, overlay_default. now rewrite !HeapFacts.set_field_last.
Qed.

Lemma refresh_base_fresh (h : Heap) (v : NVImage) :
  refresh_base (length h) v (h ++ [OObject default_imageOptions])
  = h ++ [OObject (base_default v)].
Proof.
  unfold refresh_base, base_default. now rewrite !HeapFacts.set_field_last.
Qed.

(** The loop returns when no index is stale, with one record per
    volume; the record of a volume without registry entry is a new
    object holding the default record refreshed from that volume, and
    no later step of the loop writes to it. *)
Lemma export_overlays_spec (doc : NVDocument) (vols : list NVImage) :
  forall (i : nat) (acc : VolumeExport) (h : Heap),
    Forall (fun l => l < length h) (imageOptionsArray (data doc)) ->
    forallb (in_range doc) vols = true ->
    exists acc' h' locs,
      export_overlays doc i vols acc h = Returns acc' h'
      /\ v_imageOptionsArray acc' = v_imageOptionsArray acc ++ locs
      /\ length locs = length vols
      /\ forall j v, vols !! j = Some v -> imageOptionsMap doc !! id v = None ->
           exists l, locs !! j = Some l /\ length h <= l
                     /\ h' !! l = Some (OObject (overlay_default v)).
Proof.
  induction vols as [|volume rest IH]; intros i acc h Hwf Hrange.
  { exists acc, h, []. repeat split.
    - now rewrite app_nil_r.
    - intros j v Hj. discriminate. }
  cbn [forallb] in Hrange. apply andb_prop in Hrange as [Hhead Hrest].
  cbn [export_overlays]. unfold JS.bind at 1.
  unfold overlay_imageOptions, getImageOptions. unfold in_range in Hhead.
  destruct (imageOptionsMap doc !! id volume) as [index|] eqn:Hmap.
  - apply bool_decide_eq_true in Hhead.
    destruct (lookup_lt_is_Some_2 _ _ Hhead) as [l Hl]. rewrite Hl.
    set (h1 := if negb (has_field h l "imageType")
               then set_field l "imageType" NVIMAGE_TYPE_NII h else h).
    unfold JS.bind at 1, modify.
    assert (Hlen : length (refresh_overlay l volume h1) = length h).
    { rewrite refresh_overlay_length. subst h1.
      destruct (negb _); [apply HeapFacts.set_field_length | reflexivity]. }
    destruct (IH (S i) (push_volume l volume i acc) (refresh_overlay l volume h1))
      as (acc' & h' & locs & Hrun & Harr & Hlocs & Hfresh);
      [now rewrite Hlen | exact Hrest |].
    exists acc', h', (l :: locs). repeat split.
    + exact Hrun.
    + rewrite Harr. cbn. now rewrite <- app_assoc.
    + cbn. now rewrite Hlocs.
    + intros [|j] v Hj Hnone.
      * cbn in Hj. injection Hj as <-. congruence.
      * destruct (Hfresh j v Hj Hnone) as (l' & Hl' & Hge & Hobj).
        exists l'. repeat split; auto. lia.
  - cbn [alloc]. unfold JS.bind at 1, modify.
    rewrite refresh_overlay_fresh.
    set (h2 := h ++ [OObject (overlay_default volume)]).
    assert (Hlen2 : length h2 = S (length h)).
    { subst h2. rewrite length_app. cbn. lia. }
    destruct (IH (S i) (push_volume (length h) volume i acc) h2)
      as (acc' & h' & locs & Hrun & Harr & Hlocs & Hfresh);
      [ rewrite Hlen2; eapply Forall_impl; [exact Hwf | cbn; intros; lia]
      | exact Hrest |].
    exists acc', h', (length h :: locs). repeat split.
    + exact Hrun.
    + rewrite Harr. cbn. now rewrite <- app_assoc.
    + cbn. now rewrite Hlocs.
    + intros [|j] v Hj Hnone.
      * cbn in Hj. injection Hj as <-. exists (length h). repeat split; auto.
        pose proof (export_overlays_frame doc rest (S i)
                      (push_volume (length h) volume i acc) h2 h2
                      (frame_refl _ _)) as [_ Hkeep].
        rewrite Hrun in Hkeep. cbn [final_state] in Hkeep.
        destruct (Hkeep (length h) (OObject (overlay_default volume)))
          as (o' & Ho' & Hsame & _).
        { subst h2. rewrite lookup_app_r by lia. now rewrite Nat.sub_diag. }
        rewrite Ho'. f_equal. apply Hsame.
        intros Hin. rewrite Forall_forall in Hwf. apply Hwf in Hin. lia.
      * destruct (Hfresh j v Hj Hnone) as (l' & Hl' & Hge & Hobj).
        exists l'. repeat split; auto. lia.
Qed.

(** Without volumes [json()] returns. *)
Lemma json_returns_without_volumes (h : Heap) (doc : NVDocument) :
  volumes doc = [] ->
  exists e h', json (h, doc) = Returns e (h', doc).
Proof.
  intros Hvols. unfold json, json_heap. cbn [fst snd]. unfold JS.bind at 1.
  destruct (export_opts_spec doc h) as (h1 & -> & _).
  unfold JS.bind at 1. unfold export_volumes. rewrite Hvols. cbn. eauto.
Qed.

(** C6, as the code has it.  Let the records of the sequence be
    objects of the store, and let no volume after the base one have a
    stale index.  Then [json()] returns.  For every volume at a
    position [i >= 1] without registry entry, position [i] of the
    exported array holds a new object: the default record (empty
    name, "gray", opacity 1, NaN bounds) with [colormap],
    [colormapLabel], [opacity], [cal_max] and [cal_min] then written
    from the volume.  For the base volume a default record is made
    only when the load-option sequence is empty; otherwise the first
    record of the sequence is used. *)
Theorem missing_options_are_defaulted (h : Heap) (doc : NVDocument) :
  Forall (fun l => l < length h) (imageOptionsArray (data doc)) ->
  overlay_indices_in_range doc = true ->
  exists e h',
    json (h, doc) = Returns e (h', doc)
    /\ length (x_imageOptionsArray e) = length (volumes doc)
    /\ (forall i volume,
          1 <= i -> volumes doc !! i = Some volume ->
          imageOptionsMap doc !! id volume = None ->
          exists l, x_imageOptionsArray e !! i = Some l /\ length h <= l
                    /\ h' !! l = Some (OObject (overlay_default volume)))
    /\ (forall base,
          volumes doc !! 0 = Some base ->
          match imageOptionsArray (data doc) !! 0 with
          | Some first => x_imageOptionsArray e !! 0 = Some first
          | None =>
              exists l, x_imageOptionsArray e !! 0 = Some l /\ length h <= l
                        /\ h' !! l = Some (OObject (base_default base))
          end).
Proof.
  intros Hwf Hrange. unfold json, json_heap. cbn [fst snd].
  unfold JS.bind at 1.
  destruct (export_opts_spec doc h) as (h1 & -> & Hlen1 & _ & _).
  unfold JS.bind at 1. unfold export_volumes, overlay_indices_in_range in *.
  destruct (volumes doc) as [|base rest] eqn:Hvols.
  { cbn. do 2 eexists. split; [reflexivity|]. repeat split.
    - intros i v Hi Hv. discriminate.
    - intros b Hb. discriminate. }
  cbn [tail] in Hrange. unfold JS.bind at 1. unfold base_imageOptions.
  destruct (imageOptionsArray (data doc) !! 0) as [lb|] eqn:Hfirst.
  - unfold JS.bind at 1, modify.
    destruct (export_overlays_spec doc rest 1
                (push_volume lb base 0 (mkVolumeExport [] [] ∅))
                (refresh_base lb base h1))
      as (acc' & h' & locs & Hrun & Harr & Hlocs & Hfresh);
      [ rewrite refresh_base_length, Hlen1;
        eapply Forall_impl; [exact Hwf | cbn; intros; lia]
      | exact Hrange |].
    unfold JS.bind at 1. rewrite Hrun. cbn.
    do 2 eexists. split; [reflexivity|]. cbn. rewrite Harr. cbn. repeat split.
    + now rewrite Hlocs.
    + intros [|j] volume Hi Hv Hnone; [lia|]. cbn in Hv.
      destruct (Hfresh j volume Hv Hnone) as (l & Hl & Hge & Hobj).
      exists l. repeat split; auto.
      rewrite refresh_base_length in Hge. lia.
  - cbn [alloc]. unfold JS.bind at 1, modify. rewrite refresh_base_fresh.
    set (h2 := h1 ++ [OObject (base_default base)]).
    assert (Hlen2 : length h2 = S (length h1)).
    { subst h2. rewrite length_app. cbn. lia. }
    destruct (export_overlays_spec doc rest 1
                (push_volume (length h1) base 0 (mkVolumeExport [] [] ∅)) h2)
      as (acc' & h' & locs & Hrun & Harr & Hlocs & Hfresh);
      [ rewrite Hlen2, Hlen1; eapply Forall_impl; [exact Hwf | cbn; intros; lia]
      | exact Hrange |].
    unfold JS.bind at 1. rewrite Hrun. cbn.
    do 2 eexists. split; [reflexivity|]. cbn. rewrite Harr. cbn. repeat split.
    + now rewrite Hlocs.
    + intros [|j] volume Hi Hv Hnone; [lia|]. cbn in Hv.
      destruct (Hfresh j volume Hv Hnone) as (l & Hl & Hge & Hobj).
      exists l. repeat split; auto. lia.
    + intros b Hb. injection Hb as <-. exists (length h1). repeat split; [lia|].
      pose proof (export_overlays_frame doc rest 1
                    (push_volume (length h1) base 0 (mkVolumeExport [] [] ∅)) h2 h2
                    (frame_refl _ _)) as [_ Hkeep].
      rewrite Hrun in Hkeep. cbn [final_state] in Hkeep.
      destruct (Hkeep (length h1) (OObject (base_default base)))
        as (o' & Ho' & Hsame & _).
      { subst h2. rewrite lookup_app_r by lia. now rewrite Nat.sub_diag. }
      rewrite Ho'. f_equal. apply Hsame.
      apply lookup_ge_None_1 in Hfirst.
      destruct (imageOptionsArray (data doc)); [|cbn in Hfirst; lia].
      apply not_elem_of_nil.
Qed.

End Exporting.

Section Examples.
#[local] Existing Instance Demo.platform.
Import Demo.

(** C2 fails.  The image A is registered with color map "gray" and
    is shown with "hot"; [json()] returns and has written "hot" into
    the registered record. *)
Lemma json_overwrites_registered_record :
  let st := after (addImageOptions imgA recA) start in
  let doc := with_volumes [imgA] (snd st) in
  imageOptionsArray (data doc) = [recA]
  /\ get_field (fst st) recA "colormap" = VStr "gray"
  /\ thrown (json (fst st, doc)) = None
  /\ get_field (fst (final_state (json (fst st, doc)))) recA "colormap" = VStr "hot".
Proof. repeat split; vm_compute; reflexivity. Qed.

(** C6 fails twice.  A base volume X without registry entry gets the
    first record of the sequence, here the one registered for A, and
    no default record is made.  And with the stale index that
    [removeImage A] leaves for B, [json()] throws although the
    volume C has no load options. *)
Lemma unregistered_volume_not_always_defaulted :
  (let st := after (addImageOptions imgA recA) start in
   let doc := with_volumes [imgX] (snd st) in
   imageOptionsMap doc !! id imgX = None
   /\ x_imageOptionsArray <$> returned (json (fst st, doc)) = Some [recA]
   /\ get_field (fst (final_state (json (fst st, doc)))) recA "name"
      = VStr "a.nii"
   /\ length (fst (final_state (json (fst st, doc)))) = S (length (fst st)))
  /\ (let st := after (removeImage imgA)
                  (after (addImageOptions imgB recB)
                     (after (addImageOptions imgA recA) start)) in
      let doc := with_volumes [imgX; imgB; imgC] (snd st) in
      imageOptionsMap doc !! id imgC = None
      /\ getImageOptions doc imgB = VUndefined
      /\ thrown (json (fst st, doc))
         = Some (TypeError
              "Cannot use 'in' operator to search for 'imageType' in undefined")).
Proof. repeat split; vm_compute; reflexivity. Qed.

Lemma missing_options_are_defaulted_witness :
  let st := after (addImageOptions imgA recA) start in
  let doc := with_volumes [imgA; imgC] (snd st) in
  exists e h' l,
    json (fst st, doc) = Returns e (h', doc)
    /\ x_imageOptionsArray e !! 1 = Some l
    /\ h' !! l = Some (OObject (overlay_default imgC)).
Proof.
  intros st doc.
  destruct (missing_options_are_defaulted (fst st) doc)
    as (e & h' & Hrun & _ & Hover & _).
  - apply Forall_cons. split; [vm_compute; lia | apply Forall_nil_2].
  - vm_compute. reflexivity.
  - destruct (Hover 1 imgC) as (l & Hl & _ & Hobj);
      [lia | reflexivity | vm_compute; reflexivity |].
    exists e, h', l. auto.
Defined.

End Examples.

End ExportFacts.

(* ===================================================================== *)
(** ** The options: the infinite mesh thickness, and assignment *)
(* ===================================================================== *)

Module OptionsFacts.

Import Document Props.

Lemma meshThickness_not_display : "meshThicknessOn2D" ∉ display_keys.
Proof.
  unfold display_keys. intros Hin.
  repeat (apply elem_of_cons in Hin as [Hin|Hin]; [discriminate|]).
  now apply elem_of_nil in Hin.
Qed.

Lemma get_field_object (h : Heap) (l : loc) (k : string) :
  get_field h l k <> VUndefined -> exists m, h !! l = Some (OObject m).
Proof.
  unfold get_field, fields_of. destruct (h !! l) as [[m|xs]|]; eauto;
    rewrite lookup_empty; cbn; congruence.
Qed.

Lemma finite_is_not_Infinity (x : number) :
  is_finite x = true -> strict_eq (VNum x) (VNum Infinity) = false.
Proof. destruct x as [s|s| |s m e]; try destruct s; cbn; congruence. Qed.

Section Options.
Context {platform : Collaborators}.

(** The exported options hold the token exactly when the options of
    the document hold the infinite thickness, and the value of the
    document otherwise. *)
Lemma json_exported_thickness (doc : NVDocument) (h : Heap)
  (e : ExportDocumentData) (h' : Heap) :
  json_heap doc h = Returns e h' ->
  x_opts e = length h
  /\ length h < length h'
  /\ get_field h' (x_opts e) "meshThicknessOn2D"
     = if strict_eq (get_field h (get_opts doc) "meshThicknessOn2D") (VNum Infinity)
       then VStr "infinity"
       else get_field h (get_opts doc) "meshThicknessOn2D".
Proof.
  unfold json_heap. unfold JS.bind at 1.
  destruct (ExportFacts.export_opts_spec doc h) as (h1 & -> & Hlen & _ & Hnew).
  pose proof (ExportFacts.export_volumes_frame doc h1 h1 (ExportFacts.frame_refl _ _))
    as [Hgrow Hkeep].
  unfold JS.bind at 1.
  destruct (export_volumes doc h1) as [vols hf|]; [|discriminate].
  cbn [final_state] in *. unfold JS.ret. intros [= <- <-]. cbn [x_opts].
  split; [reflexivity|]. split; [lia|].
  destruct (Hkeep _ _ Hnew) as (o' & Ho' & _ & Href).
  destruct o' as [m'|xs]; cbn in Href; [|discriminate].
  unfold get_field at 1. unfold fields_of. rewrite Ho'.
  rewrite (Href _ meshThickness_not_display).
  destruct (strict_eq _ _).
  - now rewrite lookup_insert_eq.
  - reflexivity.
Qed.

Lemma deserializeMeshDataObjects_data (document document' : NVDocument) :
  deserializeMeshDataObjects document = Returns tt document' ->
  data document' = data document.
Proof.
  unfold deserializeMeshDataObjects.
  destruct (meshesString (data document)) as [s|]; [|now intros [= <-]].
  destruct (truthy (VStr s)); [|now intros [= <-]].
  destruct (deserialize_meshes s); [discriminate|]. now intros [= <-].
Qed.

(** [loadFromJSON] returns unless the deserializer throws. *)
Lemma loadFromJSON_returns (a b : Scene.callback) (d : DocumentData) (h : Heap) :
  (forall s, meshesString d = Some s -> exists ms, deserialize_meshes s = inr ms) ->
  exists document h', loadFromJSON a b d h = Returns document h'.
Proof.
  intros Hok. unfold loadFromJSON, new_NVDocument, alloc, deserializeMeshDataObjects.
  cbn [data with_data with_scene meshesString].
  destruct (meshesString d) as [s|] eqn:Hs; [|eauto].
  destruct (truthy (VStr s)); [|eauto].
  destruct (Hok s eq_refl) as [ms ->]. eauto.
Qed.

(** The imported options hold the infinite thickness where the
    container held the token, and the value of the container
    otherwise. *)
Lemma loadFromJSON_thickness (a b : Scene.callback) (d : DocumentData)
  (h : Heap) (document : NVDocument) (h' : Heap) :
  opts d < length h ->
  loadFromJSON a b d h = Returns document h' ->
  get_opts document = opts d
  /\ get_field h' (get_opts document) "meshThicknessOn2D"
     = if strict_eq (get_field h (opts d) "meshThicknessOn2D") (VStr "infinity")
       then VNum Infinity
       else get_field h (opts d) "meshThicknessOn2D".
Proof.
  intros Hlt. unfold loadFromJSON, new_NVDocument, alloc.
  set (h0 := h ++ [OObject (fields_of h DEFAULT_OPTIONS)]).
  assert (Hsame : get_field h0 (opts d) "meshThicknessOn2D"
                  = get_field h (opts d) "meshThicknessOn2D").
  { unfold get_field, fields_of. subst h0. now rewrite lookup_app_l. }
  rewrite Hsame.
  match goal with
  | |- context [deserializeMeshDataObjects ?x] =>
      destruct (deserializeMeshDataObjects x) as [[] document'|] eqn:Hd;
        [apply deserializeMeshDataObjects_data in Hd | discriminate]
  end.
  intros [= <- <-]. unfold get_opts. rewrite Hd. cbn [data with_scene with_data].
  split; [reflexivity|].
  destruct (strict_eq (get_field h (opts d) "meshThicknessOn2D") (VStr "infinity"))
    eqn:Htok.
  - apply HeapFacts.strict_eq_token in Htok.
    destruct (get_field_object h0 (opts d) "meshThicknessOn2D") as [m Hm];
      [rewrite Hsame, Htok; discriminate|].
    now apply (HeapFacts.get_field_set_field_eq _ _ _ _ m).
  - exact Hsame.
Qed.

(** C3.  Export puts the token ["infinity"] in place of the mesh
    thickness exactly when the value held by the document equals
    positive infinity, and the value of the document otherwise;
    import puts positive infinity in place of the token, and leaves
    any other value.  Hence a document whose mesh thickness is
    infinite gets it back from its own export, and so does one whose
    mesh thickness is a finite number. *)
Theorem sentinel_round_trip
  (h : Heap) (doc : NVDocument) (e : ExportDocumentData) (h1 : Heap)
  (doc1 : NVDocument) (a b : Scene.callback) (doc2 : NVDocument) (h2 : Heap)
  (d : DocumentData) (hd hd' : Heap) (docd : NVDocument) :
  json (h, doc) = Returns e (h1, doc1) ->
  loadFromJSON a b (as_DocumentData e) h1 = Returns doc2 h2 ->
  opts d < length hd ->
  loadFromJSON a b d hd = Returns docd hd' ->
  let v := get_field h (get_opts doc) "meshThicknessOn2D" in
  let exported := get_field h1 (x_opts e) "meshThicknessOn2D" in
  let imported := get_field h2 (get_opts doc2) "meshThicknessOn2D" in
  (v = VNum Infinity -> exported = VStr "infinity")
  /\ (v <> VNum Infinity -> exported = v)
  /\ (get_field hd (opts d) "meshThicknessOn2D" = VStr "infinity" ->
      get_field hd' (get_opts docd) "meshThicknessOn2D" = VNum Infinity)
  /\ (get_field hd (opts d) "meshThicknessOn2D" <> VStr "infinity" ->
      get_field hd' (get_opts docd) "meshThicknessOn2D"
      = get_field hd (opts d) "meshThicknessOn2D")
  /\ (v = VNum Infinity -> imported = VNum Infinity)
  /\ (forall x, v = VNum x -> is_finite x = true -> imported = VNum x).
Proof.
  intros Hjson Hload Hd Hloadd v exported imported.
  unfold json in Hjson. cbn [fst snd] in Hjson.
  destruct (json_heap doc h) as [e' h1'|] eqn:Hheap; [|discriminate].
  injection Hjson as -> -> <-.
  destruct (json_exported_thickness _ _ _ _ Hheap) as (Ho & Hlen & Hexp).
  fold v in Hexp. fold exported in Hexp.
  assert (Hopts : opts (as_DocumentData e) < length h1) by (cbn; lia).
  destruct (loadFromJSON_thickness _ _ _ _ _ _ Hopts Hload) as (Hsame & Himp).
  cbn [as_DocumentData opts] in Himp, Hsame. fold exported in Himp.
  fold imported in Himp.
  destruct (loadFromJSON_thickness _ _ _ _ _ _ Hd Hloadd) as (_ & Hgen).
  assert (Hinf : v = VNum Infinity -> exported = VStr "infinity").
  { intros Hv. rewrite Hexp, Hv. reflexivity. }
  assert (Hother : v <> VNum Infinity -> exported = v).
  { intros Hv. rewrite Hexp.
    destruct (strict_eq v (VNum Infinity)) eqn:E; [|reflexivity].
    apply HeapFacts.strict_eq_Infinity in E. contradiction. }
  repeat split; auto.
  - intros Htok. rewrite Hgen, Htok. reflexivity.
  - intros Htok. rewrite Hgen.
    destruct (strict_eq (get_field hd (opts d) "meshThicknessOn2D")
                (VStr "infinity")) eqn:E; [|reflexivity].
    apply HeapFacts.strict_eq_token in E. contradiction.
  - intros Hv. rewrite Himp, (Hinf Hv). reflexivity.
  - intros x Hv Hfin. rewrite Himp, Hother.
    + rewrite Hv. reflexivity.
    + rewrite Hv. intros E. injection E as ->. discriminate.
Qed.

(** C8, as the code has it.  [doc.opts = o] stores a new object
    with the properties of [o], one level deep.  A later assignment
    to a property of [o] does not show in [doc.opts].  The values are
    the same, however, so an array-valued option is the same array in
    both, and after a write to an element through [o] the element
    read through [doc.opts] is the one read through [o]. *)
Theorem set_opts_copies_one_level (h : Heap) (doc : NVDocument) (o : loc) :
  o < length h ->
  exists h1 doc1,
    set_opts o (h, doc) = Returns tt (h1, doc1)
    /\ get_opts doc1 = length h
    /\ get_opts doc1 <> o
    /\ fields_of h1 (get_opts doc1) = fields_of h o
    /\ (forall l, l < length h -> h1 !! l = h !! l)
    /\ (forall k v,
          fields_of (set_field o k v h1) (get_opts doc1) = fields_of h o)
    /\ (forall k i v j,
          read_element (write_element o k i v h1) (get_opts doc1) k j
          = read_element (write_element o k i v h1) o k j).
Proof.
  intros Hlt. unfold set_opts, alloc. do 2 eexists. split; [reflexivity|].
  cbn [get_opts data with_data with_opts opts].
  set (h1 := h ++ [OObject (fields_of h o)]).
  assert (Hcopy : fields_of h1 (length h) = fields_of h o).
  { unfold fields_of at 1. subst h1. rewrite lookup_app_r by lia.
    now rewrite Nat.sub_diag. }
  assert (Ho : fields_of h1 o = fields_of h o).
  { unfold fields_of. subst h1. now rewrite lookup_app_l. }
  repeat split.
  - lia.
  - exact Hcopy.
  - intros l Hl. subst h1. now apply lookup_app_l.
  - intros k v. rewrite HeapFacts.fields_of_set_field_other by lia. exact Hcopy.
  - intros k i v j.
    assert (Hfields : forall l,
              fields_of (write_element o k i v h1) l = fields_of h1 l).
    { intros l. unfold write_element.
      destruct (get_field h1 o k); auto using HeapFacts.fields_of_set_index. }
    unfold read_element, get_field. now rewrite !Hfields, Hcopy, Ho.
Qed.

End Options.

Section Examples.
#[local] Existing Instance Demo.platform.
Import Demo.

Lemma sentinel_round_trip_witness :
  exists e h1 doc2 h2,
    json start = Returns e (h1, snd start)
    /\ loadFromJSON 0 1 (as_DocumentData e) h1 = Returns doc2 h2
    /\ get_field (fst start) (get_opts (snd start)) "meshThicknessOn2D"
       = VNum Infinity
    /\ get_field h1 (x_opts e) "meshThicknessOn2D" = VStr "infinity"
    /\ get_field h2 (get_opts doc2) "meshThicknessOn2D" = VNum Infinity.
Proof.
  destruct (ExportFacts.json_returns_without_volumes (fst start) (snd start))
    as (e & h1 & Hrun); [reflexivity|].
  destruct (loadFromJSON_returns 0 1 (as_DocumentData e) h1)
    as (doc2 & h2 & Hload).
  { intros s _. eexists. reflexivity. }
  destruct (loadFromJSON_returns 0 1 (data (snd start)) (fst start))
    as (docd & hd' & Hloadd).
  { intros s Hs. discriminate. }
  assert (Hopts : opts (data (snd start)) < length (fst start))
    by (vm_compute; lia).
  assert (Hv : get_field (fst start) (get_opts (snd start)) "meshThicknessOn2D"
               = VNum Infinity) by (vm_compute; reflexivity).
  destruct (sentinel_round_trip _ _ _ _ _ _ _ _ _ _ _ _ _ Hrun Hload Hopts Hloadd)
    as (Hexp & _ & _ & _ & Himp & _).
  exists e, h1, doc2, h2. repeat split; auto.
Defined.

(** A finite mesh thickness comes back as it was. *)
Lemma finite_thickness_round_trip :
  let st := after (set_opts user_options) with_user_options in
  get_field (fst st) (get_opts (snd st)) "meshThicknessOn2D" = VNum (double 2 0)
  /\ (fun r : State => get_field (fst r) (get_opts (snd r)) "meshThicknessOn2D")
        <$> export_then_import st
      = Some (VNum (double 2 0)).
Proof. split; vm_compute; reflexivity. Qed.

(** C8 fails.  After [doc.opts = o], a write to an element of the
    color array of [o] changes the color read from [doc.opts]. *)
Lemma opts_assignment_shares_arrays :
  let st := after (set_opts user_options) with_user_options in
  let stored := get_opts (snd st) in
  let h' := write_element user_options "backColor" 0 (VNum (double 1 0)) (fst st) in
  stored <> user_options
  /\ read_element (fst st) stored "backColor" 0 = VNum zero
  /\ read_element h' stored "backColor" 0 = VNum (double 1 0).
Proof.
  repeat split; try (vm_compute; reflexivity). vm_compute. lia.
Qed.

Lemma set_opts_copies_one_level_witness :
  exists h1 doc1,
    set_opts user_options with_user_options = Returns tt (h1, doc1)
    /\ get_opts doc1 = 17
    /\ fields_of h1 17 = fields_of (fst with_user_options) user_options
    /\ fields_of (set_field user_options "isColorbar" (VBool true) h1) 17
       = fields_of (fst with_user_options) user_options.
Proof.
  destruct (set_opts_copies_one_level (fst with_user_options)
              (snd with_user_options) user_options)
    as (h1 & doc1 & Hrun & Hloc & _ & Hcopy & _ & Htop & _);
    [vm_compute; lia|].
  exists h1, doc1. rewrite Hloc in Hcopy, Htop.
  change (length (fst with_user_options)) with 17 in *.
  repeat split; auto.
Defined.

End Examples.

End OptionsFacts.

(* ===================================================================== *)
(** ** Import: the legacy color-map names of mesh layers *)
(* ===================================================================== *)

Module ImportFacts.

Import Document Props.

Lemma rename_field_present (old new : string) (layer : Layer) (v : Value) :
  old <> new -> layer !! old = Some v ->
  rename_field old new layer !! new = Some v
  /\ rename_field old new layer !! old = None.
Proof.
  intros Hne Hold. unfold rename_field. rewrite Hold. split.
  - rewrite lookup_delete_ne by exact Hne. apply lookup_insert_eq.
  - apply lookup_delete_eq.
Qed.

Lemma rename_field_absent (old new : string) (layer : Layer) :
  layer !! old = None -> rename_field old new layer = layer.
Proof. intros Hold. unfold rename_field. now rewrite Hold. Qed.

Lemma rename_field_other (old new k : string) (layer : Layer) :
  k <> old -> k <> new -> rename_field old new layer !! k = layer !! k.
Proof.
  intros Hold Hnew. unfold rename_field. destruct (layer !! old); [|reflexivity].
  rewrite lookup_delete_ne by congruence. now rewrite lookup_insert_ne by congruence.
Qed.

Lemma rename_legacy_renamed (layer : Layer) : renamed layer (rename_legacy layer).
Proof.
  unfold renamed, rename_legacy. split; [|split].
  - intros v Hv. rewrite !(rename_field_other "colorMapNegative") by discriminate.
    now apply rename_field_present.
  - intros v Hv. apply rename_field_present; [discriminate|].
    now rewrite rename_field_other by discriminate.
  - intros Hpos Hneg. rewrite (rename_field_absent "colorMap") by exact Hpos.
    now apply rename_field_absent.
Qed.

Section Importing.
Context {platform : Collaborators}.

Lemma deserializeMeshDataObjects_present (document : NVDocument) (s : string)
  (objects : list (MeshBody * list Layer)) :
  meshesString (data document) = Some s ->
  s <> "" ->
  deserialize_meshes s = inr objects ->
  deserializeMeshDataObjects document
  = Returns tt
      (with_meshDataObjects
         (Some (List.map
                  (fun mesh : MeshBody * list Layer =>
                     (fst mesh, List.map rename_legacy (snd mesh)))
                  objects))
         document).
Proof.
  intros Hs Hne Hd. unfold deserializeMeshDataObjects. rewrite Hs.
  assert (Ht : truthy (VStr s) = true).
  { cbn. apply negb_true_iff. now apply String.eqb_neq. }
  now rewrite Ht, Hd.
Qed.

(** C7.  Importing a container whose mesh string is present (a
    non-empty string) and deserializes to [objects] returns a document
    whose mesh data objects are these meshes, in order, each with its
    layers in order, and every layer passed through the rename: a
    layer with [colorMap] has that value under [colormap] and no
    [colorMap]; likewise for [colorMapNegative] and
    [colormapNegative]; a layer with neither legacy name is
    unchanged. *)
Theorem legacy_colormap_rename
  (a b : Scene.callback) (d : DocumentData) (h : Heap) (s : string)
  (objects : list (MeshBody * list Layer)) :
  meshesString d = Some s ->
  s <> "" ->
  deserialize_meshes s = inr objects ->
  exists document h' out,
    loadFromJSON a b d h = Returns document h'
    /\ meshDataObjects document = Some out
    /\ length out = length objects
    /\ forall i body layers,
         objects !! i = Some (body, layers) ->
         exists layers',
           out !! i = Some (body, layers')
           /\ length layers' = length layers
           /\ forall j layer,
                layers !! j = Some layer ->
                exists layer', layers' !! j = Some layer' /\ renamed layer layer'.
Proof.
  intros Hs Hne Hd. unfold loadFromJSON, new_NVDocument, alloc.
  match goal with
  | |- context [deserializeMeshDataObjects ?x] =>
      rewrite (deserializeMeshDataObjects_present x s objects Hs Hne Hd)
  end.
  do 3 eexists. split; [reflexivity|]. cbn [meshDataObjects with_meshDataObjects].
  split; [reflexivity|]. split; [apply length_map|].
  intros i body layers Hi.
  exists (List.map rename_legacy layers). repeat split.
  - change (List.map ?f ?l) with (f <$> l). rewrite list_lookup_fmap, Hi. reflexivity.
  - apply length_map.
  - intros j layer Hj. exists (rename_legacy layer). split.
    + change (List.map ?f ?l) with (f <$> l). now rewrite list_lookup_fmap, Hj.
    + apply rename_legacy_renamed.
Qed.

End Importing.

Section Examples.
#[local] Existing Instance Demo.platform.
Import Demo.

Lemma legacy_colormap_rename_witness :
  exists document h' out layers' layer',
    loadFromJSON 0 1 as_DocumentData_of_start module_heap = Returns document h'
    /\ meshDataObjects document = Some out
    /\ out !! 0 = Some (tt, layers')
    /\ layers' !! 0 = Some layer'
    /\ layer' !! "colormap" = Some (VStr "warm")
    /\ layer' !! "colorMap" = None.
Proof.
  destruct (legacy_colormap_rename 0 1 as_DocumentData_of_start module_heap
              "[[1,[]]]"
              [(tt, [ {[ "colorMap" := VStr "warm"; "opacity" := VNum (double 1 0) ]};
                      {[ "colormap" := VStr "gray" ]} ])])
    as (document & h' & out & Hrun & Hout & Hlen & Hlayers);
    [reflexivity | discriminate | reflexivity |].
  destruct (Hlayers 0 tt _ eq_refl) as (layers' & Hmesh & Hl' & Hren).
  destruct (Hren 0 _ eq_refl) as (layer' & Hlayer & Hpos & _).
  destruct (Hpos (VStr "warm")) as [Hnew Hgone]; [vm_compute; reflexivity|].
  exists document, h', out, layers', layer'. auto 10.
Defined.

End Examples.

End ImportFacts.

(* ===================================================================== *)
(** ** Sums of node positions *)
(* ===================================================================== *)

Module NumberFacts.

Import Connectome Props.

Lemma digits2_pos_size (p : positive) : digits2_pos p = Pos.size p.
Proof. induction p as [p IH|p IH|]; cbn; now rewrite ?IH. Qed.

Lemma iter_xO_digits (k p : positive) :
  digits2_pos (Pos.iter xO p k) = (digits2_pos p + k)%positive.
Proof.
  induction k as [|k IH] using Pos.peano_ind.
  - cbn. lia.
  - rewrite Pos.iter_succ. cbn [digits2_pos]. rewrite IH. lia.
Qed.

Lemma iter_xO_inj (k p q : positive) : Pos.iter xO p k = Pos.iter xO q k -> p = q.
Proof.
  induction k as [|k IH] using Pos.peano_ind.
  - cbn. congruence.
  - rewrite !Pos.iter_succ. intros [= E]. auto.
Qed.

(** A positive integer below 2^53 has at most 53 binary digits. *)
Lemma small_digits (p : positive) :
  (Z.pos p < 2 ^ 53)%Z -> (Z.pos (digits2_pos p) <= 53)%Z.
Proof.
  intros Hp. rewrite digits2_pos_size.
  destruct (Z_le_gt_dec (Z.pos (Pos.size p)) 53) as [Hle|Hgt]; [exact Hle|].
  exfalso. pose proof (Pos.size_le p) as Hsize.
  assert (H54 : (2 ^ 54 <= 2 ^ Z.pos (Pos.size p))%Z)
    by (apply Z.pow_le_mono_r; lia).
  assert (Hpow : Z.pos (2 ^ Pos.size p) = (2 ^ Z.pos (Pos.size p))%Z)
    by (now rewrite Pos2Z.inj_pow).
  assert (Hle : (Z.pos (2 ^ Pos.size p) <= Z.pos p~0)%Z) by exact Hsize.
  rewrite Hpow in Hle. change (2 ^ 54)%Z with (2 * 2 ^ 53)%Z in H54. lia.
Qed.

(** The double of a positive integer below 2^53: the integer itself,
    shifted to 53 digits. *)
Lemma double_pos (s : bool) (p : positive) :
  (Z.pos (digits2_pos p) <= 53)%Z ->
  binary_round 53 1024 s p 0
  = S754_finite s (fst (shl_align p 0 (Z.pos (digits2_pos p) - 53)))
      (Z.pos (digits2_pos p) - 53).
Proof.
  intros Hd. unfold binary_round.
  assert (Hfexp : fexp 53 1024 (Z.pos (digits2_pos p) + 0) = (Z.pos (digits2_pos p) - 53)%Z).
  { unfold fexp, emin. lia. }
  rewrite Hfexp. unfold shl_align.
  destruct (Z.pos (digits2_pos p) - 53 - 0)%Z as [|k|k] eqn:Hk; [|lia|].
  - assert (H53 : (Z.pos (digits2_pos p) - 53 = 0)%Z) by lia.
    rewrite H53. cbn [fst]. unfold binary_round_aux, shr_fexp.
    cbn [Zdigits2 shr_record_of_loc].
    assert (Hn : (fexp 53 1024 (Z.pos (digits2_pos p) + 0) - 0 = 0)%Z)
      by (unfold fexp, emin; lia).
    rewrite Hn. cbn [shr shr_m loc_of_shr_record round_nearest_even Zdigits2
                     shr_record_of_loc].
    rewrite Hn. cbn. reflexivity.
  - cbn [fst].
    assert (He : (Z.pos (digits2_pos p) - 53 = Z.neg k)%Z) by lia.
    rewrite He. unfold binary_round_aux, shr_fexp.
    cbn [Zdigits2 shr_record_of_loc]. rewrite iter_xO_digits.
    assert (Hn : (fexp 53 1024 (Z.pos (digits2_pos p + k) + Z.neg k) - Z.neg k = 0)%Z)
      by (unfold fexp, emin; lia).
    rewrite Hn. cbn [shr shr_m loc_of_shr_record round_nearest_even Zdigits2
                     shr_record_of_loc].
    rewrite iter_xO_digits, Hn. cbn [shr shr_m].
    assert (Hle : (Z.neg k <=? 1024 - 53)%Z = true) by (apply Z.leb_le; lia).
    now rewrite Hle.
Qed.

Lemma double_pos_eqb (s : bool) (p q : positive) :
  (Z.pos (digits2_pos p) <= 53)%Z -> (Z.pos (digits2_pos q) <= 53)%Z ->
  SFeqb (binary_round 53 1024 s p 0) (binary_round 53 1024 s q 0) = (p =? q)%positive.
Proof.
  intros Hp Hq. rewrite !double_pos by assumption. unfold SFeqb, SFcompare.
  destruct (Pos.eqb_spec p q) as [->|Hne].
  - rewrite Z.compare_refl.
    assert (Hrefl : forall m, Pos.compare_cont Eq m m = Eq)
      by (intros m; apply Pos.compare_cont_refl).
    rewrite Hrefl. now destruct s.
  - assert (Hcmp :
      match (Z.pos (digits2_pos p) - 53 ?= Z.pos (digits2_pos q) - 53)%Z with
      | Eq => Pos.compare_cont Eq
                (fst (shl_align p 0 (Z.pos (digits2_pos p) - 53)))
                (fst (shl_align q 0 (Z.pos (digits2_pos q) - 53)))
      | c => c
      end <> Eq).
    { destruct (Z.compare_spec (Z.pos (digits2_pos p) - 53) (Z.pos (digits2_pos q) - 53))
        as [Heq|Hlt|Hgt]; try discriminate.
      assert (Hd : digits2_pos p = digits2_pos q) by lia.
      rewrite Hd. intros Hc. apply Pos.compare_eq in Hc. apply Hne.
      unfold shl_align in Hc.
      destruct (Z.pos (digits2_pos q) - 53 - 0)%Z as [|k|k]; cbn [fst] in Hc;
        [exact Hc | exact Hc | now apply iter_xO_inj in Hc]. }
    destruct s;
      destruct (Z.pos (digits2_pos p) - 53 ?= Z.pos (digits2_pos q) - 53)%Z;
      try reflexivity; try congruence;
      destruct (Pos.compare_cont Eq _ _); try reflexivity; congruence.
Qed.

(** On integers below 2^53 in magnitude, [===] on their doubles is
    equality. *)
Lemma double_eqb (n m : Z) :
  (Z.abs n < 2 ^ 53)%Z -> (Z.abs m < 2 ^ 53)%Z ->
  SFeqb (double n 0) (double m 0) = (n =? m)%Z.
Proof.
  intros Hn Hm. unfold double, binary_normalize.
  destruct n as [|p|p], m as [|q|q]; try reflexivity.
  - rewrite double_pos by (apply small_digits; lia). reflexivity.
  - rewrite double_pos by (apply small_digits; lia). reflexivity.
  - rewrite double_pos by (apply small_digits; lia). reflexivity.
  - apply double_pos_eqb; apply small_digits; lia.
  - rewrite !double_pos by (apply small_digits; lia). reflexivity.
  - rewrite double_pos by (apply small_digits; lia). reflexivity.
  - rewrite !double_pos by (apply small_digits; lia). reflexivity.
  - rewrite double_pos_eqb by (apply small_digits; lia). reflexivity.
Qed.

(** The sum of small positions is exact. *)
Lemma plus_eqb (x y a b : Z) :
  small x -> small y -> small a -> small b ->
  SFeqb (plus x y) (plus a b) = (x + y =? a + b)%Z.
Proof.
  unfold small, plus. intros Hx Hy Ha Hb.
  change (2 ^ 53)%Z with (2 * 2 ^ 52)%Z in *.
  apply double_eqb; change (2 ^ 53)%Z with (2 * 2 ^ 52)%Z; lia.
Qed.

End NumberFacts.

(* ===================================================================== *)
(** ** The connectome: edges and nodes *)
(* ===================================================================== *)

Module ConnectomeFacts.

Import Connectome Props MoreProps.

(** [Array.prototype.find] returns the first element that passes. *)
Lemma find_first {A : Type} (p : A -> bool) (l : list A) (a : A) :
  List.find p l = Some a ->
  exists i, l !! i = Some a /\ p a = true
            /\ forall j b, j < i -> l !! j = Some b -> p b = false.
Proof.
  induction l as [|b l IH]; [discriminate|]. cbn [List.find].
  destruct (p b) eqn:Hb.
  - intros [= <-]. exists 0. repeat split; auto. intros j c Hj. lia.
  - intros Hfind. destruct (IH Hfind) as (i & Hi & Hp & Hbefore).
    exists (S i). repeat split; auto.
    intros [|j] c Hj Hc.
    + cbn in Hc. now injection Hc as <-.
    + cbn in Hc. apply (Hbefore j); [lia | exact Hc].
Qed.

Lemma find_none_elem {A : Type} (p : A -> bool) (l : list A) :
  List.find p l = None <-> forall a, a ∈ l -> p a = false.
Proof.
  split.
  - intros Hnone a Ha. apply (find_none p l Hnone). now apply list_elem_of_In.
  - intros Hall. induction l as [|b l IH]; [reflexivity|]. cbn.
    rewrite (Hall b) by apply list_elem_of_here.
    apply IH. intros a Ha. apply Hall. now apply list_elem_of_further.
Qed.

(** The element found, from the position of the first that passes. *)
Lemma find_at {A : Type} (p : A -> bool) (l : list A) (i : nat) (a : A) :
  l !! i = Some a -> p a = true ->
  (forall j b, j < i -> l !! j = Some b -> p b = false) ->
  List.find p l = Some a.
Proof.
  intros Hi Hp Hbefore.
  destruct (List.find p l) as [a'|] eqn:Hfind.
  - destruct (find_first _ _ _ Hfind) as (i' & Hi' & Hp' & Hbefore').
    destruct (Nat.lt_trichotomy i' i) as [Hlt|[->|Hgt]].
    + rewrite (Hbefore i' a' Hlt Hi') in Hp'. discriminate.
    + congruence.
    + rewrite (Hbefore' i a Hgt Hi) in Hp. discriminate.
  - rewrite find_none_elem in Hfind. rewrite Hfind in Hp; [discriminate|].
    apply list_elem_of_lookup. eauto.
Qed.

Lemma findIndex_first (node : loc) (ns : list loc) (i : nat) :
  ns !! i = Some node ->
  (forall j, j < i -> ns !! j <> Some node) ->
  findIndex node ns = Some i.
Proof.
  revert i. induction ns as [|n ns IH]; intros i Hi Hbefore; [discriminate|].
  cbn [findIndex]. destruct i as [|i].
  - cbn in Hi. injection Hi as ->. now rewrite Nat.eqb_refl.
  - destruct (Nat.eqb n node) eqn:E.
    + apply Nat.eqb_eq in E. subst n. now destruct (Hbefore 0 ltac:(lia)).
    + rewrite (IH i); [reflexivity | exact Hi |].
      intros j Hj. apply (Hbefore (S j)). lia.
Qed.

Section Connectome.
Context {types : Types} {platform : Collaborators}.

(** For small positions the two tests say that the edge joins the two
    nodes. *)
Lemma add_matches_joins (s : Store) (a b : Z) (l : loc) (f : NVConnectomeEdge) :
  small a -> small b -> small (first f) -> small (second f) ->
  edge_at s l = Some f -> (add_matches s a b l = true <-> joins f a b).
Proof.
  intros Ha Hb H1 H2 Hf. unfold add_matches, joins. rewrite Hf.
  rewrite (NumberFacts.plus_eqb _ _ _ _ H1 H2 Ha Hb).
  rewrite andb_true_iff, orb_true_iff, !Z.eqb_eq. lia.
Qed.

Lemma delete_matches_joins (s : Store) (a b : Z) (l : loc) (f : NVConnectomeEdge) :
  small a -> small b -> small (first f) -> small (second f) ->
  edge_at s l = Some f -> (delete_matches s a b l = true <-> joins f a b).
Proof.
  intros Ha Hb H1 H2 Hf. unfold delete_matches, joins. rewrite Hf.
  rewrite (NumberFacts.plus_eqb _ _ _ _ H1 H2 Ha Hb).
  rewrite andb_true_iff, orb_true_iff, !Z.eqb_eq. lia.
Qed.

Lemma matches_is_edge (s : Store) (a b : Z) (l : loc) :
  (add_matches s a b l = true -> is_Some (edge_at s l))
  /\ (delete_matches s a b l = true -> is_Some (edge_at s l)).
Proof.
  unfold add_matches, delete_matches.
  destruct (edge_at s l); split; intros; eauto; discriminate.
Qed.

(** [updateConnectome] writes the geometry and nothing else. *)
Lemma updateConnectome_frame (st : State) :
  fst (final_state (updateConnectome st)) = fst st
  /\ nodes (snd (final_state (updateConnectome st))) = nodes (snd st)
  /\ edges (snd (final_state (updateConnectome st))) = edges (snd st).
Proof.
  destruct st as [s c]. unfold updateConnectome.
  destruct (colormaps (options c)); [cbn; auto|].
  repeat (match goal with |- context [if ?b then _ else _] => destruct b end;
          [cbn; auto|]).
  destruct (build_geometry s c); cbn; auto.
Qed.

(** It returns when the color tables are found, the four bounds are
    defined and the geometry is built. *)
Lemma updateConnectome_returns (s : Store) (c : NVConnectome) (g : Geometry) :
  colormaps (options c) = None ->
  option_undefined c "nodeMinColor" = false ->
  option_undefined c "nodeMaxColor" = false ->
  option_undefined c "edgeMin" = false ->
  option_undefined c "edgeMax" = false ->
  build_geometry s c = inr g ->
  updateConnectome (s, c) = Returns tt (s, with_geometry (Some g) c).
Proof.
  intros H0 H1 H2 H3 H4 Hg. unfold updateConnectome.
  now rewrite H0, H1, H2, H3, H4, Hg.
Qed.

(** When it throws, nothing has changed. *)
Lemma updateConnectome_throws (st : State) (e : Exception) (st' : State) :
  updateConnectome st = Throws e st' -> st' = st.
Proof.
  destruct st as [s c]. unfold updateConnectome.
  destruct (colormaps (options c)); [now intros [= _ <-]|].
  destruct (_ || _); [now intros [= _ <-]|].
  destruct (_ || _); [now intros [= _ <-]|].
  destruct (build_geometry s c); [now intros [= _ <-] | discriminate].
Qed.

(** When it returns, the color tables were found and a geometry is
    what it has written. *)
Lemma updateConnectome_returned (s : Store) (c : NVConnectome) (st1 : State) :
  updateConnectome (s, c) = Returns tt st1 ->
  colormaps (options c) = None
  /\ exists g, st1 = (s, with_geometry (Some g) c).
Proof.
  unfold updateConnectome.
  destruct (colormaps (options c)); [discriminate|].
  destruct (_ || _); [discriminate|]. destruct (_ || _); [discriminate|].
  destruct (build_geometry s c) as [err|g]; [discriminate|].
  intros [= <-]. eauto.
Qed.

Lemma relabelled_refl (n : NVConnectomeNode) : relabelled n n.
Proof. unfold relabelled. auto 10. Qed.

Lemma relabelled_trans (n1 n2 n3 : NVConnectomeNode) :
  relabelled n1 n2 -> relabelled n2 n3 -> relabelled n1 n3.
Proof. unfold relabelled. intuition congruence. Qed.

Lemma labels_only_refl (s : Store) : labels_only s s.
Proof.
  repeat split. intros l n Hn. exists n. split; [exact Hn | apply relabelled_refl].
Qed.

Lemma labels_only_trans (s1 s2 s3 : Store) :
  labels_only s1 s2 -> labels_only s2 s3 -> labels_only s1 s3.
Proof.
  intros (He12 & Hl12 & Hn12) (He23 & Hl23 & Hn23). repeat split; [congruence..|].
  intros l n Hn. destruct (Hn12 l n Hn) as (n' & Hn' & Hr).
  destruct (Hn23 l n' Hn') as (n'' & Hn'' & Hr'). exists n''. split; [exact Hn''|].
  now apply (relabelled_trans _ n').
Qed.

Lemma labels_only_set_node (s : Store) (l : loc) (n : NVConnectomeNode) (lbl : Label) :
  node_at s l = Some n -> labels_only s (set_node l (with_label lbl n) s).
Proof.
  intros Hl. unfold labels_only, set_node, node_at in *. cbn [edge_objects node_objects].
  split; [reflexivity|]. split; [apply length_insert|].
  intros l0 n0 Hn0. destruct (decide (l = l0)) as [<-|Hne].
  - exists (with_label lbl n). split.
    + apply list_lookup_insert_eq. now apply lookup_lt_Some in Hl.
    + rewrite Hl in Hn0. injection Hn0 as <-. unfold relabelled. cbn. auto 10.
  - exists n0. split; [|apply relabelled_refl].
    now rewrite list_lookup_insert_ne.
Qed.

(** The loop of [updateLabels] writes labels only, whether it comes to
    its end or throws on the way. *)
Lemma label_nodes_labels_only (c : NVConnectome) (all : list NVConnectomeNode)
  (ns : list loc) :
  forall s, labels_only s (final_state (label_nodes c all ns s)).
Proof.
  induction ns as [|l ns IH]; intros s; [apply labels_only_refl|].
  cbn [label_nodes]. destruct (node_at s l) as [n|] eqn:Hn; [|apply IH].
  destruct (node_label c all n) as [e|[lbl|]]; [apply labels_only_refl| |apply IH].
  apply (labels_only_trans _ (set_node l (with_label lbl n) s)); [|apply IH].
  now apply labels_only_set_node.
Qed.

(** So does [updateLabels], which leaves the connectome as it is. *)
Lemma updateLabels_labels_only (st : State) :
  snd (final_state (updateLabels st)) = snd st
  /\ labels_only (fst st) (fst (final_state (updateLabels st))).
Proof.
  destruct st as [s c]. unfold updateLabels. cbn [fst snd].
  destruct (nodes c) as [[|n ns]|];
    try (split; [reflexivity | apply labels_only_refl]).
  destruct (colormaps (options c)) as [e|];
    [split; [reflexivity | apply labels_only_refl]|].
  pose proof (label_nodes_labels_only c (omap (node_at s) (n :: ns)) (n :: ns) s)
    as Hloop.
  destruct (label_nodes c _ (n :: ns) s); cbn [final_state fst snd] in *;
    (split; [reflexivity | exact Hloop]).
Qed.

(** The labels, the geometry and then the event: the common end of the
    methods that change a node.  The event is dispatched only if
    neither update throws. *)
Lemma labels_geometry_event (ev : NodeEvent) (st : State) :
  let out := (updateLabels >>
              updateConnectome >>
              modify (fun st : State => (fst st, dispatchEvent ev (snd st)))) st in
  labels_only (fst st) (fst (final_state out))
  /\ nodes (snd (final_state out)) = nodes (snd st)
  /\ edges (snd (final_state out)) = edges (snd st)
  /\ nodesChanged (snd (final_state out))
     = match thrown out with
       | None => nodesChanged (snd st) ++ [ev]
       | Some _ => nodesChanged (snd st)
       end
  /\ thrown out
     = match thrown (updateLabels st) with
       | Some e => Some e
       | None => thrown (updateConnectome (final_state (updateLabels st)))
       end.
Proof.
  cbn zeta. unfold JS.bind.
  destruct (updateLabels_labels_only st) as (Hc & Hlabels).
  destruct (updateLabels st) as [[] [s' c']|e [s' c']];
    cbn [final_state fst snd thrown] in *; subst c'.
  - unfold updateConnectome, modify.
    destruct (colormaps (options (snd st)));
      [cbn; split; [exact Hlabels | auto]|].
    destruct (option_undefined (snd st) "nodeMinColor"
              || option_undefined (snd st) "nodeMaxColor");
      [cbn; split; [exact Hlabels | auto]|].
    destruct (option_undefined (snd st) "edgeMin"
              || option_undefined (snd st) "edgeMax");
      [cbn; split; [exact Hlabels | auto]|].
    destruct (build_geometry s' (snd st)); cbn; (split; [exact Hlabels | auto]).
  - split; [exact Hlabels | auto].
Qed.

Lemma node_changed_frame (updatedNode : loc) (st : State) :
  nodes (snd (final_state (node_changed updatedNode st))) = nodes (snd st)
  /\ edges (snd (final_state (node_changed updatedNode st))) = edges (snd st)
  /\ edge_objects (fst (final_state (node_changed updatedNode st)))
     = edge_objects (fst st).
Proof.
  destruct (labels_geometry_event (nodeChanged updatedNode) st)
    as ((Hedge & _) & Hn & He & _).
  repeat split; assumption.
Qed.

(** The first joining edge is the one a test finds when, on the edges
    of the list, the test says that the edge joins the two nodes. *)
Lemma find_first_joining (matches : Store -> Z -> Z -> loc -> bool)
  (s : Store) (es : list loc) (a b : Z) (i : nat) (l : loc) :
  (forall l f, l ∈ es -> edge_at s l = Some f ->
               (matches s a b l = true <-> joins f a b)) ->
  (forall l, matches s a b l = true -> is_Some (edge_at s l)) ->
  first_joining s es a b i l ->
  List.find (matches s a b) es = Some l.
Proof.
  intros Hjoins Hedge (Hi & (f & Hf & Hj) & Hbefore).
  assert (Hin : l ∈ es) by (apply list_elem_of_lookup; eauto).
  apply (find_at _ _ i); [exact Hi | now apply (Hjoins l f Hin Hf) |].
  intros j l' Hlt Hl'. destruct (matches s a b l') eqn:Hm; [|reflexivity].
  destruct (Hedge l' Hm) as [f' Hf'].
  assert (Hin' : l' ∈ es) by (apply list_elem_of_lookup; eauto).
  destruct (Hbefore j l' f' Hlt Hl' Hf'). now apply (Hjoins l' f' Hin' Hf').
Qed.

Lemma find_no_joining (matches : Store -> Z -> Z -> loc -> bool)
  (s : Store) (es : list loc) (a b : Z) :
  (forall l f, l ∈ es -> edge_at s l = Some f ->
               (matches s a b l = true <-> joins f a b)) ->
  (forall l, matches s a b l = true -> is_Some (edge_at s l)) ->
  (forall l f, l ∈ es -> edge_at s l = Some f -> ~ joins f a b) ->
  List.find (matches s a b) es = None.
Proof.
  intros Hjoins Hedge Hnone. apply find_none_elem. intros l Hl.
  destruct (matches s a b l) eqn:Hm; [|reflexivity].
  destruct (Hedge l Hm) as [f Hf].
  destruct (Hnone l f Hl Hf). now apply (Hjoins l f Hl Hf).
Qed.

Lemma filter_shorter (edge : loc) (es : list loc) :
  edge ∈ es -> length (List.filter (fun e => negb (Nat.eqb e edge)) es) < length es.
Proof.
  intros Hin. induction es as [|e es IH]; [now apply elem_of_nil in Hin|].
  cbn [List.filter]. destruct (Nat.eqb e edge) eqn:E; cbn [negb length].
  - pose proof (filter_length_le (fun e => negb (Nat.eqb e edge)) es). lia.
  - apply elem_of_cons in Hin as [->|Hin];
      [now rewrite Nat.eqb_refl in E|]. specialize (IH Hin). lia.
Qed.

(** C10, as the code has it.  Let the two nodes and the endpoints of
    the listed edges be positions below 2^52 in magnitude, so that the
    sums the test compares are exact.  When the edge list holds an edge
    that joins [a] and [b], in either orientation, [addConnectomeEdge]
    returns the first such edge of the list and changes nothing: no
    edge is added and the color value stored is kept.  When it holds
    none, a new edge object [{a, b, colorValue}] is put at the end of
    the list, and then the geometry is rebuilt: the new edge is
    returned if [updateConnectome] returns, and what [updateConnectome]
    throws is thrown otherwise, with the edge left in the list. *)
Theorem addConnectomeEdge_reuses_or_appends
  (s : Store) (c : NVConnectome) (es : list loc) (a b : Z) (colorValue' : number) :
  edges c = Some es ->
  small a -> small b -> small_edges s es ->
  let out := addConnectomeEdge a b colorValue' (s, c) in
  (forall i l, first_joining s es a b i l -> out = Returns l (s, c))
  /\ ((forall l f, l ∈ es -> edge_at s l = Some f -> ~ joins f a b) ->
      let edge := length (edge_objects s) in
      let st1 := (mkStore (node_objects s)
                    (edge_objects s ++ [mkEdge a b colorValue']),
                  with_edges (Some (es ++ [edge])) c) in
      fst (final_state out) = fst st1
      /\ edge_at (fst (final_state out)) edge = Some (mkEdge a b colorValue')
      /\ edges (snd (final_state out)) = Some (es ++ [edge])
      /\ nodes (snd (final_state out)) = nodes c
      /\ returned out = (fun _ => edge) <$> returned (updateConnectome st1)
      /\ thrown out = thrown (updateConnectome st1)).
Proof.
  intros Hes Ha Hb Hsmall out.
  assert (Hjoins : forall l f, l ∈ es -> edge_at s l = Some f ->
                     (add_matches s a b l = true <-> joins f a b)).
  { intros l f Hl Hf. destruct (Hsmall l f Hl Hf) as [H1 H2].
    now apply add_matches_joins. }
  assert (Hedge : forall l, add_matches s a b l = true -> is_Some (edge_at s l))
    by (intros l; apply matches_is_edge).
  split.
  - intros i l Hfirst.
    pose proof (find_first_joining add_matches s es a b i l Hjoins Hedge Hfirst)
      as Hfind.
    subst out. unfold addConnectomeEdge. now rewrite Hes, Hfind.
  - intros Hno edge st1.
    pose proof (find_no_joining add_matches s es a b Hjoins Hedge Hno) as Hnone.
    assert (Hout : out = match updateConnectome st1 with
                         | Returns _ st2 => Returns edge st2
                         | Throws e st2 => Throws e st2
                         end).
    { subst out. unfold addConnectomeEdge. rewrite Hes, Hnone. reflexivity. }
    destruct (updateConnectome_frame st1) as (Hstore & Hnodes & Hedges).
    rewrite Hout.
    assert (Hnew : edge_at (fst st1) edge = Some (mkEdge a b colorValue')).
    { unfold edge_at. cbn. rewrite lookup_app_r by (subst edge; lia).
      subst edge. now rewrite Nat.sub_diag. }
    destruct (updateConnectome st1) as [[] st2|e st2];
      cbn [final_state returned thrown fmap option_fmap option_map] in *;
      rewrite Hstore, Hnodes, Hedges; repeat split; auto.
Qed.

(** C9, as the code has it.  Let the two nodes and the endpoints of
    the listed edges be positions below 2^52 in magnitude.
    [deleteConnectomeEdge] throws its not-found error, and changes
    nothing, when no edge of the list joins [a] and [b]; that is the
    only way for it to end with the edge list as it was, since
    otherwise every occurrence of the first joining edge of the list is
    taken out of the list before the geometry is rebuilt, and that edge
    is returned if [updateConnectome] returns while what
    [updateConnectome] throws is thrown otherwise.
    [updateConnectomeNodeByPoint] throws, and changes nothing, when
    the node array is undefined or holds no node whose coordinates the
    array comparison equates with [point]; otherwise the first such
    node is replaced in the array by [updatedNode], whatever the label
    and geometry updates that follow do. *)
Theorem lookup_failures_throw (s : Store) (c : NVConnectome) :
  (forall es a b,
      edges c = Some es ->
      small a -> small b -> small_edges s es ->
      let out := deleteConnectomeEdge a b (s, c) in
      ((forall l f, l ∈ es -> edge_at s l = Some f -> ~ joins f a b) ->
       out = Throws (Error ("edge between " ++ integer_to_string a ++ " and "
                            ++ integer_to_string b ++ " not found")) (s, c))
      /\ (forall i edge,
            first_joining s es a b i edge ->
            let remaining := List.filter (fun e => negb (Nat.eqb e edge)) es in
            let st1 := (s, with_edges (Some remaining) c) in
            (edge ∉ remaining)
            /\ length remaining < length es
            /\ fst (final_state out) = s
            /\ edges (snd (final_state out)) = Some remaining
            /\ nodes (snd (final_state out)) = nodes c
            /\ returned out = (fun _ => edge) <$> returned (updateConnectome st1)
            /\ thrown out = thrown (updateConnectome st1)))
  /\ (forall point updatedNode,
        let out := updateConnectomeNodeByPoint point updatedNode (s, c) in
        (nodes c = None ->
         out = Throws (Error "Node to update does not exist") (s, c))
        /\ (forall ns,
              nodes c = Some ns ->
              ((forall l n, l ∈ ns -> node_at s l = Some n ->
                            arraysAreEqual [x n; y n; z n] point = false) ->
               out = Throws (Error ("Node with point " ++ numbers_to_string point
                                    ++ " to update does not exist")) (s, c))
              /\ (forall index l n,
                    ns !! index = Some l -> node_at s l = Some n ->
                    arraysAreEqual [x n; y n; z n] point = true ->
                    (forall j l', j < index -> ns !! j = Some l' ->
                                  node_is_at s point l' = false) ->
                    nodes (snd (final_state out))
                    = Some (<[index := updatedNode]> ns)
                    /\ edges (snd (final_state out)) = edges c
                    /\ edge_objects (fst (final_state out)) = edge_objects s))).
Proof.
  split.
  - intros es a b Hes Ha Hb Hsmall out.
    assert (Hjoins : forall l f, l ∈ es -> edge_at s l = Some f ->
                       (delete_matches s a b l = true <-> joins f a b)).
    { intros l f Hl Hf. destruct (Hsmall l f Hl Hf) as [H1 H2].
      now apply delete_matches_joins. }
    assert (Hedge : forall l, delete_matches s a b l = true -> is_Some (edge_at s l))
      by (intros l; apply matches_is_edge).
    split.
    + intros Hno. subst out. unfold deleteConnectomeEdge.
      now rewrite Hes, (find_no_joining delete_matches s es a b Hjoins Hedge Hno).
    + intros i edge Hfirst remaining st1.
      pose proof (find_first_joining delete_matches s es a b i edge Hjoins Hedge
                    Hfirst) as Hfind.
      assert (Hin : edge ∈ es).
      { destruct Hfirst as (Hi & _). apply list_elem_of_lookup. eauto. }
      assert (Hout : out = match updateConnectome st1 with
                           | Returns _ st2 => Returns edge st2
                           | Throws e st2 => Throws e st2
                           end).
      { subst out. unfold deleteConnectomeEdge. rewrite Hes, Hfind. reflexivity. }
      destruct (updateConnectome_frame st1) as (Hstore & Hnodes & Hedges).
      rewrite Hout. split; [|split].
      * intros Hmem. apply list_elem_of_In, filter_In in Hmem as [_ Hmem].
        now rewrite Nat.eqb_refl in Hmem.
      * now apply filter_shorter.
      * destruct (updateConnectome st1) as [[] st2|e st2];
          cbn [final_state returned thrown fmap option_fmap option_map] in *;
          rewrite Hstore, Hnodes, Hedges; repeat split; auto.
  - intros point updatedNode out. split.
    + intros Hnone. subst out. unfold updateConnectomeNodeByPoint. now rewrite Hnone.
    + intros ns Hns. split.
      * intros Hno. subst out. unfold updateConnectomeNodeByPoint. rewrite Hns.
        assert (Hfind : List.find (node_is_at s point) ns = None).
        { apply find_none_elem. intros l Hl. unfold node_is_at.
          destruct (node_at s l) as [n|] eqn:Hn; [|reflexivity]. eauto. }
        now rewrite Hfind.
      * intros index l n Hidx Hn Heq Hfirst.
        assert (Hat : node_is_at s point l = true).
        { unfold node_is_at. now rewrite Hn. }
        assert (Hfind : List.find (node_is_at s point) ns = Some l)
          by (apply (find_at _ _ index); auto).
        assert (Hindex : findIndex l ns = Some index).
        { apply findIndex_first; [exact Hidx|].
          intros j Hj Hjl. rewrite (Hfirst j l Hj Hjl) in Hat. discriminate. }
        assert (Hout : out = node_changed updatedNode
                               (s, with_nodes (Some (<[index := updatedNode]> ns)) c)).
        { subst out. unfold updateConnectomeNodeByPoint. rewrite Hns, Hfind, Hindex.
          unfold updateConnectomeNodeByIndex, JS.bind at 1. unfold modify.
          cbn [fst snd]. now rewrite Hns. }
        rewrite Hout.
        destruct (node_changed_frame updatedNode
                    (s, with_nodes (Some (<[index := updatedNode]> ns)) c))
          as (H1 & H2 & H3).
        rewrite H1, H2, H3. repeat split; reflexivity.
Qed.

End Connectome.

Section Examples.
#[local] Existing Instance DemoConnectome.types.
#[local] Existing Instance DemoConnectome.platform.
Import DemoConnectome.

(** The sum of two positions as [plus] has it is the sum that the
    addition of binary64 gives on their doubles, also where it rounds
    or overflows. *)
Lemma plus_is_the_sum_of_doubles :
  forallb (fun xy : Z * Z =>
             let s := SFadd 53 1024 (double (fst xy) 0) (double (snd xy) 0) in
             SFeqb s (plus (fst xy) (snd xy))
             && SFeqb (plus (fst xy) (snd xy)) s)
    [ (0, 1); (1, 2); (-1, 1); (-3, -4); (2 ^ 52, 2 ^ 52); (2 ^ 53, 0);
      (2 ^ 53, 1); (1, 2 ^ 53); (2 ^ 53, 2); (2 ^ 53, 3); (2 ^ 53 + 2, 1);
      (2 ^ 53 + 2, 3); (- 2 ^ 53, -1); (2 ^ 60, 2 ^ 7); (2 ^ 60, 2 ^ 8);
      (2 ^ 1023, 2 ^ 1023); (2 ^ 1023, - 2 ^ 1023); (- 2 ^ 1023, - 2 ^ 1023);
      (123456789, 987654321); (2 ^ 100, 1) ]%Z
  = true.
Proof. vm_compute. reflexivity. Qed.

(** Past 2^53 the test compares rounded sums.  The only edge of the
    list goes from 2^53 to 0; it does not join 2^53 and 1, and
    [addConnectomeEdge] returns it for them and adds no edge, and
    [deleteConnectomeEdge] takes it out of the list for them. *)
Lemma rounded_sums_match_other_edges :
  edge_at big_store 0 = Some (mkEdge (2 ^ 53) 0 (double 3 0))
  /\ ~ joins (mkEdge (2 ^ 53) 0 (double 3 0)) (2 ^ 53) 1
  /\ addConnectomeEdge (2 ^ 53) 1 (double 9 0) (big_store, configured)
     = Returns 0 (big_store, configured)
  /\ returned (deleteConnectomeEdge (2 ^ 53) 1 (big_store, configured)) = Some 0
  /\ edges (snd (final_state (deleteConnectomeEdge (2 ^ 53) 1 (big_store, configured))))
     = Some [].
Proof.
  split; [reflexivity|]. split.
  - intros [[_ E]|[E _]]; discriminate.
  - repeat split; vm_compute; reflexivity.
Qed.

(** C10 fails in its second half.  No edge joins the nodes 1 and 2 and
    [nodeMinColor] is undefined: the new edge is put in the list, and
    the call throws instead of returning it. *)
Lemma new_edge_is_not_always_returned :
  let out := addConnectomeEdge 1 2 (double 3 0) (store, unconfigured) in
  edges unconfigured = Some [0]
  /\ edge_at store 0 = Some (mkEdge 0 1 (double 3 0))
  /\ ~ joins (mkEdge 0 1 (double 3 0)) 1 2
  /\ thrown out = Some (Error "nodeMinColor or nodeMaxColor is undefined")
  /\ returned out = None
  /\ edges (snd (final_state out)) = Some [0; 1]
  /\ edge_at (fst (final_state out)) 1 = Some (mkEdge 1 2 (double 3 0)).
Proof.
  repeat split; try (vm_compute; reflexivity).
  intros [[E _]|[E _]]; discriminate.
Qed.

(** C9 fails in its "exactly when".  The edge at 0 joins the nodes 1
    and 0, and [deleteConnectomeEdge] throws all the same: the edge is
    taken out of the list and [updateConnectome] then finds
    [nodeMinColor] undefined. *)
Lemma delete_throws_with_a_joining_edge :
  let out := deleteConnectomeEdge 1 0 (store, unconfigured) in
  edges unconfigured = Some [0]
  /\ edge_at store 0 = Some (mkEdge 0 1 (double 3 0))
  /\ joins (mkEdge 0 1 (double 3 0)) 1 0
  /\ thrown out = Some (Error "nodeMinColor or nodeMaxColor is undefined")
  /\ returned out = None
  /\ edges (snd (final_state out)) = Some [].
Proof.
  repeat split; try (vm_compute; reflexivity). right. split; reflexivity.
Qed.

Lemma small_store : small_edges store [0].
Proof.
  intros l f Hl Hf. apply list_elem_of_singleton in Hl. subst l.
  injection Hf as <-. split; reflexivity.
Qed.

Lemma addConnectomeEdge_reuses_or_appends_witness :
  edges configured = Some [0]
  /\ addConnectomeEdge 1 0 (double 9 0) (store, configured)
     = Returns 0 (store, configured).
Proof.
  split; [reflexivity|].
  destruct (addConnectomeEdge_reuses_or_appends store configured [0] 1 0
              (double 9 0) eq_refl eq_refl eq_refl small_store) as [Hreuse _].
  apply (Hreuse 0 0). split; [reflexivity|]. split.
  - exists (mkEdge 0 1 (double 3 0)). split; [reflexivity|].
    right. split; reflexivity.
  - intros j l' f' Hj. lia.
Defined.

Lemma lookup_failures_throw_witness :
  deleteConnectomeEdge 5 6 (store, configured)
  = Throws (Error "edge between 5 and 6 not found") (store, configured)
  /\ updateConnectomeNodeByPoint [double 7 0; zero; zero] 2 (store, configured)
     = Throws (Error "Node with point 7,0,0 to update does not exist")
         (store, configured).
Proof.
  destruct (lookup_failures_throw store configured) as [Hedges Hnodes]. split.
  - destruct (Hedges [0] 5%Z 6%Z eq_refl eq_refl eq_refl small_store) as [Hnone _].
    apply Hnone.
    intros l f Hl Hf. apply list_elem_of_singleton in Hl. subst l.
    injection Hf as <-. intros [[E _]|[E _]]; discriminate.
  - destruct (Hnodes [double 7 0; zero; zero] 2) as [_ Hns].
    destruct (Hns [0; 1] eq_refl) as [Hnone _]. apply Hnone.
    intros l n Hl Hn.
    apply elem_of_cons in Hl as [->|Hl];
      [|apply list_elem_of_singleton in Hl; subst l];
      injection Hn as <-; reflexivity.
Defined.

End Examples.

End ConnectomeFacts.

(* ===================================================================== *)
(** ** Display names derived from a URL *)
(* ===================================================================== *)

Module NamingFacts.

Import Str MoreProps.

Lemma append_nil (b : string) : (EmptyString ++ b)%string = b.
Proof. reflexivity. Qed.

Lemma append_cons (c : ascii) (a b : string) :
  (String c a ++ b)%string = String c (a ++ b).
Proof. reflexivity. Qed.

Lemma length_append (a b : string) :
  String.length (a ++ b)%string = String.length a + String.length b.
Proof.
  induction a as [|c a IH]; simpl; [reflexivity | now f_equal].
Qed.

Lemma substring_all (s : string) : substring 0 (String.length s) s = s.
Proof.
  induction s as [|c s IH]; simpl; [reflexivity | now f_equal].
Qed.

(** Reading past a prefix. *)
Lemma substring_append_shift (p s : string) (i m : nat) :
  substring (String.length p + i) m (p ++ s)%string = substring i m s.
Proof.
  induction p as [|c p IH]; simpl; [reflexivity | exact IH].
Qed.

Lemma substring_split (s : string) (k : nat) :
  k <= String.length s ->
  s = (substring 0 k s ++ substring k (String.length s - k) s)%string.
Proof.
  revert k. induction s as [|c s IH]; intros k Hk.
  - destruct k; reflexivity.
  - destruct k as [|k].
    + simpl. now rewrite append_nil, substring_all.
    + cbn in Hk. simpl. rewrite append_cons. f_equal. apply IH. lia.
Qed.

Lemma endsWith_append (p suffix : string) : endsWith (p ++ suffix) suffix = true.
Proof.
  unfold endsWith. rewrite length_append.
  replace (String.length p + String.length suffix - String.length suffix)
    with (String.length p + 0) by lia.
  rewrite substring_append_shift, substring_all, String.eqb_refl.
  rewrite andb_true_r. apply Nat.leb_le. lia.
Qed.

Lemma endsWith_split (s suffix : string) :
  endsWith s suffix = true ->
  s = (drop_last (String.length suffix) s ++ suffix)%string.
Proof.
  unfold endsWith, drop_last. intros H. apply andb_prop in H as [Hle Heq].
  apply Nat.leb_le in Hle. apply String.eqb_eq in Heq.
  rewrite (substring_split s (String.length s - String.length suffix)) at 1 by lia.
  f_equal. rewrite <- Heq at 3. f_equal. lia.
Qed.

Lemma toLowerCase_append (a b : string) :
  toLowerCase (a ++ b) = (toLowerCase a ++ toLowerCase b)%string.
Proof.
  induction a as [|c a IH]; [reflexivity|].
  rewrite append_cons. simpl. now rewrite IH.
Qed.

(** A string that ends in [.nii] does not end in [.gz]. *)
Lemma nii_is_not_gz (t : string) :
  endsWith t ".nii" = true -> endsWith t ".gz" = false.
Proof.
  intros H. rewrite (endsWith_split _ _ H). set (p := drop_last _ t).
  unfold endsWith. rewrite length_append. cbn [String.length].
  replace (String.length p + 4 - 3) with (String.length p + 1) by lia.
  rewrite substring_append_shift. cbn. apply andb_false_r.
Qed.

(** The derived name ends in [.nii], whatever the case of its letters. *)
Lemma nii_name_ends (segment : string) :
  endsWith (toLowerCase (nii_name segment)) ".nii" = true.
Proof.
  unfold nii_name.
  set (name := if endsWith (toLowerCase segment) ".gz"
               then drop_last 3 segment else segment).
  destruct (endsWith (toLowerCase name) ".nii") eqn:E; cbn [negb].
  - exact E.
  - rewrite toLowerCase_append. apply endsWith_append.
Qed.

Lemma nii_name_fixed (s : string) :
  endsWith (toLowerCase s) ".nii" = true -> nii_name s = s.
Proof.
  intros H. unfold nii_name. rewrite (nii_is_not_gz _ H). now rewrite H.
Qed.

(** X1.  The display name derived from a path segment always ends in
    [.nii], whatever the case of its letters; a segment that ends in
    [.nii] already is its own display name; and deriving a name twice
    gives what deriving it once gives. *)
Theorem nii_name_normal_form (segment : string) :
  endsWith (toLowerCase (nii_name segment)) ".nii" = true
  /\ (endsWith (toLowerCase segment) ".nii" = true -> nii_name segment = segment)
  /\ nii_name (nii_name segment) = nii_name segment.
Proof.
  split; [apply nii_name_ends|]. split; [apply nii_name_fixed|].
  apply nii_name_fixed, nii_name_ends.
Qed.

Lemma split_slash_not_nil (s : string) : split_slash s <> [].
Proof.
  destruct s as [|c s]; cbn; [discriminate|].
  destruct (Ascii.eqb c "/"); [discriminate|].
  destruct (split_slash s); discriminate.
Qed.

Lemma split_slash_no_slash (s : string) :
  occurs "/" s = false -> split_slash s = [s].
Proof.
  induction s as [|c s IH]; cbn; [reflexivity|].
  intros H. apply orb_false_elim in H as [Hc Hs].
  rewrite Hc, (IH Hs). reflexivity.
Qed.

Lemma split_slash_append (a b : string) :
  split_slash (a ++ String "/" b) = split_slash a ++ split_slash b.
Proof.
  induction a as [|c a IH]; [reflexivity|].
  rewrite append_cons. cbn [split_slash]. rewrite IH.
  destruct (Ascii.eqb c "/"); [reflexivity|].
  pose proof (split_slash_not_nil a).
  destruct (split_slash a) as [|x xs]; [contradiction | reflexivity].
Qed.

(** X2.  The last segment of a path is what follows its last slash. *)
Theorem last_segment_after_slash (dir segment : string) :
  occurs "/" segment = false ->
  pop (split_slash (dir ++ String "/" segment)) = segment.
Proof.
  intros H. rewrite split_slash_append, (split_slash_no_slash _ H).
  unfold pop. apply last_last.
Qed.

Lemma last_segment_after_slash_witness :
  pop (split_slash "/data/sub-01/T1w.nii.gz") = "T1w.nii.gz"
  /\ nii_name "T1w.nii.gz" = "T1w.nii".
Proof.
  split; [|reflexivity].
  exact (last_segment_after_slash "/data/sub-01" "T1w.nii.gz" eq_refl).
Defined.

End NamingFacts.

(* ===================================================================== *)
(** ** Outcomes *)
(* ===================================================================== *)

Module OutcomeFacts.

(** A run that does not throw returns, in its final state. *)
Lemma returns_final {S1 S2 : Type} (o : Outcome (S1 * S2) unit) :
  thrown o = None -> o = Returns tt (fst (final_state o), snd (final_state o)).
Proof. destruct o as [[] [s1 s2]|e s]; [reflexivity | discriminate]. Qed.

Lemma returns_value {S A : Type} (o : Outcome S A) (a : A) :
  returned o = Some a -> o = Returns a (final_state o).
Proof. destruct o; cbn; congruence. Qed.

Lemma Returns_inj {S A : Type} (a a' : A) (s s' : S) :
  Returns a s = Returns a' s' -> a = a' /\ s = s'.
Proof. intros E. injection E. auto. Qed.

End OutcomeFacts.

(* ===================================================================== *)
(** ** The scene accessors, in sequence and without observers *)
(* ===================================================================== *)

Module SceneMore.

Import Scene.

(** X3.  Setting the azimuth and then the elevation notifies the
    observer twice: first with the new azimuth and the elevation still
    in place, then with the new pair.  The getters then read the new
    pair, and no other field of the scene data has changed. *)
Theorem azimuth_then_elevation
  (sc : Scene) (log : list Call) (f : callback) (a e : number) :
  onAzimuthElevationChange sc = Some f ->
  exists sc',
    (set_renderAzimuth a >> set_renderElevation e) (sc, log)
    = Returns tt (sc', log ++ [CallAzimuthElevationChange f a (elevation (sceneData sc));
                               CallAzimuthElevationChange f a e])
    /\ get_renderAzimuth sc' = a
    /\ get_renderElevation sc' = e
    /\ sceneData sc' = with_elevation e (with_azimuth a (sceneData sc))
    /\ onAzimuthElevationChange sc' = Some f
    /\ onZoom3DChange sc' = onZoom3DChange sc.
Proof.
  intros Hf. eexists. split.
  - unfold JS.bind, set_renderAzimuth, set_renderElevation, JS.bind, write_sceneData,
      notify_azimuthElevation. cbn. rewrite Hf. cbn. rewrite Hf.
    rewrite <- app_assoc. reflexivity.
  - cbn. auto.
Qed.

Lemma azimuth_then_elevation_witness :
  exists sc',
    (set_renderAzimuth (double 45 0) >> set_renderElevation (double 30 0))
      (new_scene 7 8, [])
    = Returns tt (sc', [CallAzimuthElevationChange 7 (double 45 0) (double 10 0);
                        CallAzimuthElevationChange 7 (double 45 0) (double 30 0)])
    /\ get_renderElevation sc' = double 30 0.
Proof.
  destruct (azimuth_then_elevation (new_scene 7 8) [] 7 (double 45 0) (double 30 0)
              eq_refl) as (sc' & Hrun & _ & He & _).
  exists sc'. split; [exact Hrun | exact He].
Defined.

(** X4.  The two kinds of setter treat an empty observer slot
    differently: the orientation setters write and return without a
    call, while the volume-scale setter throws a TypeError, and has
    written the new scale by then. *)
Theorem setters_without_observers (sc : Scene) (log : list Call) (v : number) :
  onAzimuthElevationChange sc = None ->
  onZoom3DChange sc = None ->
  set_renderAzimuth v (sc, log)
  = Returns tt (update_sceneData (with_azimuth v) sc, log)
  /\ set_renderElevation v (sc, log)
     = Returns tt (update_sceneData (with_elevation v) sc, log)
  /\ set_volScaleMultiplier v (sc, log)
     = Throws (TypeError "this.onZoom3DChange is not a function")
         (update_sceneData (with_volScaleMultiplier v) sc, log)
  /\ get_volScaleMultiplier
       (fst (final_state (set_volScaleMultiplier v (sc, log)))) = v.
Proof.
  intros Ha Hz.
  unfold set_renderAzimuth, set_renderElevation, set_volScaleMultiplier, JS.bind,
    write_sceneData, notify_azimuthElevation. cbn. rewrite Ha, Hz. cbn. auto.
Qed.

Lemma setters_without_observers_witness :
  let sc := mkScene None None INITIAL_SCENE_DATA in
  set_renderAzimuth (double 3 0) (sc, [])
  = Returns tt (update_sceneData (with_azimuth (double 3 0)) sc, [])
  /\ thrown (set_volScaleMultiplier (double 3 0) (sc, []))
     = Some (TypeError "this.onZoom3DChange is not a function").
Proof.
  intros sc.
  destruct (setters_without_observers sc [] (double 3 0) eq_refl eq_refl)
    as (Ha & _ & Hz & _).
  split; [exact Ha | now rewrite Hz].
Defined.

End SceneMore.

(* ===================================================================== *)
(** ** The registry: adding and removing in sequence *)
(* ===================================================================== *)

Module RegistryMore.

Import Document Props MoreProps.

Lemma find_is_Some {A : Type} (p : A -> bool) (l : list A) :
  is_Some (List.find p l) <-> exists a, a ∈ l /\ p a = true.
Proof.
  split.
  - intros [a Ha]. apply find_some in Ha as [Hin Hp].
    exists a. split; [now apply list_elem_of_In | exact Hp].
  - intros (a & Hin & Hp). destruct (List.find p l) eqn:E; [eauto|].
    apply list_elem_of_In in Hin. now rewrite (find_none p l E a Hin) in Hp.
Qed.

Section Registry.
Context {platform : Collaborators}.

(** The document and the store after [addImageOptions] has returned. *)
Lemma addImageOptions_returned
  (h : Heap) (doc : NVDocument) (image : NVImage) (imageOptions : loc)
  (h1 : Heap) (doc1 : NVDocument) :
  addImageOptions image imageOptions (h, doc) = Returns tt (h1, doc1) ->
  doc1 = with_imageOptionsMap
           (<[id image := length (imageOptionsArray (data doc))]> (imageOptionsMap doc))
           (with_data
              (with_imageOptionsArray
                 (imageOptionsArray (data doc) ++ [imageOptions]) (data doc)) doc)
  /\ exists h0,
       h1 = set_field imageOptions "imageType" NVIMAGE_TYPE_NII h0
       /\ ((h0 = h
            /\ (hasImage doc image = true
                \/ truthy (get_field h imageOptions "name") = true))
           \/ (hasImage doc image = false
               /\ truthy (get_field h imageOptions "name") = false
               /\ exists name,
                    h0 = set_field imageOptions "name" (VStr name) h
                    /\ Str.endsWith (Str.toLowerCase name) ".nii" = true)).
Proof.
  unfold addImageOptions.
  assert (Hlen : length (imageOptionsArray (data doc) ++ [imageOptions]) - 1
                 = length (imageOptionsArray (data doc))).
  { rewrite length_app. cbn. lia. }
  rewrite Hlen.
  destruct (hasImage doc image) eqn:Hhas; cbn [negb].
  { intros [= <- <-]. split; [reflexivity|]. exists h. auto. }
  destruct (truthy (get_field h imageOptions "name")) eqn:Hname; cbn [negb].
  { intros [= <- <-]. split; [reflexivity|]. exists h. auto. }
  unfold name_imageOptions.
  destruct (truthy (get_field h imageOptions "url")).
  - destruct (url_pathname (get_field h imageOptions "url")) as [pathname|];
      [|discriminate].
    intros [= <- <-]. split; [reflexivity|]. eexists. split; [reflexivity|].
    right. repeat split. eexists. split; [reflexivity|].
    apply NamingFacts.nii_name_ends.
  - intros [= <- <-]. split; [reflexivity|]. eexists. split; [reflexivity|].
    right. repeat split. eexists. split; reflexivity.
Qed.

(** X5.  For an image that is not yet among the live volumes,
    [addImageOptions] leaves the record, if it is an object, with a
    non-empty name and with the NII type marker: a name it had is kept,
    and a name it lacked is made to end in [.nii]. *)
Theorem addImageOptions_names_the_record
  (h : Heap) (doc : NVDocument) (image : NVImage) (imageOptions : loc)
  (m : gmap string Value) (h1 : Heap) (doc1 : NVDocument) :
  hasImage doc image = false ->
  h !! imageOptions = Some (OObject m) ->
  addImageOptions image imageOptions (h, doc) = Returns tt (h1, doc1) ->
  truthy (get_field h1 imageOptions "name") = true
  /\ get_field h1 imageOptions "imageType" = NVIMAGE_TYPE_NII
  /\ (truthy (get_field h imageOptions "name") = true ->
      get_field h1 imageOptions "name" = get_field h imageOptions "name")
  /\ (truthy (get_field h imageOptions "name") = false ->
      exists name, get_field h1 imageOptions "name" = VStr name
                   /\ Str.endsWith (Str.toLowerCase name) ".nii" = true).
Proof.
  intros Hhas Hobj Hrun.
  destruct (addImageOptions_returned _ _ _ _ _ _ Hrun) as (_ & h0 & -> & Hh0).
  assert (Hname : get_field (set_field imageOptions "imageType" NVIMAGE_TYPE_NII h0)
                    imageOptions "name" = get_field h0 imageOptions "name").
  { apply HeapFacts.get_field_set_field_key. discriminate. }
  rewrite Hname.
  destruct Hh0 as [(-> & [Hyes|Hyes])|(_ & Hfalsy & name & -> & Hends)].
  - congruence.
  - repeat split; auto.
    + apply (HeapFacts.get_field_set_field_eq _ _ _ _ _ Hobj).
    + congruence.
  - rewrite (HeapFacts.get_field_set_field_eq _ _ _ _ _ Hobj).
    pose proof (HeapFacts.set_field_object imageOptions "name" (VStr name) h m Hobj)
      as Hobj'.
    repeat split.
    + cbn. destruct name; [discriminate | reflexivity].
    + apply (HeapFacts.get_field_set_field_eq _ _ _ _ _ Hobj').
    + congruence.
    + intros _. eauto.
Qed.

(** X6.  Registering an image that the registry does not know and then
    removing it gives back the load-option sequence and the registry as
    they were; of the live volumes, those with the identifier of the
    image are dropped. *)
Theorem add_then_remove
  (h : Heap) (doc : NVDocument) (image : NVImage) (imageOptions : loc)
  (h1 : Heap) (doc1 : NVDocument) :
  imageOptionsMap doc !! id image = None ->
  addImageOptions image imageOptions (h, doc) = Returns tt (h1, doc1) ->
  exists doc2,
    removeImage image (h1, doc1) = Returns tt (h1, doc2)
    /\ imageOptionsArray (data doc2) = imageOptionsArray (data doc)
    /\ imageOptionsMap doc2 = imageOptionsMap doc
    /\ volumes doc2
       = List.filter (fun i => negb (String.eqb (id i) (id image))) (volumes doc).
Proof.
  intros Hnew Hrun.
  destruct (addImageOptions_returned _ _ _ _ _ _ Hrun) as (-> & _).
  eexists. split.
  { unfold removeImage. cbn [imageOptionsMap with_imageOptionsMap].
    rewrite lookup_insert_eq. cbn [data with_data with_imageOptionsArray
      imageOptionsArray]. reflexivity. }
  cbn. repeat split.
  - rewrite decide_True by (rewrite length_app; cbn; lia).
    rewrite (delete_middle _ [] imageOptions). apply app_nil_r.
  - now apply delete_insert_id.
Qed.

Lemma hasImage_spec (doc : NVDocument) (image : NVImage) :
  hasImage doc image = true <-> exists v, v ∈ volumes doc /\ id v = id image.
Proof.
  unfold hasImage. rewrite bool_decide_eq_true, find_is_Some.
  split; intros (v & Hin & Hv); exists v; split; auto.
  - now apply String.eqb_eq.
  - now apply String.eqb_eq.
Qed.

(** X7.  After [removeImage] the document does not know the image any
    more: it is not among the live volumes and [getImageOptions] answers
    [null].  Volumes with another identifier stay, in their order; and
    when the image had no registry entry, the load-option sequence and
    the registry are as before. *)
Theorem removeImage_forgets (h : Heap) (doc : NVDocument) (image : NVImage) :
  exists doc',
    removeImage image (h, doc) = Returns tt (h, doc')
    /\ hasImage doc' image = false
    /\ getImageOptions doc' image = VNull
    /\ volumes doc'
       = List.filter (fun i => negb (String.eqb (id i) (id image))) (volumes doc)
    /\ (forall other, id other <> id image ->
                      hasImage doc' other = hasImage doc other)
    /\ (imageOptionsMap doc !! id image = None ->
        imageOptionsArray (data doc') = imageOptionsArray (data doc)
        /\ imageOptionsMap doc' = imageOptionsMap doc).
Proof.
  eexists. split; [reflexivity|].
  set (doc1 := match imageOptionsMap doc !! id image with
               | Some index => _ | None => doc end).
  assert (Hvols : volumes doc1 = volumes doc).
  { subst doc1. destruct (imageOptionsMap doc !! id image); reflexivity. }
  assert (Hmap : imageOptionsMap doc1 !! id image = None).
  { subst doc1. destruct (imageOptionsMap doc !! id image) eqn:E; [|exact E].
    cbn. apply lookup_delete_eq. }
  cbn [volumes with_volumes]. rewrite Hvols. repeat split.
  - apply not_true_is_false. rewrite hasImage_spec. cbn [volumes with_volumes].
    intros (v & Hin & Hv). apply list_elem_of_In, filter_In in Hin as [_ Hin].
    rewrite Hv, String.eqb_refl in Hin. discriminate.
  - unfold getImageOptions. cbn [imageOptionsMap with_volumes]. now rewrite Hmap.
  - intros other Hother. apply eq_true_iff_eq. rewrite !hasImage_spec.
    cbn [volumes with_volumes].
    split; intros (v & Hin & Hv); exists v; (split; [|exact Hv]).
    + apply list_elem_of_In, filter_In in Hin as [Hin _]. now apply list_elem_of_In.
    + apply list_elem_of_In, filter_In. split; [now apply list_elem_of_In|].
      apply negb_true_iff, String.eqb_neq. congruence.
  - subst doc1. rewrite H. reflexivity.
  - subst doc1. rewrite H. reflexivity.
Qed.

(** X8.  [addImageOptions] keeps every index of the registry inside
    the load-option sequence; so does [removeImage] when every other
    registered index is below that of the image removed, and when the
    image is not registered. *)
Theorem registry_stays_in_range
  (h : Heap) (doc : NVDocument) (image : NVImage) (imageOptions : loc) :
  registry_in_range doc ->
  (forall h1 doc1,
      addImageOptions image imageOptions (h, doc) = Returns tt (h1, doc1) ->
      registry_in_range doc1)
  /\ ((forall index k other,
          imageOptionsMap doc !! id image = Some index ->
          k <> id image -> imageOptionsMap doc !! k = Some other -> other < index) ->
      registry_in_range (snd (final_state (removeImage image (h, doc))))).
Proof.
  intros Hin. split.
  - intros h1 doc1 Hrun.
    destruct (addImageOptions_returned _ _ _ _ _ _ Hrun) as (-> & _).
    intros k index. cbn. rewrite length_app. cbn.
    destruct (decide (k = id image)) as [->|Hk].
    + rewrite lookup_insert_eq. intros [= <-]. lia.
    + rewrite lookup_insert_ne by congruence. intros Hk'. specialize (Hin k index Hk'). lia.
  - intros Hlast. unfold removeImage. cbn [final_state snd].
    destruct (imageOptionsMap doc !! id image) as [index|] eqn:Himg.
    + intros k other. cbn. intros Hk.
      destruct (decide (k = id image)) as [->|Hne];
        [now rewrite lookup_delete_eq in Hk|].
      rewrite lookup_delete_ne in Hk by congruence.
      pose proof (Hlast index k other eq_refl Hne Hk).
      pose proof (Hin _ _ Himg).
      rewrite decide_True by lia. rewrite length_delete by (apply lookup_lt_is_Some; lia).
      lia.
    + intros k other Hk. cbn in *. eauto.
Qed.

(** X9.  Once [addImageOptions] has returned for a record object with
    the URL [u], [hasImageFromUrl u] holds. *)
Theorem added_url_is_found
  (h : Heap) (doc : NVDocument) (image : NVImage) (imageOptions : loc)
  (m : gmap string Value) (u : string) (h1 : Heap) (doc1 : NVDocument) :
  h !! imageOptions = Some (OObject m) ->
  m !! "url" = Some (VStr u) ->
  addImageOptions image imageOptions (h, doc) = Returns tt (h1, doc1) ->
  hasImageFromUrl h1 doc1 u = true.
Proof.
  intros Hobj Hurl Hrun.
  destruct (addImageOptions_returned _ _ _ _ _ _ Hrun) as (-> & h0 & -> & Hh0).
  unfold hasImageFromUrl. apply bool_decide_eq_true, find_is_Some.
  exists imageOptions. split.
  - cbn. apply elem_of_app. right. apply list_elem_of_here.
  - apply HeapFacts.strict_eq_token.
    rewrite HeapFacts.get_field_set_field_key by discriminate.
    destruct Hh0 as [(-> & _)|(_ & _ & name & -> & _)].
    + unfold get_field, fields_of. now rewrite Hobj, Hurl.
    + rewrite HeapFacts.get_field_set_field_key by discriminate.
      unfold get_field, fields_of. now rewrite Hobj, Hurl.
Qed.

End Registry.

Section Examples.
#[local] Existing Instance Demo.platform.
Import Demo MoreDemo.

Lemma addImageOptions_names_the_record_witness :
  let st := after (addImageOptions imgA unnamed_record) unnamed in
  get_field (fst unnamed) unnamed_record "name" = VUndefined
  /\ truthy (get_field (fst st) unnamed_record "name") = true
  /\ get_field (fst st) unnamed_record "imageType" = NVIMAGE_TYPE_NII.
Proof.
  intros st. split; [vm_compute; reflexivity|].
  destruct (addImageOptions_names_the_record (fst unnamed) (snd unnamed) imgA
              unnamed_record (fields_of (fst unnamed) unnamed_record)
              (fst st) (snd st)) as (Hname & Htype & _).
  - vm_compute. reflexivity.
  - vm_compute. reflexivity.
  - apply OutcomeFacts.returns_final. vm_compute. reflexivity.
  - split; [exact Hname | exact Htype].
Defined.

Lemma add_then_remove_witness :
  let st := after (addImageOptions imgA recA) start in
  exists doc2,
    removeImage imgA st = Returns tt (fst st, doc2)
    /\ imageOptionsArray (data doc2) = []
    /\ imageOptionsMap doc2 = imageOptionsMap (snd start).
Proof.
  intros st.
  destruct (add_then_remove (fst start) (snd start) imgA recA (fst st) (snd st))
    as (doc2 & Hrun & Harr & Hmap & _).
  - vm_compute. reflexivity.
  - apply OutcomeFacts.returns_final. vm_compute. reflexivity.
  - exists doc2. split; [exact Hrun|]. split; [|exact Hmap].
    rewrite Harr. vm_compute. reflexivity.
Defined.

Lemma registry_stays_in_range_witness :
  registry_in_range (snd (after (addImageOptions imgA recA) start)).
Proof.
  assert (Hempty : registry_in_range (snd start)).
  { intros k index Hk. vm_compute in Hk. discriminate. }
  destruct (registry_stays_in_range (fst start) (snd start) imgA recA Hempty)
    as [Hadd _].
  apply (Hadd (fst (after (addImageOptions imgA recA) start))).
  apply OutcomeFacts.returns_final. vm_compute. reflexivity.
Defined.

Lemma added_url_is_found_witness :
  let st := after (addImageOptions imgA unnamed_record) unnamed in
  hasImageFromUrl (fst unnamed) (snd unnamed) "/data/sub-01/T1w.nii.gz" = false
  /\ hasImageFromUrl (fst st) (snd st) "/data/sub-01/T1w.nii.gz" = true.
Proof.
  intros st. split; [vm_compute; reflexivity|].
  apply (added_url_is_found (fst unnamed) (snd unnamed) imgA unnamed_record
           (fields_of (fst unnamed) unnamed_record)).
  - vm_compute. reflexivity.
  - vm_compute. reflexivity.
  - apply OutcomeFacts.returns_final. vm_compute. reflexivity.
Defined.

End Examples.

End RegistryMore.

(* ===================================================================== *)
(** ** Export: when it throws, and what the container holds *)
(* ===================================================================== *)

Module ExportMore.

Import Document Props MoreProps.

Lemma is_object_set_field (l l' : loc) (k : string) (v : Value) (h : Heap) :
  is_object h l -> is_object (set_field l' k v h) l.
Proof.
  intros [m Hm]. destruct (decide (l' = l)) as [->|Hne].
  - eexists. apply (HeapFacts.set_field_object _ _ _ _ _ Hm).
  - exists m. now rewrite HeapFacts.set_field_other.
Qed.

Lemma is_object_alloc (o : Obj) (h : Heap) (l : loc) :
  is_object h l -> is_object (snd (alloc o h)) l.
Proof.
  intros [m Hm]. exists m. rewrite HeapFacts.alloc_old; [exact Hm|].
  now apply lookup_lt_Some in Hm.
Qed.

Lemma is_object_new (m : gmap string Value) (h : Heap) :
  is_object (h ++ [OObject m]) (length h).
Proof. exists m. rewrite lookup_app_r by lia. now rewrite Nat.sub_diag. Qed.

Lemma get_field_set_field_same (l : loc) (k : string) (v : Value) (h : Heap) :
  is_object h l -> get_field (set_field l k v h) l k = v.
Proof. intros [m Hm]. apply (HeapFacts.get_field_set_field_eq _ _ _ _ _ Hm). Qed.

Ltac read_back :=
  repeat (rewrite HeapFacts.get_field_set_field_key by discriminate);
  first [ apply get_field_set_field_same; repeat apply is_object_set_field; assumption
        | reflexivity ].

Section Exporting.
Context {platform : Collaborators}.

Lemma json_keeps_document
  (h : Heap) (doc : NVDocument) (e : ExportDocumentData) (h' : Heap)
  (doc' : NVDocument) :
  json (h, doc) = Returns e (h', doc') -> doc' = doc.
Proof.
  unfold json. cbn [fst snd]. destruct (json_heap doc h); [|discriminate].
  intros E. apply OutcomeFacts.Returns_inj in E as [_ E].
  now apply (f_equal snd) in E.
Qed.

Lemma refresh_overlay_shows (l : loc) (v : NVImage) (h : Heap) :
  is_object h l ->
  shows (refresh_overlay l v h) l v
  /\ get_field (refresh_overlay l v h) l "colormapLabel" = colormapLabel v.
Proof.
  intros Hobj. unfold shows, refresh_overlay. repeat split; read_back.
Qed.

Lemma refresh_base_shows (l : loc) (v : NVImage) (h : Heap) :
  is_object h l ->
  shows (refresh_base l v h) l v
  /\ get_field (refresh_base l v h) l "colormapLabel" = get_field h l "colormapLabel".
Proof.
  intros Hobj. unfold shows, refresh_base. repeat split; read_back.
Qed.

Lemma is_object_refresh_overlay (l l' : loc) (v : NVImage) (h : Heap) :
  is_object h l -> is_object (refresh_overlay l' v h) l.
Proof. intros Hobj. unfold refresh_overlay. now repeat apply is_object_set_field. Qed.

Lemma is_object_refresh_base (l l' : loc) (v : NVImage) (h : Heap) :
  is_object h l -> is_object (refresh_base l' v h) l.
Proof. intros Hobj. unfold refresh_base. now repeat apply is_object_set_field. Qed.

(** The record chosen for a volume of the loop is an object, and the
    records of the sequence stay objects. *)
Lemma overlay_imageOptions_object (doc : NVDocument) (volume : NVImage)
  (h : Heap) (l : loc) (h1 : Heap) :
  Forall (is_object h) (imageOptionsArray (data doc)) ->
  overlay_imageOptions doc volume h = Returns l h1 ->
  is_object h1 l /\ Forall (is_object h1) (imageOptionsArray (data doc)).
Proof.
  intros Hobjs. unfold overlay_imageOptions, getImageOptions.
  destruct (imageOptionsMap doc !! id volume) as [index|].
  - destruct (imageOptionsArray (data doc) !! index) as [l0|] eqn:Hidx; [|discriminate].
    intros [= <- <-].
    assert (Hin : l0 ∈ imageOptionsArray (data doc))
      by (apply list_elem_of_lookup; eauto).
    rewrite Forall_forall in Hobjs.
    destruct (negb (has_field h l0 "imageType")).
    + split; [apply is_object_set_field; auto|].
      apply Forall_forall. intros x Hx. apply is_object_set_field. auto.
    + split; [auto|]. now apply Forall_forall.
  - cbn [alloc]. intros [= <- <-]. split; [apply is_object_new|].
    eapply Forall_impl; [exact Hobjs|]. intros x Hx.
    apply (is_object_alloc (OObject default_imageOptions) h x Hx).
Qed.

Lemma export_overlays_thrown (doc : NVDocument) (vols : list NVImage) :
  forall (i : nat) (acc : VolumeExport) (h : Heap),
    thrown (export_overlays doc i vols acc h)
    = if forallb (in_range doc) vols then None
      else Some (TypeError
             "Cannot use 'in' operator to search for 'imageType' in undefined").
Proof.
  induction vols as [|v rest IH]; intros i acc h; [reflexivity|].
  cbn [export_overlays forallb]. unfold JS.bind at 1.
  unfold overlay_imageOptions, getImageOptions, in_range at 1.
  destruct (imageOptionsMap doc !! id v) as [index|].
  - destruct (imageOptionsArray (data doc) !! index) as [l|] eqn:Hl.
    + rewrite bool_decide_eq_true_2 by (now apply lookup_lt_Some in Hl). cbn [andb].
      unfold JS.bind at 1, modify. apply IH.
    + rewrite bool_decide_eq_false_2 by (apply lookup_ge_None_1 in Hl; lia).
      reflexivity.
  - cbn [alloc andb]. unfold JS.bind at 1, modify. apply IH.
Qed.

(** X10.  With encoders and a mesh serializer that return, [json()]
    throws exactly when a volume after the first has a registry index
    that lies outside the load-option sequence, and what it throws then
    is the TypeError of the [in] test on [undefined]. *)
Theorem json_throws_on_stale_index_only (h : Heap) (doc : NVDocument) :
  thrown (json (h, doc))
  = if overlay_indices_in_range doc then None
    else Some (TypeError
           "Cannot use 'in' operator to search for 'imageType' in undefined").
Proof.
  unfold json, json_heap. cbn [fst snd]. unfold JS.bind at 1.
  destruct (ExportFacts.export_opts_spec doc h) as (h1 & -> & _).
  unfold JS.bind at 1. unfold export_volumes, overlay_indices_in_range.
  destruct (volumes doc) as [|base rest]; [reflexivity|].
  cbn [tail]. unfold JS.bind at 1.
  assert (Hbase : exists l h2, base_imageOptions doc h1 = Returns l h2).
  { unfold base_imageOptions. destruct (imageOptionsArray (data doc) !! 0); cbn; eauto. }
  destruct Hbase as (l & h2 & ->). unfold JS.bind at 1, modify.
  pose proof (export_overlays_thrown doc rest 1
                (push_volume l base 0 (mkVolumeExport [] [] ∅))
                (refresh_base l base h2)) as Hloop.
  unfold JS.bind at 1.
  destruct (export_overlays doc 1 rest _ (refresh_base l base h2)); exact Hloop.
Qed.

Lemma export_overlays_acc (doc : NVDocument) (vols : list NVImage) :
  forall (i : nat) (acc : VolumeExport) (h : Heap) (acc' : VolumeExport) (h' : Heap),
    export_overlays doc i vols acc h = Returns acc' h' ->
    v_encodedImageBlobs acc' = v_encodedImageBlobs acc ++ List.map blob vols
    /\ v_imageOptionsMap acc' = positions_from i vols (v_imageOptionsMap acc)
    /\ length (v_imageOptionsArray acc')
       = length (v_imageOptionsArray acc) + length vols.
Proof.
  induction vols as [|v rest IH]; intros i acc h acc' h'.
  { intros [= <- <-]. cbn. rewrite app_nil_r. auto. }
  cbn [export_overlays]. unfold JS.bind at 1.
  destruct (overlay_imageOptions doc v h) as [l h1|e h1]; [|discriminate].
  unfold JS.bind at 1, modify. intros Hrun.
  destruct (IH _ _ _ _ _ Hrun) as (Hblobs & Hmap & Hlen).
  rewrite Hblobs, Hmap, Hlen. cbn. rewrite length_app, <- app_assoc. cbn.
  repeat split. lia.
Qed.

Lemma positions_from_absent (vols : list NVImage) :
  forall (i : nat) (m : gmap string nat) (k : string),
    (forall v, v ∈ vols -> id v <> k) -> positions_from i vols m !! k = m !! k.
Proof.
  induction vols as [|v rest IH]; intros i m k Hk; [reflexivity|].
  cbn [positions_from]. rewrite IH.
  - apply lookup_insert_ne. apply Hk. apply list_elem_of_here.
  - intros w Hw. apply Hk. now apply list_elem_of_further.
Qed.

Lemma positions_from_last (vols : list NVImage) :
  forall (i : nat) (m : gmap string nat) (j : nat) (v : NVImage),
    vols !! j = Some v ->
    (forall j' w, j < j' -> vols !! j' = Some w -> id w <> id v) ->
    positions_from i vols m !! id v = Some (i + j).
Proof.
  induction vols as [|v0 rest IH]; intros i m j v Hj Hlast; [discriminate|].
  cbn [positions_from]. destruct j as [|j].
  - injection Hj as ->. rewrite positions_from_absent.
    + rewrite lookup_insert_eq. f_equal. lia.
    + intros w Hw. apply list_elem_of_lookup in Hw as [j' Hj'].
      apply (Hlast (S j') w); [lia | exact Hj'].
  - rewrite (IH (S i) _ j v Hj).
    + f_equal. lia.
    + intros j' w Hlt Hw. apply (Hlast (S j') w); [lia | exact Hw].
Qed.

Lemma positions_from_Some (vols : list NVImage) :
  forall (i : nat) (m : gmap string nat) (k : string) (n : nat),
    positions_from i vols m !! k = Some n ->
    m !! k = Some n \/ exists v, i <= n /\ vols !! (n - i) = Some v /\ id v = k.
Proof.
  induction vols as [|v0 rest IH]; intros i m k n Hn; [now left|].
  cbn [positions_from] in Hn. destruct (IH _ _ _ _ Hn) as [Hm|(v & Hle & Hv & Hid)].
  - destruct (decide (id v0 = k)) as [<-|Hne].
    + rewrite lookup_insert_eq in Hm. injection Hm as <-. right. exists v0.
      rewrite Nat.sub_diag. auto.
    + rewrite lookup_insert_ne in Hm by exact Hne. now left.
  - right. exists v. repeat split; [lia| |exact Hid].
    replace (n - i) with (S (n - S i)) by lia. exact Hv.
Qed.

(** X11.  In the container that [json()] returns, the blobs are those
    of the live volumes in their order, there is one record per volume,
    and the identifier map is built anew from the positions of the
    volumes: an identifier is mapped to the last position at which a
    volume carries it, and to nothing else, whatever the registry of the
    document holds.  The drawing is encoded only when there is a base
    volume and a drawing bitmap. *)
Theorem json_rebuilds_registry
  (h : Heap) (doc : NVDocument) (e : ExportDocumentData) (st' : State) :
  json (h, doc) = Returns e st' ->
  x_encodedImageBlobs e = List.map blob (volumes doc)
  /\ length (x_imageOptionsArray e) = length (volumes doc)
  /\ (forall i v,
        volumes doc !! i = Some v ->
        (forall j w, i < j -> volumes doc !! j = Some w -> id w <> id v) ->
        x_imageOptionsMap e !! id v = Some i)
  /\ (forall k i,
        x_imageOptionsMap e !! k = Some i ->
        exists v, volumes doc !! i = Some v /\ id v = k)
  /\ x_encodedDrawingBlob e
     = match volumes doc, drawBitmap doc with
       | base :: _, Some bitmap => Some (uint8tob64 (toUint8Array base (Some bitmap)))
       | _, _ => None
       end.
Proof.
  unfold json, json_heap. cbn [fst snd]. unfold JS.bind at 1.
  destruct (ExportFacts.export_opts_spec doc h) as (h1 & -> & _).
  unfold JS.bind at 1.
  destruct (export_volumes doc h1) as [[acc drawing] h2|err h2] eqn:Hvols;
    [|discriminate].
  intros [= <- _]. cbn [x_encodedImageBlobs x_imageOptionsArray x_imageOptionsMap
                         x_encodedDrawingBlob fst snd].
  assert (Hacc : v_encodedImageBlobs acc = List.map blob (volumes doc)
                 /\ v_imageOptionsMap acc = positions_from 0 (volumes doc) ∅
                 /\ length (v_imageOptionsArray acc) = length (volumes doc)
                 /\ drawing
                    = match volumes doc, drawBitmap doc with
                      | base :: _, Some bitmap =>
                          Some (uint8tob64 (toUint8Array base (Some bitmap)))
                      | _, _ => None
                      end).
  { unfold export_volumes in Hvols.
    destruct (volumes doc) as [|base rest].
    { injection Hvols as <- <- _. cbn. auto. }
    unfold JS.bind at 1 in Hvols.
    destruct (base_imageOptions doc h1) as [l h3|err h3]; [|discriminate].
    unfold JS.bind at 1, modify in Hvols. unfold JS.bind at 1 in Hvols.
    destruct (export_overlays doc 1 rest _ (refresh_base l base h3))
      as [acc' h4|err h4] eqn:Hloop; [|discriminate].
    injection Hvols as <- <- _.
    destruct (export_overlays_acc _ _ _ _ _ _ _ Hloop) as (Hblobs & Hmap & Hlen).
    rewrite Hblobs, Hmap, Hlen. cbn. auto. }
  destruct Hacc as (Hblobs & Hmap & Hlen & Hdraw).
  rewrite Hblobs, Hmap, Hlen, Hdraw. repeat split.
  - intros i v Hi Hlast. apply (positions_from_last _ 0 ∅ i v Hi Hlast).
  - intros k i Hk. apply positions_from_Some in Hk as [Hk|(v & _ & Hv & Hid)].
    + rewrite lookup_empty in Hk. discriminate.
    + exists v. rewrite Nat.sub_0_r in Hv. auto.
Qed.

Lemma json_rebuilds_registry_parts
  (h : Heap) (doc : NVDocument) (e : ExportDocumentData) (st' : State) :
  json (h, doc) = Returns e st' ->
  x_encodedImageBlobs e = List.map blob (volumes doc)
  /\ length (x_imageOptionsArray e) = length (volumes doc).
Proof.
  unfold json, json_heap. cbn [fst snd]. unfold JS.bind at 1.
  destruct (ExportFacts.export_opts_spec doc h) as (h1 & -> & _).
  unfold JS.bind at 1.
  destruct (export_volumes doc h1) as [[acc drawing] h2|err h2] eqn:Hvols;
    [|discriminate].
  unfold JS.ret. intros E. apply OutcomeFacts.Returns_inj in E as [<- _].
  cbn [x_encodedImageBlobs x_imageOptionsArray fst].
  unfold export_volumes in Hvols.
  destruct (volumes doc) as [|base rest].
  { unfold JS.ret in Hvols. apply OutcomeFacts.Returns_inj in Hvols as [Hacc _].
    apply (f_equal fst) in Hacc. cbn [fst] in Hacc. subst acc. auto. }
  unfold JS.bind at 1 in Hvols.
  destruct (base_imageOptions doc h1) as [l h3|err h3]; [|discriminate].
  unfold JS.bind at 1, modify in Hvols. unfold JS.bind at 1 in Hvols.
  destruct (export_overlays doc 1 rest _ (refresh_base l base h3))
    as [acc' h4|err h4] eqn:Hloop; [|discriminate].
  unfold JS.ret in Hvols. apply OutcomeFacts.Returns_inj in Hvols as [Hacc _].
  apply (f_equal fst) in Hacc. cbn [fst] in Hacc. subst acc.
  destruct (export_overlays_acc _ _ _ _ _ _ _ Hloop) as (Hblobs & _ & Hlen).
  rewrite Hblobs, Hlen. cbn. auto.
Qed.

Lemma export_overlays_last (doc : NVDocument) (front : list NVImage) (v : NVImage) :
  forall (i : nat) (acc : VolumeExport) (h : Heap) (acc' : VolumeExport) (h' : Heap),
    Forall (is_object h) (imageOptionsArray (data doc)) ->
    export_overlays doc i (front ++ [v]) acc h = Returns acc' h' ->
    exists l,
      v_imageOptionsArray acc' !! (length (v_imageOptionsArray acc) + length front)
      = Some l
      /\ shows h' l v
      /\ get_field h' l "colormapLabel" = colormapLabel v.
Proof.
  induction front as [|v0 rest IH]; intros i acc h acc' h' Hobjs.
  - cbn [app export_overlays]. unfold JS.bind at 1.
    destruct (overlay_imageOptions doc v h) as [l h1|e h1] eqn:Hsel; [|discriminate].
    destruct (overlay_imageOptions_object _ _ _ _ _ Hobjs Hsel) as [Hl _].
    unfold JS.bind at 1, modify. intros [= <- <-]. exists l. split.
    + cbn. rewrite Nat.add_0_r. rewrite lookup_app_r by lia.
      now rewrite Nat.sub_diag.
    + now apply refresh_overlay_shows.
  - cbn [app export_overlays]. unfold JS.bind at 1.
    destruct (overlay_imageOptions doc v0 h) as [l h1|e h1] eqn:Hsel; [|discriminate].
    destruct (overlay_imageOptions_object _ _ _ _ _ Hobjs Hsel) as [_ Hobjs1].
    unfold JS.bind at 1, modify. intros Hrun.
    destruct (IH (S i) (push_volume l v0 i acc) (refresh_overlay l v0 h1) acc' h')
      as (l' & Hl' & Hshows); [|exact Hrun|].
    + eapply Forall_impl; [exact Hobjs1|]. intros x Hx.
      now apply is_object_refresh_overlay.
    + exists l'. split; [|exact Hshows].
      rewrite <- Hl'. f_equal. cbn. rewrite length_app. cbn. lia.
Qed.

(** X12.  When [json()] returns and the records of the load-option
    sequence are objects, the record exported for the last volume holds
    the display settings of that volume: its color map, its opacity and
    its two intensity bounds, a bound that is falsy being replaced by
    NaN.  The label color map is copied too, except for the base
    volume, whose record keeps the one it had. *)
Theorem json_exports_live_settings
  (h : Heap) (doc : NVDocument) (e : ExportDocumentData) (h' : Heap)
  (doc' : NVDocument) (front : list NVImage) (v : NVImage) :
  Forall (is_object h) (imageOptionsArray (data doc)) ->
  volumes doc = front ++ [v] ->
  json (h, doc) = Returns e (h', doc') ->
  exists l,
    x_imageOptionsArray e !! length front = Some l
    /\ shows h' l v
    /\ (front <> [] -> get_field h' l "colormapLabel" = colormapLabel v)
    /\ (front = [] -> l < length h ->
        get_field h' l "colormapLabel" = get_field h l "colormapLabel").
Proof.
  intros Hobjs Hvols. unfold json, json_heap. cbn [fst snd]. unfold JS.bind at 1.
  destruct (ExportFacts.export_opts_spec doc h) as (h1 & -> & Hlen1 & Hold & _).
  assert (Hobjs1 : Forall (is_object h1) (imageOptionsArray (data doc))).
  { eapply Forall_impl; [exact Hobjs|]. intros x [m Hm]. exists m.
    rewrite Hold; [exact Hm | now apply lookup_lt_Some in Hm]. }
  unfold JS.bind at 1.
  destruct (export_volumes doc h1) as [[acc drawing] h2|err h2] eqn:Hexp;
    [|discriminate].
  intros [= <- <- _]. cbn [x_imageOptionsArray fst].
  unfold export_volumes in Hexp. rewrite Hvols in Hexp.
  destruct front as [|base rest].
  - cbn [app] in Hexp. unfold JS.bind at 1 in Hexp. unfold base_imageOptions in Hexp.
    destruct (imageOptionsArray (data doc) !! 0) as [l|] eqn:Hfirst.
    + unfold JS.bind at 1, modify in Hexp. cbn [export_overlays] in Hexp.
      unfold JS.bind, JS.ret in Hexp.
      apply OutcomeFacts.Returns_inj in Hexp as [Hacc <-].
      apply (f_equal fst) in Hacc. cbn [fst] in Hacc. subst acc. exists l.
      assert (Hl : is_object h1 l).
      { rewrite Forall_forall in Hobjs1. apply Hobjs1.
        apply list_elem_of_lookup. eauto. }
      destruct (refresh_base_shows l v h1 Hl) as [Hshows Hlabel].
      split; [reflexivity|]. split; [exact Hshows|]. split; [congruence|].
      intros _ Hlt. rewrite Hlabel. unfold get_field, fields_of. now rewrite Hold.
    + cbn [alloc] in Hexp. unfold JS.bind at 1, modify in Hexp.
      cbn [export_overlays] in Hexp. unfold JS.bind, JS.ret in Hexp.
      apply OutcomeFacts.Returns_inj in Hexp as [Hacc <-].
      apply (f_equal fst) in Hacc. cbn [fst] in Hacc. subst acc. exists (length h1).
      destruct (refresh_base_shows (length h1) v
                  (h1 ++ [OObject default_imageOptions]) (is_object_new _ _))
        as [Hshows _].
      split; [reflexivity|]. split; [exact Hshows|]. split; [congruence|].
      intros _ Hlt. lia.
  - cbn [app] in Hexp. unfold JS.bind at 1 in Hexp.
    destruct (base_imageOptions doc h1) as [lb h3|err h3] eqn:Hbase; [|discriminate].
    assert (Hobjs3 : Forall (is_object h3) (imageOptionsArray (data doc))).
    { unfold base_imageOptions in Hbase.
      destruct (imageOptionsArray (data doc) !! 0).
      - injection Hbase as _ <-. exact Hobjs1.
      - cbn [alloc] in Hbase. injection Hbase as _ <-.
        eapply Forall_impl; [exact Hobjs1|]. intros x Hx.
        apply (is_object_alloc (OObject default_imageOptions) h1 x Hx). }
    unfold JS.bind at 1, modify in Hexp. unfold JS.bind at 1 in Hexp.
    destruct (export_overlays doc 1 (rest ++ [v]) _ (refresh_base lb base h3))
      as [acc' h4|err h4] eqn:Hloop; [|discriminate].
    unfold JS.ret in Hexp. apply OutcomeFacts.Returns_inj in Hexp as [Hacc <-].
    apply (f_equal fst) in Hacc. cbn [fst] in Hacc. subst acc.
    destruct (export_overlays_last doc rest v _ _ _ _ _
                (Forall_impl _ _ _ Hobjs3
                   (fun x Hx => is_object_refresh_base x lb base h3 Hx)) Hloop)
      as (l & Hl & Hshows & Hlabel).
    exists l. split; [exact Hl|]. split; [exact Hshows|]. split; [auto|].
    discriminate.
Qed.

End Exporting.

Section Examples.
#[local] Existing Instance Demo.platform.
Import Demo.

Lemma json_rebuilds_registry_witness :
  let st := after (addImageOptions imgB recB)
              (after (addImageOptions imgA recA) start) in
  let doc := with_volumes [imgB; imgA] (snd st) in
  imageOptionsMap doc !! id imgA = Some 0
  /\ (x_imageOptionsMap <$> returned (json (fst st, doc))) ≫= (.!! id imgA) = Some 1.
Proof.
  intros st doc. split; [vm_compute; reflexivity|].
  destruct (json (fst st, doc)) as [e st'|err st'] eqn:Hrun.
  - destruct (json_rebuilds_registry (fst st) doc e st' Hrun)
      as (_ & _ & Hlast & _).
    cbn. apply (Hlast 1 imgA); [reflexivity|].
    intros [|[|[|j]]] w Hlt Hw; try lia; discriminate.
  - assert (Hno : thrown (json (fst st, doc)) = None) by (vm_compute; reflexivity).
    rewrite Hrun in Hno. discriminate.
Defined.

Lemma json_exports_live_settings_witness :
  let st := after (addImageOptions imgA recA) start in
  let doc := with_volumes [imgX; imgA] (snd st) in
  get_field (fst st) recA "colormap" = VStr "gray"
  /\ exists e h' l,
       json (fst st, doc) = Returns e (h', doc)
       /\ x_imageOptionsArray e !! 1 = Some l
       /\ get_field h' l "colormap" = VStr "hot"
       /\ get_field h' l "cal_min" = VNum NaN.
Proof.
  intros st doc. split; [vm_compute; reflexivity|].
  assert (Hno : thrown (json (fst st, doc)) = None) by (vm_compute; reflexivity).
  destruct (json (fst st, doc)) as [e [h' doc']|err st'] eqn:Hrun; [|discriminate].
  pose proof (json_keeps_document _ _ _ _ _ Hrun) as ->.
  destruct (json_exports_live_settings (fst st) doc e h' doc [imgX] imgA)
    as (l & Hl & (Hcmap & _ & _ & Hmin) & _).
  - apply Forall_cons. split; [|apply Forall_nil_2].
    exists (fields_of (fst st) recA). vm_compute. reflexivity.
  - reflexivity.
  - exact Hrun.
  - exists e, h', l. repeat split; auto.
Defined.

End Examples.

End ExportMore.

(* ===================================================================== *)
(** ** Export: what it writes into the load-option records *)
(* ===================================================================== *)

Module ExportWrites.

Import Document Props MoreProps.

Lemma fields_of_ext (h h' : Heap) (l : loc) :
  h' !! l = h !! l -> fields_of h' l = fields_of h l.
Proof. intros E. unfold fields_of. now rewrite E. Qed.

Lemma get_field_ext (h h' : Heap) (l : loc) (k : string) :
  h' !! l = h !! l -> get_field h' l k = get_field h l k.
Proof. intros E. unfold get_field. now rewrite (fields_of_ext _ _ _ E). Qed.

Lemma fields_of_set_field_key (l l' : loc) (k k' : string) (v : Value) (h : Heap) :
  k <> k' -> fields_of (set_field l k v h) l' !! k' = fields_of h l' !! k'.
Proof.
  intros Hne. destruct (decide (l = l')) as [<-|Hl].
  - unfold fields_of. destruct (h !! l) as [[m|xs]|] eqn:E.
    + rewrite (HeapFacts.set_field_object _ _ _ _ _ E). now rewrite lookup_insert_ne.
    + rewrite HeapFacts.set_field_not_object; [now rewrite E | intros m; congruence].
    + rewrite HeapFacts.set_field_not_object; [now rewrite E | intros m; congruence].
  - now rewrite HeapFacts.fields_of_set_field_other.
Qed.

Lemma fields_of_set_field_same (l : loc) (k : string) (v : Value) (h : Heap) :
  is_object h l -> fields_of (set_field l k v h) l !! k = Some v.
Proof.
  intros [m Hm]. unfold fields_of.
  rewrite (HeapFacts.set_field_object _ _ _ _ _ Hm). apply lookup_insert_eq.
Qed.

Lemma fields_of_absent (h : Heap) (l : loc) :
  length h <= l -> fields_of h l = ∅.
Proof. intros Hl. unfold fields_of. now rewrite lookup_ge_None_2. Qed.

Lemma imageType_after_ext (h h' : Heap) (l : loc) :
  fields_of h' l !! "imageType" = fields_of h l !! "imageType" ->
  forall platform : Collaborators, imageType_after h' l = imageType_after h l.
Proof.
  intros E platform. unfold imageType_after, has_field, get_field. now rewrite E.
Qed.

Lemma imageType_after_read (h h0 : Heap) (l : loc) (platform : Collaborators) :
  fields_of h l !! "imageType" = Some (imageType_after h0 l) ->
  get_field h l "imageType" = imageType_after h0 l
  /\ imageType_after h l = imageType_after h0 l.
Proof.
  intros E. unfold get_field. rewrite E. split; [reflexivity|].
  unfold imageType_after at 1. unfold has_field, get_field. rewrite E.
  rewrite bool_decide_eq_true_2 by eauto. reflexivity.
Qed.

Lemma imageType_after_absent (h : Heap) (l : loc) (platform : Collaborators) :
  length h <= l -> imageType_after h l = NVIMAGE_TYPE_NII.
Proof.
  intros Hl. unfold imageType_after, has_field. rewrite fields_of_absent by exact Hl.
  rewrite lookup_empty. rewrite bool_decide_eq_false_2; [reflexivity|].
  intros [x Hx]. discriminate.
Qed.

Section Writing.
Context {platform : Collaborators}.

Lemma refresh_overlay_other (l l' : loc) (v : NVImage) (h : Heap) :
  l <> l' -> refresh_overlay l v h !! l' = h !! l'.
Proof.
  intros Hne. unfold refresh_overlay.
  now repeat rewrite HeapFacts.set_field_other by exact Hne.
Qed.

Lemma refresh_base_other (l l' : loc) (v : NVImage) (h : Heap) :
  l <> l' -> refresh_base l v h !! l' = h !! l'.
Proof.
  intros Hne. unfold refresh_base.
  now repeat rewrite HeapFacts.set_field_other by exact Hne.
Qed.

Lemma refresh_overlay_imageType (l l' : loc) (v : NVImage) (h : Heap) :
  fields_of (refresh_overlay l v h) l' !! "imageType" = fields_of h l' !! "imageType".
Proof.
  unfold refresh_overlay.
  now repeat rewrite fields_of_set_field_key by discriminate.
Qed.

Lemma refresh_base_imageType (l l' : loc) (v : NVImage) (h : Heap) :
  fields_of (refresh_base l v h) l' !! "imageType" = fields_of h l' !! "imageType".
Proof.
  unfold refresh_base.
  now repeat rewrite fields_of_set_field_key by discriminate.
Qed.

(** The base volume's record keeps every property that is not one of
    the four that are written. *)
Lemma refresh_base_key (l l' : loc) (v : NVImage) (h : Heap) (k : string) :
  k ∉ ["colormap"; "opacity"; "cal_max"; "cal_min"] ->
  fields_of (refresh_base l v h) l' !! k = fields_of h l' !! k.
Proof.
  intros Hk. unfold refresh_base.
  repeat rewrite fields_of_set_field_key; [reflexivity| | | |];
    intros <-; apply Hk; set_solver.
Qed.

Lemma default_imageType : default_imageOptions !! "imageType" = Some NVIMAGE_TYPE_NII.
Proof. reflexivity. Qed.

(** One turn of the loop of [json()]: the record it selects, and the
    store after the five writes. *)
Lemma overlay_step (doc : NVDocument) (v : NVImage) (h : Heap) (l : loc) (h1 : Heap) :
  Forall (is_object h) (imageOptionsArray (data doc)) ->
  overlay_imageOptions doc v h = Returns l h1 ->
  let h2 := refresh_overlay l v h1 in
  length h <= length h2
  /\ (l ∈ imageOptionsArray (data doc) \/ length h <= l)
  /\ (forall l', l' <> l -> h2 !! l' = h !! l')
  /\ shows h2 l v
  /\ get_field h2 l "colormapLabel" = colormapLabel v
  /\ fields_of h2 l !! "imageType" = Some (imageType_after h l)
  /\ Forall (is_object h2) (imageOptionsArray (data doc)).
Proof.
  intros Hobjs Hsel h2.
  destruct (ExportMore.overlay_imageOptions_object _ _ _ _ _ Hobjs Hsel)
    as [Hl Hobjs1].
  destruct (ExportMore.refresh_overlay_shows l v h1 Hl) as [Hshows Hlabel].
  assert (Hobjs2 : Forall (is_object h2) (imageOptionsArray (data doc))).
  { eapply Forall_impl; [exact Hobjs1|]. intros x Hx.
    now apply ExportMore.is_object_refresh_overlay. }
  unfold overlay_imageOptions, getImageOptions in Hsel.
  destruct (imageOptionsMap doc !! id v) as [index|].
  - destruct (imageOptionsArray (data doc) !! index) as [l0|] eqn:Hidx; [|discriminate].
    assert (Hin : l0 ∈ imageOptionsArray (data doc))
      by (apply list_elem_of_lookup; eauto).
    assert (Hobj0 : is_object h l0) by (rewrite Forall_forall in Hobjs; auto).
    assert (E : l0 = l /\ length h1 = length h
                /\ (forall l', l' <> l0 -> h1 !! l' = h !! l')
                /\ fields_of h1 l0 !! "imageType" = Some (imageType_after h l0)).
    { unfold imageType_after, has_field, get_field in *.
      destruct (fields_of h l0 !! "imageType") as [t|] eqn:Ht.
      - rewrite bool_decide_eq_true_2 in * by eauto. cbn [negb] in Hsel.
        injection Hsel as -> <-. auto.
      - rewrite bool_decide_eq_false_2 in * by (intros [x Hx]; discriminate).
        cbn [negb] in Hsel. injection Hsel as -> <-.
        split; [reflexivity|]. split; [apply HeapFacts.set_field_length|].
        split; [intros l' Hne; apply HeapFacts.set_field_other; congruence|].
        now apply fields_of_set_field_same. }
    destruct E as (-> & Hlen & Hother & Htype).
    subst h2. rewrite ExportFacts.refresh_overlay_length, Hlen.
    split; [lia|]. split; [now left|]. split.
    { intros l' Hne. rewrite refresh_overlay_other by congruence. now apply Hother. }
    split; [exact Hshows|]. split; [exact Hlabel|]. split; [|exact Hobjs2].
    rewrite refresh_overlay_imageType. exact Htype.
  - cbn [alloc] in Hsel. injection Hsel as <- <-.
    subst h2. rewrite ExportFacts.refresh_overlay_length, length_app. cbn [length].
    split; [lia|]. split; [now right|]. split.
    { intros l' Hne. rewrite refresh_overlay_other by congruence.
      destruct (decide (l' < length h)) as [Hlt|Hge].
      - now apply lookup_app_l.
      - rewrite lookup_ge_None_2 by (rewrite length_app; cbn [length]; lia).
        symmetry. apply lookup_ge_None_2. lia. }
    split; [exact Hshows|]. split; [exact Hlabel|]. split; [|exact Hobjs2].
    rewrite refresh_overlay_imageType.
    rewrite imageType_after_absent by lia.
    unfold fields_of. rewrite lookup_app_r by lia. rewrite Nat.sub_diag.
    exact default_imageType.
Qed.

(** The loop of [json()] as a whole.  [locs] are the records it used,
    in the order of the volumes. *)
Lemma export_overlays_trace (doc : NVDocument) (vols : list NVImage) :
  forall (i : nat) (acc : VolumeExport) (h : Heap) (acc' : VolumeExport) (h' : Heap),
    Forall (is_object h) (imageOptionsArray (data doc)) ->
    export_overlays doc i vols acc h = Returns acc' h' ->
    exists locs,
      v_imageOptionsArray acc' = v_imageOptionsArray acc ++ locs
      /\ length h <= length h'
      /\ (forall l, l ∈ locs -> l ∈ imageOptionsArray (data doc) \/ length h <= l)
      /\ (forall l, l ∉ locs -> h' !! l = h !! l)
      /\ (forall j v l,
            vols !! j = Some v -> locs !! j = Some l ->
            (forall j', j < j' -> locs !! j' <> Some l) ->
            shows h' l v /\ get_field h' l "colormapLabel" = colormapLabel v)
      /\ (forall l, l ∈ locs ->
            fields_of h' l !! "imageType" = Some (imageType_after h l)).
Proof.
  induction vols as [|v rest IH]; intros i acc h acc' h' Hobjs.
  { intros [= <- <-]. exists []. rewrite app_nil_r. split; [reflexivity|].
    split; [lia|]. split; [intros l Hl; inversion Hl|]. split; [reflexivity|].
    split; [intros j v l Hv; discriminate | intros l Hl; inversion Hl]. }
  cbn [export_overlays]. unfold JS.bind at 1.
  destruct (overlay_imageOptions doc v h) as [l h1|e h1] eqn:Hsel; [|discriminate].
  destruct (overlay_step _ _ _ _ _ Hobjs Hsel)
    as (Hlen & Horigin & Hother & Hshows & Hlabel & Htype & Hobjs2).
  unfold JS.bind at 1, modify. intros Hrun.
  destruct (IH _ _ _ _ _ Hobjs2 Hrun)
    as (locs & Harr & Hlen' & Horigin' & Hother' & Hshows' & Htype').
  exists (l :: locs). split.
  { rewrite Harr. cbn [push_volume v_imageOptionsArray]. now rewrite <- app_assoc. }
  split; [lia|]. split.
  { intros l0 Hl0. apply elem_of_cons in Hl0 as [->|Hl0]; [exact Horigin|].
    destruct (Horigin' l0 Hl0); [now left | right; lia]. }
  split.
  { intros l0 Hl0. apply not_elem_of_cons in Hl0 as [Hne Hl0].
    rewrite Hother' by exact Hl0. now apply Hother. }
  split.
  { intros [|j] w l0 Hw Hl0 Hlast.
    - cbn in Hw, Hl0. injection Hw as <-. injection Hl0 as <-.
      assert (Hl : l ∉ locs).
      { intros Hin. apply list_elem_of_lookup in Hin as [j' Hj'].
        apply (Hlast (S j')); [lia | exact Hj']. }
      unfold shows. repeat rewrite (get_field_ext _ _ _ _ (Hother' l Hl)).
      split; [exact Hshows | exact Hlabel].
    - apply (Hshows' j w l0 Hw Hl0). intros j' Hj'.
      apply (Hlast (S j')). lia. }
  intros l0 Hl0. destruct (decide (l0 ∈ locs)) as [Hin|Hout].
  - rewrite (Htype' l0 Hin). f_equal.
    destruct (decide (l0 = l)) as [->|Hne].
    + apply (imageType_after_read _ _ _ _ Htype).
    + apply imageType_after_ext. now rewrite (fields_of_ext _ _ _ (Hother l0 Hne)).
  - apply elem_of_cons in Hl0 as [->|Hl0]; [|contradiction].
    rewrite (fields_of_ext _ _ _ (Hother' l Hout)). exact Htype.
Qed.

(** The volume part of [json()]: the base volume, then the loop. *)
Lemma export_volumes_trace (doc : NVDocument) (h1 : Heap)
  (acc : VolumeExport) (drawing : option string) (h2 : Heap) :
  Forall (is_object h1) (imageOptionsArray (data doc)) ->
  export_volumes doc h1 = Returns (acc, drawing) h2 ->
  let records := v_imageOptionsArray acc in
  (forall l, l ∉ records -> h2 !! l = h1 !! l)
  /\ (forall i v l,
        volumes doc !! i = Some v -> records !! i = Some l ->
        (forall j, i < j -> records !! j <> Some l) ->
        shows h2 l v
        /\ (1 <= i ->
            get_field h2 l "colormapLabel" = colormapLabel v
            /\ get_field h2 l "imageType" = imageType_after h1 l
            /\ (l ∈ imageOptionsArray (data doc) \/ length h1 <= l)))
  /\ (forall l, records !! 0 = Some l -> l < length h1 ->
        (forall j, 1 <= j -> records !! j <> Some l) ->
        forall k, k ∉ ["colormap"; "opacity"; "cal_max"; "cal_min"] ->
                  fields_of h2 l !! k = fields_of h1 l !! k).
Proof.
  intros Hobjs Hexp. unfold export_volumes in Hexp.
  destruct (volumes doc) as [|base rest].
  { unfold JS.ret in Hexp. apply OutcomeFacts.Returns_inj in Hexp as [Hacc <-].
    apply (f_equal fst) in Hacc. cbn [fst] in Hacc. subst acc. cbn.
    split; [reflexivity|]. split; intros; discriminate. }
  unfold JS.bind at 1 in Hexp.
  destruct (base_imageOptions doc h1) as [lb h3|err h3] eqn:Hbase; [|discriminate].
  assert (Hb : is_object h3 lb
               /\ Forall (is_object h3) (imageOptionsArray (data doc))
               /\ length h1 <= length h3
               /\ ((h3 = h1 /\ lb < length h1)
                   \/ (h3 = h1 ++ [OObject default_imageOptions]
                       /\ lb = length h1
                       /\ imageOptionsArray (data doc) = []))).
  { unfold base_imageOptions in Hbase.
    destruct (imageOptionsArray (data doc)) as [|l0 A] eqn:HA.
    - cbn [alloc] in Hbase. injection Hbase as <- <-.
      split; [apply ExportMore.is_object_new|]. split; [constructor|].
      split; [rewrite length_app; lia|]. right. auto.
    - cbn in Hbase. injection Hbase as <- <-.
      assert (Hl0 : is_object h1 l0) by (now inversion Hobjs).
      split; [exact Hl0|]. split; [exact Hobjs|]. split; [lia|]. left.
      split; [reflexivity|]. destruct Hl0 as [m Hm]. now apply lookup_lt_Some in Hm. }
  destruct Hb as (Hlb & Hobjs3 & Hlen3 & Hcase).
  assert (Hnew : forall o l, l <> length h1 -> (h1 ++ [o]) !! l = h1 !! l).
  { intros o l Hne. destruct (decide (l < length h1)) as [Hlt|Hge].
    - now apply lookup_app_l.
    - rewrite lookup_ge_None_2 by (rewrite length_app; cbn [length]; lia).
      symmetry. apply lookup_ge_None_2. lia. }
  unfold JS.bind at 1, modify in Hexp. unfold JS.bind at 1 in Hexp.
  destruct (export_overlays doc 1 rest _ (refresh_base lb base h3))
    as [acc' h4|err h4] eqn:Hloop; [|discriminate].
  unfold JS.ret in Hexp. apply OutcomeFacts.Returns_inj in Hexp as [Hacc <-].
  apply (f_equal fst) in Hacc. cbn [fst] in Hacc. subst acc.
  destruct (export_overlays_trace doc rest _ _ _ _ _
              (Forall_impl _ _ _ Hobjs3
                 (fun x Hx => ExportMore.is_object_refresh_base x lb base h3 Hx))
              Hloop)
    as (locs & Harr & Hlen & Horigin & Hother & Hshows & Htype).
  cbn [push_volume v_imageOptionsArray app] in Harr.
  rewrite ExportFacts.refresh_base_length in Hlen, Horigin.
  cbn zeta. rewrite Harr.
  split.
  { intros l Hl. apply not_elem_of_cons in Hl as [Hne Hl].
    rewrite (Hother l Hl), refresh_base_other by congruence.
    destruct Hcase as [[-> _]|(-> & -> & _)]; [reflexivity|]. now apply Hnew. }
  split.
  { intros [|i] v l Hv Hl Hlast.
    - cbn in Hv, Hl. injection Hv as <-. injection Hl as <-.
      assert (Hout : lb ∉ locs).
      { intros Hin. apply list_elem_of_lookup in Hin as [j Hj].
        apply (Hlast (S j)); [lia | exact Hj]. }
      split; [|lia]. unfold shows.
      repeat rewrite (get_field_ext _ _ _ _ (Hother lb Hout)).
      apply (ExportMore.refresh_base_shows lb base h3 Hlb).
    - cbn in Hv, Hl.
      destruct (Hshows i v l Hv Hl) as [Hs Hlabel].
      { intros j Hj. apply (Hlast (S j)). lia. }
      split; [exact Hs|]. intros _. split; [exact Hlabel|].
      assert (Hin : l ∈ locs) by (apply list_elem_of_lookup; eauto).
      destruct (imageType_after_read _ _ _ _ (Htype l Hin)) as [-> _].
      split.
      + apply imageType_after_ext. rewrite refresh_base_imageType.
        destruct Hcase as [[-> _]|(-> & -> & HA)]; [reflexivity|].
        apply (f_equal (fun m : gmap string Value => m !! "imageType")).
        apply fields_of_ext. apply Hnew.
        destruct (Horigin l Hin) as [Hl'|Hge].
        * rewrite HA in Hl'. inversion Hl'.
        * rewrite length_app in Hge. cbn [length] in Hge. lia.
      + destruct (Horigin l Hin) as [Hl'|Hge]; [now left | right; lia]. }
  intros l Hl Hlt Hlast k Hk. cbn in Hl. injection Hl as <-.
  assert (Hout : lb ∉ locs).
  { intros Hin. apply list_elem_of_lookup in Hin as [j Hj].
    apply (Hlast (S j)); [lia | exact Hj]. }
  rewrite (fields_of_ext _ _ _ (Hother lb Hout)), refresh_base_key by exact Hk.
  destruct Hcase as [[-> _]|(_ & -> & _)]; [reflexivity | lia].
Qed.

(** C2, as the code has it.  [json()] assigns no field of the
    document, whether it returns or throws.  In the store it only adds
    objects and writes display properties: an object that existed
    before is unchanged unless it is a record of the load-option
    sequence, and such a record keeps every property other than
    [colormap], [colormapLabel], [opacity], [cal_max], [cal_min] and
    [imageType].  When it returns and the records of the sequence are
    objects, the writes are these.  An object that is not among the
    records of the container is unchanged.  The record exported at the
    position of a volume, if no later volume uses it too, holds that
    volume's [colormap], [opacity], [cal_max] and [cal_min] (a falsy
    bound as NaN); for a volume after the first it also holds the
    volume's [colormapLabel], and its [imageType] is the one it had, or
    the NII marker if it had none.  The record of the first volume, if
    it existed before and no later volume uses it, keeps every property
    other than [colormap], [opacity], [cal_max] and [cal_min]. *)
Theorem json_writes_only_display_properties (h : Heap) (doc : NVDocument) :
  let final := final_state (json (h, doc)) in
  snd final = doc
  /\ length h <= length (fst final)
  /\ (forall l o, h !! l = Some o ->
        exists o', fst final !! l = Some o'
                   /\ (l ∉ imageOptionsArray (data doc) -> o' = o)
                   /\ refreshed o o')
  /\ (forall e st',
        json (h, doc) = Returns e st' ->
        Forall (is_object h) (imageOptionsArray (data doc)) ->
        let records := x_imageOptionsArray e in
        (forall l o, h !! l = Some o -> l ∉ records -> fst st' !! l = Some o)
        /\ (forall i v l,
              volumes doc !! i = Some v -> records !! i = Some l ->
              (forall j, i < j -> records !! j <> Some l) ->
              shows (fst st') l v
              /\ (1 <= i ->
                  get_field (fst st') l "colormapLabel" = colormapLabel v
                  /\ get_field (fst st') l "imageType" = imageType_after h l))
        /\ (forall l, records !! 0 = Some l -> l < length h ->
              (forall j, 1 <= j -> records !! j <> Some l) ->
              forall k, k ∉ ["colormap"; "opacity"; "cal_max"; "cal_min"] ->
                        fields_of (fst st') l !! k = fields_of h l !! k)).
Proof.
  cbn zeta. split; [|split; [|split]].
  - unfold json. cbn [fst snd]. now destruct (json_heap doc h).
  - unfold json. cbn [fst snd]. pose proof (ExportFacts.json_heap_frame doc h) as [Hf _].
    now destruct (json_heap doc h).
  - unfold json. cbn [fst snd]. pose proof (ExportFacts.json_heap_frame doc h) as [_ Hf].
    now destruct (json_heap doc h).
  - intros e st' Hrun Hobjs. unfold json, json_heap in Hrun. cbn [fst snd] in Hrun.
    unfold JS.bind at 1 in Hrun.
    destruct (ExportFacts.export_opts_spec doc h) as (h1 & Hopts & Hlen1 & Hold & _).
    rewrite Hopts in Hrun.
    assert (Hobjs1 : Forall (is_object h1) (imageOptionsArray (data doc))).
    { eapply Forall_impl; [exact Hobjs|]. intros x [m Hm]. exists m.
      rewrite Hold; [exact Hm | now apply lookup_lt_Some in Hm]. }
    unfold JS.bind at 1 in Hrun.
    destruct (export_volumes doc h1) as [[acc drawing] h2|err h2] eqn:Hvols;
      [|discriminate].
    unfold JS.ret in Hrun. apply OutcomeFacts.Returns_inj in Hrun as [<- <-].
    cbn [x_imageOptionsArray fst].
    destruct (export_volumes_trace _ _ _ _ _ Hobjs1 Hvols) as (Hframe & Hshows & Hbase).
    split; [|split].
    + intros l o Hl Hout. rewrite (Hframe l Hout), Hold; [exact Hl|].
      now apply lookup_lt_Some in Hl.
    + intros i v l Hv Hl Hlast.
      destruct (Hshows i v l Hv Hl Hlast) as [Hs Hrest].
      split; [exact Hs|]. intros Hi.
      destruct (Hrest Hi) as (Hlabel & Htype & Horigin).
      split; [exact Hlabel|]. rewrite Htype.
      destruct Horigin as [Hin|Hge].
      * apply imageType_after_ext. rewrite Forall_forall in Hobjs.
        destruct (Hobjs l Hin) as [m Hm]. apply lookup_lt_Some in Hm.
        now rewrite (fields_of_ext _ _ _ (Hold l Hm)).
      * rewrite !imageType_after_absent by lia. reflexivity.
    + intros l Hl Hlt Hlast k Hk.
      rewrite (Hbase l Hl) by (try lia; assumption).
      now rewrite (fields_of_ext _ _ _ (Hold l Hlt)).
Qed.

End Writing.

Section Examples.
#[local] Existing Instance Demo.platform.
Import Demo.

Lemma json_writes_only_display_properties_witness :
  let st := after (addImageOptions imgA recA) start in
  let doc := with_volumes [imgX; imgA] (snd st) in
  get_field (fst st) recA "colormap" = VStr "gray"
  /\ exists e st' l,
       json (fst st, doc) = Returns e st'
       /\ x_imageOptionsArray e !! 1 = Some l
       /\ get_field (fst st') l "colormap" = VStr "hot"
       /\ get_field (fst st') l "colormapLabel" = colormapLabel imgA.
Proof.
  intros st doc. split; [vm_compute; reflexivity|].
  assert (Hno : thrown (json (fst st, doc)) = None) by (vm_compute; reflexivity).
  destruct (json (fst st, doc)) as [e st'|err st'] eqn:Hrun; [|discriminate].
  destruct (ExportMore.json_rebuilds_registry_parts _ _ _ _ Hrun) as [_ Hlen].
  destruct (lookup_lt_is_Some_2 (x_imageOptionsArray e) 1) as [l Hl];
    [rewrite Hlen; cbn; lia|].
  destruct (json_writes_only_display_properties (fst st) doc) as (_ & _ & _ & Hwrites).
  destruct (Hwrites e st') as (_ & Hshows & _).
  - exact Hrun.
  - apply Forall_cons. split; [|apply Forall_nil_2].
    exists (fields_of (fst st) recA). vm_compute. reflexivity.
  - destruct (Hshows 1 imgA l) as [(Hcmap & _) Hrest].
    + reflexivity.
    + exact Hl.
    + intros j Hj. rewrite lookup_ge_None_2; [discriminate|]. rewrite Hlen. cbn. lia.
    + destruct (Hrest (le_n 1)) as [Hlabel _].
      exists e, st', l. repeat split; auto.
Defined.

End Examples.

End ExportWrites.


(* ===================================================================== *)
(** ** Import: what a loaded document holds *)
(* ===================================================================== *)

Module ImportMore.

Import Document Props MoreProps.

Lemma merge_full (base d : Scene.SceneData) :
  merge_sceneData base (Some (full_sceneData d)) = d.
Proof. destruct d; reflexivity. Qed.

Lemma rename_field_gone (old new : string) (layer : Layer) :
  old <> new -> rename_field old new layer !! old = None.
Proof.
  intros Hne. unfold rename_field. destruct (layer !! old) eqn:E; [|exact E].
  apply lookup_delete_eq.
Qed.

Lemma rename_legacy_clean (layer : Layer) :
  rename_legacy layer !! "colorMap" = None
  /\ rename_legacy layer !! "colorMapNegative" = None.
Proof.
  unfold rename_legacy. split.
  - rewrite ImportFacts.rename_field_other by discriminate.
    now apply rename_field_gone.
  - now apply rename_field_gone.
Qed.

Section Importing.
Context {platform : Collaborators}.

Lemma deserializeMeshDataObjects_only_meshes (document document' : NVDocument) :
  deserializeMeshDataObjects document = Returns tt document' ->
  exists x, document' = with_meshDataObjects x document.
Proof.
  assert (Hsame : document = with_meshDataObjects (meshDataObjects document) document)
    by (destruct document; reflexivity).
  unfold deserializeMeshDataObjects.
  destruct (meshesString (data document)) as [s|].
  - destruct (truthy (VStr s)).
    + destruct (deserialize_meshes s) as [e|objects]; [discriminate|].
      intros E. apply OutcomeFacts.Returns_inj in E as [_ <-]. eauto.
    + intros E. apply OutcomeFacts.Returns_inj in E as [_ <-]. eauto.
  - intros E. apply OutcomeFacts.Returns_inj in E as [_ <-]. eauto.
Qed.

(** The document that [loadFromJSON] returns, up to its mesh data
    objects. *)
Lemma loadFromJSON_document (a b : Scene.callback) (d : DocumentData) (h : Heap)
  (document : NVDocument) (h' : Heap) :
  loadFromJSON a b d h = Returns document h' ->
  data document = d
  /\ scene document
     = Scene.mkScene (Some a) (Some b)
         (merge_sceneData Scene.INITIAL_SCENE_DATA (sceneData d))
  /\ volumes document = []
  /\ meshes document = []
  /\ drawBitmap document = None
  /\ imageOptionsMap document = ∅
  /\ meshOptionsMap document = ∅.
Proof.
  unfold loadFromJSON, new_NVDocument. cbn [alloc].
  match goal with
  | |- match deserializeMeshDataObjects ?doc0 with _ => _ end = _ -> _ =>
      destruct (deserializeMeshDataObjects doc0) as [[] document'|e document'] eqn:Hd;
      [|discriminate]
  end.
  intros E. apply OutcomeFacts.Returns_inj in E as [<- _].
  apply deserializeMeshDataObjects_only_meshes in Hd as [x ->].
  cbn. auto 10.
Qed.

Lemma json_copies (h : Heap) (doc : NVDocument) (e : ExportDocumentData) (st' : State) :
  json (h, doc) = Returns e st' ->
  x_sceneData e = Scene.sceneData (scene doc)
  /\ x_labels e = labels (data doc)
  /\ x_customData e = customData (data doc)
  /\ x_previewImageDataURL e = previewImageDataURL (data doc).
Proof.
  unfold json, json_heap. cbn [fst snd]. unfold JS.bind at 1.
  destruct (export_opts doc h) as [o h1|err h1]; [|discriminate].
  unfold JS.bind at 1.
  destruct (export_volumes doc h1) as [vols h2|err h2]; [|discriminate].
  unfold JS.ret. intros E. apply OutcomeFacts.Returns_inj in E as [<- _].
  cbn. auto.
Qed.

(** X13.  A document read back by [loadFromJSON] from what [json()]
    returned has the scene data, the labels, the custom data and the
    preview of the exported document, the blobs of its volumes and one
    load-option record for each.  It has no live volume, no mesh, no
    drawing, an empty registry and no title, and its observers are the
    no-op functions of a new document. *)
Theorem export_import_round_trip
  (h : Heap) (doc : NVDocument) (e : ExportDocumentData) (st1 : State)
  (a b : Scene.callback) (doc2 : NVDocument) (h2 : Heap) :
  json (h, doc) = Returns e st1 ->
  loadFromJSON a b (as_DocumentData e) (fst st1) = Returns doc2 h2 ->
  Scene.sceneData (scene doc2) = Scene.sceneData (scene doc)
  /\ labels (data doc2) = labels (data doc)
  /\ customData (data doc2) = customData (data doc)
  /\ previewImageDataURL (data doc2) = previewImageDataURL (data doc)
  /\ encodedImageBlobs (data doc2) = List.map blob (volumes doc)
  /\ length (imageOptionsArray (data doc2)) = length (volumes doc)
  /\ title (data doc2) = None
  /\ volumes doc2 = []
  /\ meshes doc2 = []
  /\ drawBitmap doc2 = None
  /\ imageOptionsMap doc2 = ∅
  /\ (forall image, getImageOptions doc2 image = VNull)
  /\ Scene.onAzimuthElevationChange (scene doc2) = Some a
  /\ Scene.onZoom3DChange (scene doc2) = Some b.
Proof.
  intros Hexp Himp.
  destruct (json_copies _ _ _ _ Hexp) as (Hscene & Hlabels & Hcustom & Hpreview).
  destruct (ExportMore.json_rebuilds_registry_parts _ _ _ _ Hexp) as (Hblobs & Hlen).
  destruct (loadFromJSON_document _ _ _ _ _ _ Himp)
    as (Hdata & Hsc & Hvols & Hmeshes & Hdraw & Hmap & _).
  rewrite Hdata, Hsc, Hvols, Hmeshes, Hdraw, Hmap.
  cbn [Scene.sceneData Scene.onAzimuthElevationChange Scene.onZoom3DChange
       as_DocumentData sceneData labels customData previewImageDataURL
       encodedImageBlobs imageOptionsArray title].
  rewrite merge_full, Hscene, Hlabels, Hcustom, Hpreview, Hblobs, Hlen.
  repeat split. intros image. unfold getImageOptions. rewrite Hmap.
  now rewrite lookup_empty.
Qed.

(** X14.  [loadFromJSON] lays the scene data of the container over
    [INITIAL_SCENE_DATA], not over the scene of a new document: a
    container without scene data gives the initial scene, whose
    crosshair and pan differ from those the constructor sets; each of
    the ten fields is taken from the container if the container has it,
    and has its initial value if not. *)
Theorem loadFromJSON_scene
  (a b : Scene.callback) (d : DocumentData) (h : Heap)
  (document : NVDocument) (h' : Heap) :
  loadFromJSON a b d h = Returns document h' ->
  let loaded := Scene.sceneData (scene document) in
  let initial := Scene.INITIAL_SCENE_DATA in
  (sceneData d = None ->
   loaded = initial
   /\ Scene.crosshairPos loaded
      <> Scene.crosshairPos (Scene.sceneData (Scene.new_scene a b))
   /\ Scene.pan2Dxyzmm loaded
      <> Scene.pan2Dxyzmm (Scene.sceneData (Scene.new_scene a b)))
  /\ (forall o, sceneData d = Some o ->
        Scene.azimuth loaded = default (Scene.azimuth initial) (p_azimuth o)
        /\ Scene.elevation loaded = default (Scene.elevation initial) (p_elevation o)
        /\ Scene.crosshairPos loaded
           = default (Scene.crosshairPos initial) (p_crosshairPos o)
        /\ Scene.clipPlane loaded = default (Scene.clipPlane initial) (p_clipPlane o)
        /\ Scene.clipPlaneDepthAziElev loaded
           = default (Scene.clipPlaneDepthAziElev initial) (p_clipPlaneDepthAziElev o)
        /\ Scene.volScaleMultiplier loaded
           = default (Scene.volScaleMultiplier initial) (p_volScaleMultiplier o)
        /\ Scene.pan2Dxyzmm loaded
           = default (Scene.pan2Dxyzmm initial) (p_pan2Dxyzmm o)
        /\ Scene.clipThick loaded = default (Scene.clipThick initial) (p_clipThick o)
        /\ Scene.clipVolumeLow loaded
           = default (Scene.clipVolumeLow initial) (p_clipVolumeLow o)
        /\ Scene.clipVolumeHigh loaded
           = default (Scene.clipVolumeHigh initial) (p_clipVolumeHigh o)).
Proof.
  intros Himp.
  destruct (loadFromJSON_document _ _ _ _ _ _ Himp) as (_ & Hsc & _).
  cbn zeta. rewrite Hsc. cbn [Scene.sceneData]. split.
  - intros ->. cbn [merge_sceneData]. split; [reflexivity|].
    split; intros E; vm_compute in E; discriminate.
  - intros o ->. cbn [merge_sceneData Scene.azimuth Scene.elevation
                      Scene.crosshairPos Scene.clipPlane Scene.clipPlaneDepthAziElev
                      Scene.volScaleMultiplier Scene.pan2Dxyzmm Scene.clipThick
                      Scene.clipVolumeLow Scene.clipVolumeHigh].
    repeat split; reflexivity.
Qed.

(** X15.  When the deserializer throws, [loadFromJSON] throws the same
    exception and returns no document; by then the options object of
    the container has had the token replaced by the infinite thickness. *)
Theorem loadFromJSON_failure
  (a b : Scene.callback) (d : DocumentData) (h : Heap) (s : string)
  (err : Exception) :
  meshesString d = Some s ->
  s <> "" ->
  deserialize_meshes s = inl err ->
  opts d < length h ->
  thrown (loadFromJSON a b d h) = Some err
  /\ returned (loadFromJSON a b d h) = None
  /\ (get_field h (opts d) "meshThicknessOn2D" = VStr "infinity" ->
      get_field (final_state (loadFromJSON a b d h)) (opts d) "meshThicknessOn2D"
      = VNum Infinity).
Proof.
  intros Hs Hne Herr Hlt. unfold loadFromJSON, new_NVDocument. cbn [alloc].
  match goal with
  | |- context [deserializeMeshDataObjects ?doc0] =>
      assert (Hd : deserializeMeshDataObjects doc0 = Throws err doc0)
  end.
  { unfold deserializeMeshDataObjects. cbn [data with_data with_scene]. rewrite Hs.
    destruct s as [|c s']; [congruence|]. cbn [truthy]. now rewrite Herr. }
  rewrite Hd. cbn [thrown returned final_state]. repeat split.
  intros Htoken.
  assert (Hold : get_field (h ++ [OObject (fields_of h DEFAULT_OPTIONS)]) (opts d)
                   "meshThicknessOn2D" = VStr "infinity").
  { rewrite <- Htoken.
    apply (HeapFacts.get_field_alloc_old (OObject (fields_of h DEFAULT_OPTIONS))
             h (opts d) _ Hlt). }
  rewrite Hold. cbn [strict_eq]. rewrite String.eqb_refl.
  destruct (OptionsFacts.get_field_object
              (h ++ [OObject (fields_of h DEFAULT_OPTIONS)]) (opts d)
              "meshThicknessOn2D") as [m Hm]; [rewrite Hold; discriminate|].
  apply (HeapFacts.get_field_set_field_eq _ _ _ _ _ Hm).
Qed.

(** X16.  No layer of the mesh data objects of a loaded document has
    a property [colorMap] or [colorMapNegative], whichever of the two the
    serialized layer had; and the shim applied to its own result
    changes nothing. *)
Theorem no_legacy_names_after_import
  (a b : Scene.callback) (d : DocumentData) (h : Heap)
  (document : NVDocument) (h' : Heap) (out : list (MeshBody * list Layer)) :
  loadFromJSON a b d h = Returns document h' ->
  meshDataObjects document = Some out ->
  forall body layers layer,
    (body, layers) ∈ out -> layer ∈ layers ->
    layer !! "colorMap" = None
    /\ layer !! "colorMapNegative" = None
    /\ rename_legacy layer = layer.
Proof.
  unfold loadFromJSON, new_NVDocument. cbn [alloc].
  match goal with
  | |- match deserializeMeshDataObjects ?doc0 with _ => _ end = _ -> _ =>
      set (document0 := doc0);
      destruct (deserializeMeshDataObjects document0) as [[] document'|e document']
        eqn:Hd; [|discriminate]
  end.
  intros E. apply OutcomeFacts.Returns_inj in E as [<- _].
  unfold deserializeMeshDataObjects in Hd.
  assert (Hnone : meshDataObjects document0 = None) by reflexivity.
  destruct (meshesString (data document0)) as [s|];
    [|apply OutcomeFacts.Returns_inj in Hd as [_ <-]; congruence].
  destruct (truthy (VStr s));
    [|apply OutcomeFacts.Returns_inj in Hd as [_ <-]; congruence].
  destruct (deserialize_meshes s) as [err|objects]; [discriminate|].
  apply OutcomeFacts.Returns_inj in Hd as [_ <-].
  cbn [meshDataObjects with_meshDataObjects]. intros [= <-] body layers layer Hmesh Hlayer.
  apply list_elem_of_In, in_map_iff in Hmesh as ([body0 layers0] & Heq & _).
  cbn [fst snd] in Heq. injection Heq as <- <-.
  apply list_elem_of_In, in_map_iff in Hlayer as (layer0 & <- & _).
  destruct (rename_legacy_clean layer0) as [H1 H2].
  split; [exact H1|]. split; [exact H2|].
  unfold rename_legacy at 1.
  rewrite (ImportFacts.rename_field_absent "colorMap" "colormap" _ H1).
  now apply ImportFacts.rename_field_absent.
Qed.

End Importing.

Section Examples.
#[local] Existing Instance Demo.platform.
Import Demo.

Lemma export_import_round_trip_witness :
  let st := (fst start, with_volumes [imgA] (snd start)) in
  title (data (snd st)) = Some "Untitled document"
  /\ exists e st1 doc2 h2,
       json st = Returns e st1
       /\ loadFromJSON 0 1 (as_DocumentData e) (fst st1) = Returns doc2 h2
       /\ title (data doc2) = None
       /\ volumes doc2 = []
       /\ length (encodedImageBlobs (data doc2)) = 1.
Proof.
  intros st. split; [reflexivity|].
  assert (Hno : thrown (json st) = None) by (vm_compute; reflexivity).
  destruct (json st) as [e st1|err st1] eqn:Hrun; [|discriminate].
  destruct (OptionsFacts.loadFromJSON_returns 0 1 (as_DocumentData e) (fst st1))
    as (doc2 & h2 & Himp).
  { intros s _. eexists. reflexivity. }
  destruct (export_import_round_trip (fst st) (snd st) e st1 0 1 doc2 h2 Hrun Himp)
    as (_ & _ & _ & _ & Hblobs & _ & Htitle & Hvols & _).
  exists e, st1, doc2, h2. repeat split; auto.
  rewrite Hblobs. reflexivity.
Defined.

Lemma loadFromJSON_scene_witness :
  exists document h',
    loadFromJSON 0 1 as_DocumentData_of_start module_heap = Returns document h'
    /\ Scene.sceneData (scene document) = Scene.INITIAL_SCENE_DATA.
Proof.
  destruct (OptionsFacts.loadFromJSON_returns 0 1 as_DocumentData_of_start module_heap)
    as (document & h' & Himp).
  { intros s _. eexists. reflexivity. }
  destruct (loadFromJSON_scene 0 1 _ _ _ _ Himp) as [Hnone _].
  destruct (Hnone eq_refl) as [Hinit _].
  exists document, h'. split; [exact Himp | exact Hinit].
Defined.

Lemma no_legacy_names_after_import_witness :
  match returned (loadFromJSON 0 1 as_DocumentData_of_start module_heap) with
  | Some document =>
      match meshDataObjects document with
      | Some ((_, layer :: _) :: _) =>
          layer !! "colormap" = Some (VStr "warm") /\ layer !! "colorMap" = None
      | _ => False
      end
  | None => False
  end.
Proof.
  assert (Hshape :
    match returned (loadFromJSON 0 1 as_DocumentData_of_start module_heap) with
    | Some document =>
        match meshDataObjects document with
        | Some ((_, layer :: _) :: _) => layer !! "colormap" = Some (VStr "warm")
        | _ => False
        end
    | None => False
    end) by (vm_compute; reflexivity).
  destruct (loadFromJSON 0 1 as_DocumentData_of_start module_heap)
    as [document h'|err h'] eqn:Hrun; [|exact Hshape].
  cbn [returned] in *.
  destruct (meshDataObjects document) as [[|[body [|layer layers]] out]|] eqn:Hobjs;
    try exact Hshape.
  split; [exact Hshape|].
  destruct (no_legacy_names_after_import 0 1 _ _ _ _ _ Hrun Hobjs body
              (layer :: layers) layer) as (Hgone & _);
    [apply list_elem_of_here | apply list_elem_of_here | exact Hgone].
Defined.

Lemma loadFromJSON_failure_witness :
  let out := loadFromJSON (platform := MoreDemo.failing) 0 1
               MoreDemo.broken_container MoreDemo.broken_heap in
  thrown out = Some (Error "Unexpected end of JSON input")
  /\ get_field MoreDemo.broken_heap (length module_heap) "meshThicknessOn2D"
     = VStr "infinity"
  /\ get_field (final_state out) (length module_heap) "meshThicknessOn2D"
     = VNum Infinity.
Proof.
  intros out.
  assert (Htoken : get_field MoreDemo.broken_heap (length module_heap)
                     "meshThicknessOn2D" = VStr "infinity")
    by (vm_compute; reflexivity).
  destruct (loadFromJSON_failure (platform := MoreDemo.failing) 0 1
              MoreDemo.broken_container MoreDemo.broken_heap "[[1,"
              (Error "Unexpected end of JSON input"))
    as (Hthrown & _ & Hopts).
  - reflexivity.
  - discriminate.
  - reflexivity.
  - vm_compute. lia.
  - split; [exact Hthrown|]. split; [exact Htoken|]. exact (Hopts Htoken).
Defined.

End Examples.

End ImportMore.

(* ===================================================================== *)
(** ** The connectome converters *)
(* ===================================================================== *)

Module ConverterFacts.

Import ConnectomeData.

Lemma legacy_edges_from_length (json : LegacyConnectome) (n i : nat) :
  length (legacy_edges_from json n i) = n - S i.
Proof. unfold legacy_edges_from. now rewrite length_map, length_seq. Qed.

(** The rows [a .. a + m - 1], the last of which is row [n - 2], hold
    [m + (m - 1) + ... + 1] edges. *)
Lemma legacy_edges_count (json : LegacyConnectome) (n m : nat) :
  forall a, a + m = n - 1 ->
            2 * length (List.flat_map (legacy_edges_from json n) (seq a m))
            = m * (m + 1).
Proof.
  induction m as [|m IH]; intros a Ha; [reflexivity|].
  cbn [seq List.flat_map]. rewrite length_app, legacy_edges_from_length.
  specialize (IH (S a) ltac:(lia)). nia.
Qed.

Lemma legacy_edge_elem (json : LegacyConnectome) (e : Edge) :
  let n := length (names json) in
  e ∈ edges (convertLegacyConnectome json)
  <-> exists i j, i < j /\ j < n
                  /\ e = mkEdge (Z.of_nat i) (Z.of_nat j)
                           (at_index (legacy_edges json) (i * n + j)).
Proof.
  cbn zeta. unfold convertLegacyConnectome. cbn [edges].
  rewrite list_elem_of_In, in_flat_map. split.
  - intros (i & Hi & He). unfold legacy_edges_from in He.
    apply in_map_iff in He as (j & <- & Hj). apply in_seq in Hi, Hj.
    exists i, j. repeat split; lia.
  - intros (i & j & Hij & Hj & ->). exists i. split.
    + apply in_seq. lia.
    + unfold legacy_edges_from. apply in_map_iff. exists j. split; [reflexivity|].
      apply in_seq. lia.
Qed.

(** X17.  [convertLegacyConnectome] makes one node for every name, with
    the coordinates, color and size found at the position of the name,
    or [undefined] where an array is too short.  It makes one edge for
    every pair [i < j] of node positions and no other edge, [n (n - 1) / 2]
    in all, and takes the color value of the edge from position
    [i * n + j] of the edge matrix: the diagonal and the lower triangle
    of the matrix are not read. *)
Theorem legacy_nodes_and_edges (json : LegacyConnectome) :
  let n := length (names json) in
  let c := convertLegacyConnectome json in
  length (nodes c) = n
  /\ (forall i node, nodes c !! i = Some node ->
        exists nm, names json !! i = Some nm
                   /\ name node = VStr nm
                   /\ x node = at_index (X json) i
                   /\ y node = at_index (Y json) i
                   /\ z node = at_index (Z' json) i
                   /\ colorValue node = at_index (Color json) i
                   /\ sizeValue node = at_index (Size json) i
                   /\ metadata node = None)
  /\ 2 * length (edges c) = n * (n - 1)
  /\ (forall e, e ∈ edges c ->
        (0 <= first e < second e)%Z /\ (second e < Z.of_nat n)%Z
        /\ colorValue_of e
           = at_index (legacy_edges json)
               (Z.to_nat (first e) * n + Z.to_nat (second e)))
  /\ (forall i j, i < j -> j < n ->
        mkEdge (Z.of_nat i) (Z.of_nat j) (at_index (legacy_edges json) (i * n + j))
        ∈ edges c).
Proof.
  cbn zeta. split; [|split; [|split; [|split]]].
  - unfold convertLegacyConnectome, legacy_nodes. cbn [nodes]. apply length_imap.
  - intros i node. unfold convertLegacyConnectome, legacy_nodes. cbn [nodes].
    rewrite list_lookup_imap. destruct (names json !! i) as [nm|]; [|discriminate].
    cbn. intros [= <-]. exists nm. cbn. auto 10.
  - unfold convertLegacyConnectome. cbn [edges].
    rewrite (legacy_edges_count json (length (names json)) (length (names json) - 1) 0)
      by lia.
    destruct (length (names json)) as [|n]; [reflexivity|].
    cbn [Nat.sub]. rewrite Nat.sub_0_r. lia.
  - intros e He. apply legacy_edge_elem in He as (i & j & Hij & Hj & ->).
    cbn [first second colorValue_of]. rewrite !Nat2Z.id. repeat split; lia.
  - intros i j Hij Hj. apply legacy_edge_elem. eauto.
Qed.

Lemma not_default_option (k : string) :
  k ∈ Object_prototype -> Connectome.defaultOptions !! k = None.
Proof.
  unfold Object_prototype. rewrite !elem_of_cons, elem_of_nil.
  intros H. repeat (destruct H as [->|H]; [vm_compute; reflexivity|]).
  destruct H.
Qed.

(** X18.  The options of the converted connectome: a property of the
    input that is named like a default option replaces the default; a
    default option the input lacks keeps its default value; and any
    other property of the input is dropped, unless it is named like a
    member of [Object.prototype] other than [__proto__], in which case
    the [in] test lets it through and it is copied. *)
Theorem legacy_options_taken (json : LegacyConnectome) :
  let o := options (convertLegacyConnectome json) in
  (forall k v, props json !! k = Some v ->
               is_Some (Connectome.defaultOptions !! k) -> o !! k = Some v)
  /\ (forall k, props json !! k = None -> o !! k = Connectome.defaultOptions !! k)
  /\ (forall k v, props json !! k = Some v ->
                  Connectome.defaultOptions !! k = None ->
                  o !! k = if bool_decide (k ∈ Object_prototype)
                              && negb (String.eqb k "__proto__")
                           then Some v else None).
Proof.
  cbn zeta. unfold convertLegacyConnectome, legacy_options. cbn [options].
  split; [|split].
  - intros k v Hk Hdef. apply lookup_union_Some_l. apply map_lookup_filter_Some.
    split; [exact Hk|]. cbn [fst]. unfold assigned, in_defaultOptions.
    rewrite bool_decide_eq_true_2 by exact Hdef. cbn [orb andb].
    apply negb_true_iff, String.eqb_neq. intros ->.
    destruct Hdef as [x Hx]. vm_compute in Hx. discriminate.
  - intros k Hk. rewrite lookup_union_r; [reflexivity|].
    apply map_lookup_filter_None. left. exact Hk.
  - intros k v Hk Hdef.
    assert (Hassigned : assigned k
                        = bool_decide (k ∈ Object_prototype)
                          && negb (String.eqb k "__proto__")).
    { unfold assigned, in_defaultOptions.
      rewrite (bool_decide_eq_false_2 (is_Some _));
        [reflexivity | rewrite Hdef; now intros [x Hx]]. }
    rewrite <- Hassigned. destruct (assigned k) eqn:Ha.
    + apply lookup_union_Some_l. apply map_lookup_filter_Some. now split.
    + rewrite lookup_union_r; [exact Hdef|].
      apply map_lookup_filter_None. right. intros v' Hv'. cbn [fst]. congruence.
Qed.

(** X19.  [convertFreeSurferConnectome] throws its error exactly when
    the input has no [data_type], a [data_type] other than
    ["fs_pointset"], or no [points].  Otherwise it returns a connectome
    without edges, with one node of color and size 1 for every point,
    named by the text of the first comment of the point if it has one
    and by the empty string if not, and with the default options but
    for the two color maps, which are the one given, or ["warm"]. *)
Theorem freesurfer_conversion (json : FreeSurferConnectome) (colormap : option string) :
  (convertFreeSurferConnectome json colormap
   = inl (Error "not a valid FreeSurfer json pointset")
   <-> (data_type json <> Some (VStr "fs_pointset") \/ points json = None))
  /\ (forall pts,
        data_type json = Some (VStr "fs_pointset") ->
        points json = Some pts ->
        exists c,
          convertFreeSurferConnectome json colormap = inr c
          /\ edges c = []
          /\ length (nodes c) = length pts
          /\ (forall i p, pts !! i = Some p ->
                exists node,
                  nodes c !! i = Some node
                  /\ name node = point_name p
                  /\ colorValue node = VNum (double 1 0)
                  /\ sizeValue node = VNum (double 1 0)
                  /\ metadata node = comments p)
          /\ options c !! "nodeColormap" = Some (VStr (default "warm" colormap))
          /\ options c !! "edgeColormap" = Some (VStr (default "warm" colormap))
          /\ (forall k, k <> "nodeColormap" -> k <> "edgeColormap" ->
                        options c !! k = Connectome.defaultOptions !! k)).
Proof.
  assert (Hvalid : valid_pointset json = true
                   <-> data_type json = Some (VStr "fs_pointset")
                       /\ is_Some (points json)).
  { unfold valid_pointset. rewrite andb_true_iff, bool_decide_eq_true.
    destruct (data_type json) as [t|].
    - rewrite HeapFacts.strict_eq_token. split; intros [Ht Hp]; split; congruence.
    - split; intros [Ht Hp]; discriminate. }
  split.
  - unfold convertFreeSurferConnectome.
    destruct (valid_pointset json) eqn:Hv.
    + destruct Hvalid as [Hv1 _]. destruct (Hv1 eq_refl) as [Ht [pts Hp]].
      split; [discriminate|]. intros [Hno|Hno]; congruence.
    + split; [|reflexivity]. intros _.
      destruct (data_type json) as [t|] eqn:Ht; [|left; discriminate].
      destruct (strict_eq t (VStr "fs_pointset")) eqn:Heq.
      * apply HeapFacts.strict_eq_token in Heq as ->. right.
        destruct (points json) as [pts|] eqn:Hp; [|reflexivity].
        assert (Hyes : false = true) by (apply Hvalid; eauto).
        discriminate.
      * left. intros [= ->]. cbn in Heq. discriminate.
  - intros pts Ht Hp. unfold convertFreeSurferConnectome.
    assert (Hyes : valid_pointset json = true) by (apply Hvalid; rewrite Hp; eauto).
    rewrite Hyes, Hp. eexists. split; [reflexivity|]. cbn [edges nodes options default].
    split; [reflexivity|]. split; [apply (length_map point_node pts)|].
    split; [|split; [|split]].
    + intros i p Hi. exists (point_node p). split.
      * change ((point_node <$> pts) !! i = Some (point_node p)).
        now rewrite list_lookup_fmap, Hi.
      * cbn. auto.
    + rewrite lookup_insert_ne by discriminate. apply lookup_insert_eq.
    + apply lookup_insert_eq.
    + intros k Hn He. now rewrite !lookup_insert_ne by congruence.
Qed.

Section Examples.
Import MoreDemo.

(** The property [comment] of the input is dropped and its property
    [toString] is copied, although neither is an option. *)
Lemma legacy_toString_is_copied :
  let o := options (convertLegacyConnectome legacy) in
  o !! "comment" = None
  /\ o !! "toString" = Some (VStr "kept")
  /\ o !! "nodeScale" = Some (VNum (double 5 0))
  /\ o !! "edgeScale" = Some (VNum (double 1 0)).
Proof. repeat split; vm_compute; reflexivity. Qed.

(** Three nodes give the edges (0,1), (0,2), (1,2) with the values at
    1, 2 and 5 of the matrix; the third node has no size. *)
Lemma legacy_example :
  let c := convertLegacyConnectome legacy in
  edges c = [ mkEdge 0 1 (VNum (double 1 0)); mkEdge 0 2 (VNum (double 2 0));
              mkEdge 1 2 (VNum (double 3 0)) ]
  /\ sizeValue <$> nodes c !! 2 = Some VUndefined.
Proof. split; vm_compute; reflexivity. Qed.

Lemma freesurfer_conversion_witness :
  exists c,
    convertFreeSurferConnectome pointset (Some "cool") = inr c
    /\ name <$> nodes c = [VStr "left"; VStr ""]
    /\ options c !! "nodeColormap" = Some (VStr "cool")
    /\ options c !! "nodeColormapNegative" = Some (VStr "winter").
Proof.
  destruct (freesurfer_conversion pointset (Some "cool")) as [_ Hok].
  destruct (Hok _ eq_refl eq_refl) as (c & Hrun & _ & _ & _ & Hn & _ & Hother).
  exists c. split; [exact Hrun|]. split; [|split].
  - injection Hrun as <-. reflexivity.
  - exact Hn.
  - rewrite Hother by discriminate. vm_compute. reflexivity.
Defined.

End Examples.

End ConverterFacts.

(* ===================================================================== *)
(** ** The connectome: labels, nodes, and edges in sequence *)
(* ===================================================================== *)

Module ConnectomeMore.

Import Connectome ConnectomeNodes Props MoreProps.

Lemma find_ext {A : Type} (p q : A -> bool) (l : list A) :
  (forall a, a ∈ l -> p a = q a) -> List.find p l = List.find q l.
Proof.
  induction l as [|a l IH]; intros Hpq; [reflexivity|].
  cbn [List.find]. rewrite (Hpq a) by apply list_elem_of_here.
  destruct (q a); [reflexivity|]. apply IH. intros b Hb. apply Hpq.
  now apply list_elem_of_further.
Qed.

(** [find] on a list whose last element passes and is the only one
    that can. *)
Lemma find_last {A : Type} (p : A -> bool) (l : list A) (e : A) :
  p e = true -> (forall a, a ∈ l -> p a = true -> a = e) ->
  List.find p (l ++ [e]) = Some e.
Proof.
  intros He. induction l as [|a l IH]; intros Honly.
  - cbn. now rewrite He.
  - cbn [app List.find]. destruct (p a) eqn:Ha.
    + f_equal. apply Honly; [apply list_elem_of_here | exact Ha].
    + apply IH. intros b Hb. apply Honly. now apply list_elem_of_further.
Qed.

Lemma filter_absent (node : loc) (ns : list loc) :
  node ∉ ns -> List.filter (fun n => negb (Nat.eqb n node)) ns = ns.
Proof.
  induction ns as [|n ns IH]; intros Hnot; [reflexivity|].
  cbn [List.filter]. apply not_elem_of_cons in Hnot as [Hne Hnot].
  rewrite (proj2 (Nat.eqb_neq n node)) by congruence. cbn [negb].
  now rewrite IH.
Qed.

Lemma filter_drops_last (e : loc) (es : list loc) :
  e ∉ es -> List.filter (fun n => negb (Nat.eqb n e)) (es ++ [e]) = es.
Proof.
  intros Hnot. rewrite List.filter_app, filter_absent by exact Hnot.
  cbn. rewrite Nat.eqb_refl. cbn. apply app_nil_r.
Qed.

Section Connectome.
Context {types : Types} {platform : Collaborators}.

(** What the loop of [updateLabels] throws is what the label
    constructor threw for one of the nodes. *)
Lemma label_nodes_thrown (c : NVConnectome) (all : list NVConnectomeNode)
  (ns : list loc) :
  forall s e, thrown (label_nodes c all ns s) = Some e ->
              exists nd, node_label c all nd = inl e.
Proof.
  induction ns as [|l ns IH]; intros s e; [discriminate|].
  cbn [label_nodes]. destruct (node_at s l) as [n|]; [|apply IH].
  destruct (node_label c all n) as [e'|[lbl|]] eqn:Hn; [|apply IH|apply IH].
  cbn. intros [= <-]. eauto.
Qed.

Lemma updateLabels_thrown (st : State) (e : Exception) :
  thrown (updateLabels st) = Some e ->
  colormaps (options (snd st)) = Some e
  \/ exists all nd, node_label (snd st) all nd = inl e.
Proof.
  destruct st as [s c]. unfold updateLabels. cbn [fst snd].
  destruct (nodes c) as [[|n ns]|]; try discriminate.
  destruct (colormaps (options c)) as [e'|]; [cbn; intros [= <-]; now left|].
  pose proof (label_nodes_thrown c (omap (node_at s) (n :: ns)) (n :: ns) s e)
    as Hloop.
  destruct (label_nodes c _ (n :: ns) s); [discriminate|].
  cbn in *. intros He. right. eauto.
Qed.

(** X20.  [updateLabels] changes labels only, whether it returns or
    throws: the connectome is as before, no node or edge object is
    added or removed, the edges are untouched, and every node keeps its
    name, its coordinates, its color value and its size value.  Without
    a node array, or with an empty one, it returns and nothing has
    changed; when the color-map lookup throws, it throws the same and
    nothing has changed; and whatever it throws was thrown by the
    color-map lookup or by the label constructor. *)
Theorem updateLabels_changes_labels_only (st : State) :
  let out := updateLabels st in
  snd (final_state out) = snd st
  /\ labels_only (fst st) (fst (final_state out))
  /\ (nodes (snd st) = None \/ nodes (snd st) = Some [] -> out = Returns tt st)
  /\ (forall n ns e, nodes (snd st) = Some (n :: ns) ->
                     colormaps (options (snd st)) = Some e -> out = Throws e st)
  /\ (forall e, thrown out = Some e ->
                colormaps (options (snd st)) = Some e
                \/ exists all nd, node_label (snd st) all nd = inl e).
Proof.
  cbn zeta. destruct (ConnectomeFacts.updateLabels_labels_only st) as (Hc & Hlabels).
  split; [exact Hc|]. split; [exact Hlabels|].
  destruct st as [s c]. unfold updateLabels. cbn [fst snd]. split; [|split].
  - intros [-> | ->]; reflexivity.
  - intros n ns e -> ->. reflexivity.
  - intros e. apply (updateLabels_thrown (s, c) e).
Qed.

(** X21.  [addConnectomeNode] throws when the node array is undefined,
    and changes nothing then.  Otherwise the node is put at the end of
    the array and the labels are rebuilt; the call throws what
    [updateLabels] throws, with the node left in the array and no event
    dispatched, and dispatches one [nodeAdded] event when it returns.
    The edges, the options and the geometry are as before: the
    geometry is not rebuilt. *)
Theorem addConnectomeNode_appends (s : Store) (c : NVConnectome) (node : loc) :
  let out := addConnectomeNode node (s, c) in
  (nodes c = None -> out = Throws (Error "nodes not defined") (s, c))
  /\ (forall ns, nodes c = Some ns ->
        let c' := snd (final_state out) in
        nodes c' = Some (ns ++ [node])
        /\ edges c' = edges c
        /\ geometry c' = geometry c
        /\ options c' = options c
        /\ labels_only s (fst (final_state out))
        /\ thrown out = thrown (updateLabels (s, with_nodes (Some (ns ++ [node])) c))
        /\ nodesChanged c'
           = match thrown out with
             | None => nodesChanged c ++ [nodeAdded node]
             | Some _ => nodesChanged c
             end).
Proof.
  cbn zeta. split.
  - intros Hn. unfold addConnectomeNode. cbn [snd]. now rewrite Hn.
  - intros ns Hn. unfold addConnectomeNode. cbn [fst snd]. rewrite Hn.
    unfold JS.bind, modify.
    destruct (ConnectomeFacts.updateLabels_labels_only
                (s, with_nodes (Some (ns ++ [node])) c)) as (Hc & Hlabels).
    cbn [fst snd] in Hc, Hlabels.
    destruct (updateLabels (s, with_nodes (Some (ns ++ [node])) c))
      as [[] [s' c']|e [s' c']]; cbn [final_state fst snd thrown] in *; subst c';
      (split; [reflexivity|]; split; [reflexivity|]; split; [reflexivity|];
       split; [reflexivity|]; split; [exact Hlabels|]; split; reflexivity).
Qed.

(** X22.  [deleteConnectomeNode] takes every occurrence of the node out
    of the node array and, from the edge list, the edges that have the
    position of the node as an endpoint.  The edges that remain are not
    renumbered: no edge object is written, although the nodes after the
    deleted one have moved down by one position.  For a node that is
    not in the array the position is -1 and the node array stays as it
    is.  The [nodeDeleted] event is dispatched only if the geometry
    update returns.  With an undefined node array the call is a
    TypeError. *)
Theorem deleteConnectomeNode_keeps_endpoints
  (s : Store) (c : NVConnectome) (node : loc) :
  let out := deleteConnectomeNode node (s, c) in
  (nodes c = None ->
   out = Throws (TypeError "Cannot read properties of undefined (reading 'indexOf')")
           (s, c))
  /\ (forall ns, nodes c = Some ns ->
        let index := indexOf node ns in
        let c' := snd (final_state out) in
        nodes c' = Some (List.filter (fun n => negb (Nat.eqb n node)) ns)
        /\ (node ∉ ns -> nodes c' = Some ns)
        /\ edges c' = List.filter (avoids s index) <$> edges c
        /\ labels_only s (fst (final_state out))
        /\ (forall es' l e,
              edges c' = Some es' -> l ∈ es' -> edge_at s l = Some e ->
              edge_at (fst (final_state out)) l = Some e
              /\ first e <> index /\ second e <> index)
        /\ nodesChanged c'
           = match thrown out with
             | None => nodesChanged c ++ [nodeDeleted node]
             | Some _ => nodesChanged c
             end).
Proof.
  cbn zeta. split.
  - intros Hn. unfold deleteConnectomeNode. now rewrite Hn.
  - intros ns Hn. unfold deleteConnectomeNode. rewrite Hn.
    set (c1 := match edges c with
               | Some es => with_edges (Some (List.filter (avoids s (indexOf node ns)) es)) c
               | None => c
               end).
    set (c2 := with_nodes (Some (List.filter (fun n => negb (Nat.eqb n node)) ns)) c1).
    destruct (ConnectomeFacts.labels_geometry_event (nodeDeleted node) (s, c2))
      as (Hlabels & Hnodes & Hedges & Hevents & _).
    cbn [fst snd] in Hlabels, Hnodes, Hedges, Hevents.
    assert (Hc2e : edges c2 = List.filter (avoids s (indexOf node ns)) <$> edges c).
    { subst c2 c1. cbn [edges with_nodes].
      destruct (edges c) eqn:E; [reflexivity | exact E]. }
    assert (Hc2ev : nodesChanged c2 = nodesChanged c).
    { subst c2 c1. destruct (edges c); reflexivity. }
    rewrite Hnodes, Hedges, Hevents, Hc2e, Hc2ev.
    split; [reflexivity|]. split; [|split; [reflexivity|split; [exact Hlabels|split]]].
    + intros Hnot. cbn. now rewrite filter_absent.
    + intros es' l e Hes' Hl He.
      destruct (edges c) as [es|]; [|discriminate]. cbn in Hes'. injection Hes' as <-.
      apply list_elem_of_In, filter_In in Hl as [_ Hl]. unfold avoids in Hl.
      rewrite He in Hl. apply andb_prop in Hl as [H1 H2].
      apply negb_true_iff, Z.eqb_neq in H1, H2.
      split; [|auto]. destruct Hlabels as (Hsame & _).
      unfold edge_at in *. now rewrite Hsame.
    + reflexivity.
Qed.

(** X26.  [updateConnectomeNodeByIndex], for an index inside the node
    array, puts the new node at that position and leaves the other
    positions, the edge list and the edge objects as they are.  The
    labels are rebuilt first and the geometry second: the call throws
    what [updateLabels] throws, and otherwise what [updateConnectome]
    then throws; the [nodeChanged] event is dispatched only if it
    returns. *)
Theorem updateConnectomeNodeByIndex_replaces
  (s : Store) (c : NVConnectome) (ns : list loc) (index : nat) (updatedNode : loc) :
  nodes c = Some ns ->
  index < length ns ->
  let c1 := with_nodes (Some (<[index := updatedNode]> ns)) c in
  let out := updateConnectomeNodeByIndex index updatedNode (s, c) in
  let c' := snd (final_state out) in
  (exists ns', nodes c' = Some ns'
               /\ length ns' = length ns
               /\ ns' !! index = Some updatedNode
               /\ forall j, j <> index -> ns' !! j = ns !! j)
  /\ edges c' = edges c
  /\ labels_only s (fst (final_state out))
  /\ thrown out
     = match thrown (updateLabels (s, c1)) with
       | Some e => Some e
       | None => thrown (updateConnectome (final_state (updateLabels (s, c1))))
       end
  /\ nodesChanged c'
     = match thrown out with
       | None => nodesChanged c ++ [nodeChanged updatedNode]
       | Some _ => nodesChanged c
       end.
Proof.
  intros Hn Hlt. cbn zeta.
  set (c1 := with_nodes (Some (<[index := updatedNode]> ns)) c).
  assert (Hout : updateConnectomeNodeByIndex index updatedNode (s, c)
                 = (updateLabels >>
                    updateConnectome >>
                    modify (fun st : State =>
                              (fst st, dispatchEvent (nodeChanged updatedNode) (snd st))))
                     (s, c1)).
  { unfold updateConnectomeNodeByIndex, node_changed. unfold JS.bind at 1.
    unfold modify at 1. cbn [fst snd]. now rewrite Hn. }
  rewrite Hout.
  destruct (ConnectomeFacts.labels_geometry_event (nodeChanged updatedNode) (s, c1))
    as (Hlabels & Hnodes & Hedges & Hevents & Hthrown).
  cbn [fst snd] in Hlabels, Hnodes, Hedges, Hevents.
  rewrite Hnodes, Hedges, Hevents, Hthrown.
  split; [|split; [reflexivity|split; [exact Hlabels|split; reflexivity]]].
  exists (<[index := updatedNode]> ns). split; [reflexivity|].
  split; [apply length_insert|]. split.
  - now apply list_lookup_insert_eq.
  - intros j Hj. apply list_lookup_insert_ne. congruence.
Qed.

Lemma add_matches_sym (s : Store) (es : list loc) (a b : Z) (l : loc) :
  small a -> small b -> small_edges s es -> l ∈ es ->
  add_matches s a b l = add_matches s b a l.
Proof.
  intros Ha Hb Hsmall Hl. destruct (edge_at s l) as [f|] eqn:Hf.
  - destruct (Hsmall l f Hl Hf) as [H1 H2]. apply eq_true_iff_eq.
    rewrite (ConnectomeFacts.add_matches_joins s a b l f Ha Hb H1 H2 Hf),
            (ConnectomeFacts.add_matches_joins s b a l f Hb Ha H1 H2 Hf).
    unfold joins. tauto.
  - unfold add_matches. now rewrite Hf.
Qed.

Lemma delete_matches_add_matches (s : Store) (es : list loc) (a b x y : Z) (l : loc) :
  small a -> small b -> small_edges s es -> l ∈ es ->
  (x = a /\ y = b) \/ (x = b /\ y = a) ->
  delete_matches s x y l = add_matches s a b l.
Proof.
  intros Ha Hb Hsmall Hl Hxy. destruct (edge_at s l) as [f|] eqn:Hf.
  - destruct (Hsmall l f Hl Hf) as [H1 H2]. apply eq_true_iff_eq.
    rewrite (ConnectomeFacts.add_matches_joins s a b l f Ha Hb H1 H2 Hf).
    destruct Hxy as [[-> ->]|[-> ->]].
    + now rewrite (ConnectomeFacts.delete_matches_joins s a b l f Ha Hb H1 H2 Hf).
    + rewrite (ConnectomeFacts.delete_matches_joins s b a l f Hb Ha H1 H2 Hf).
      unfold joins. tauto.
  - unfold delete_matches, add_matches. now rewrite Hf.
Qed.

(** What a call of [addConnectomeEdge] that made a new edge and
    returned leaves behind. *)
Lemma addConnectomeEdge_new
  (s : Store) (c : NVConnectome) (es : list loc) (a b : Z) (cv : number)
  (e : loc) (st1 : State) :
  edges c = Some es ->
  List.find (add_matches s a b) es = None ->
  addConnectomeEdge a b cv (s, c) = Returns e st1 ->
  e = length (edge_objects s)
  /\ fst st1 = mkStore (node_objects s) (edge_objects s ++ [mkEdge a b cv])
  /\ edges (snd st1) = Some (es ++ [e])
  /\ nodes (snd st1) = nodes c.
Proof.
  intros Hes Hnone. unfold addConnectomeEdge. rewrite Hes, Hnone. cbn [alloc_edge].
  unfold JS.bind.
  pose proof (ConnectomeFacts.updateConnectome_frame
                (mkStore (node_objects s) (edge_objects s ++ [mkEdge a b cv]),
                 with_edges (Some (es ++ [length (edge_objects s)])) c))
    as (Hstore & Hnodes & Hedges).
  destruct (updateConnectome _) as [[] st'|err st']; [|discriminate].
  unfold JS.ret. intros E. apply OutcomeFacts.Returns_inj in E as [<- <-].
  cbn [final_state fst snd] in *. auto.
Qed.

(** The store with the new edge: the edges of the list extended by the
    new one have small endpoints. *)
Lemma small_edges_new (s : Store) (es : list loc) (a b : Z) (cv : number) :
  small a -> small b -> small_edges s es ->
  Forall (fun l => l < length (edge_objects s)) es ->
  small_edges (mkStore (node_objects s) (edge_objects s ++ [mkEdge a b cv]))
    (es ++ [length (edge_objects s)]).
Proof.
  intros Ha Hb Hsmall Hwf l f Hl. unfold edge_at. cbn [edge_objects].
  apply elem_of_app in Hl as [Hl|Hl].
  - rewrite Forall_forall in Hwf. rewrite lookup_app_l by (now apply Hwf).
    now apply Hsmall.
  - apply list_elem_of_singleton in Hl. subst l.
    rewrite lookup_app_r by lia. rewrite Nat.sub_diag. cbn. intros [= <-]. auto.
Qed.

(** In that store, of the edges listed before only the new edge can
    pass the test when none passed it before. *)
Lemma only_the_new_edge_matches
  (s : Store) (es : list loc) (a b : Z) (cv : number) (l : loc) :
  List.find (add_matches s a b) es = None ->
  l ∈ es ->
  add_matches (mkStore (node_objects s) (edge_objects s ++ [mkEdge a b cv])) a b l
  = true ->
  l = length (edge_objects s).
Proof.
  intros Hnone Hl. rewrite ConnectomeFacts.find_none_elem in Hnone.
  specialize (Hnone l Hl). unfold add_matches, edge_at in *. cbn [edge_objects].
  destruct (decide (l < length (edge_objects s))) as [Hlt|Hge].
  - rewrite lookup_app_l by exact Hlt. congruence.
  - destruct (decide (l = length (edge_objects s))) as [->|Hne]; [reflexivity|].
    rewrite lookup_app_r by lia.
    destruct (l - length (edge_objects s)) as [|k] eqn:Hk; [lia|].
    cbn. discriminate.
Qed.

Lemma the_new_edge_matches (s : Store) (a b : Z) (cv : number) :
  small a -> small b ->
  add_matches (mkStore (node_objects s) (edge_objects s ++ [mkEdge a b cv])) a b
    (length (edge_objects s)) = true.
Proof.
  intros Ha Hb. unfold add_matches, edge_at. cbn [edge_objects].
  rewrite lookup_app_r by lia. rewrite Nat.sub_diag. cbn [lookup list_lookup first second].
  rewrite (NumberFacts.plus_eqb _ _ _ _ Ha Hb Ha Hb), !Z.eqb_refl. reflexivity.
Qed.

(** X23.  Let the two nodes and the endpoints of the listed edges be
    positions below 2^52 in magnitude, and let the edge list refer to
    edge objects of the store.  After [addConnectomeEdge a b] has
    returned an edge, a second call for the same two nodes, in either
    order and with any color value, returns that same edge and changes
    nothing. *)
Theorem addConnectomeEdge_twice
  (s : Store) (c : NVConnectome) (es : list loc) (a b : Z) (cv : number)
  (e : loc) (st1 : State) :
  edges c = Some es ->
  small a -> small b -> small_edges s es ->
  Forall (fun l => l < length (edge_objects s)) es ->
  addConnectomeEdge a b cv (s, c) = Returns e st1 ->
  forall cv',
    addConnectomeEdge a b cv' st1 = Returns e st1
    /\ addConnectomeEdge b a cv' st1 = Returns e st1.
Proof.
  intros Hes Ha Hb Hsmall Hwf Hrun cv'.
  assert (Hfound : exists s1 c1 es1,
            st1 = (s1, c1) /\ edges c1 = Some es1
            /\ small_edges s1 es1
            /\ List.find (add_matches s1 a b) es1 = Some e).
  { destruct (List.find (add_matches s a b) es) as [edge|] eqn:Hfind.
    - unfold addConnectomeEdge in Hrun. rewrite Hes, Hfind in Hrun.
      apply OutcomeFacts.Returns_inj in Hrun as [<- <-]. exists s, c, es. auto.
    - destruct (addConnectomeEdge_new _ _ _ _ _ _ _ _ Hes Hfind Hrun)
        as (-> & Hstore & Hedges & _).
      destruct st1 as [s1 c1]. cbn [fst snd] in Hstore, Hedges. subst s1.
      exists (mkStore (node_objects s) (edge_objects s ++ [mkEdge a b cv])), c1,
        (es ++ [length (edge_objects s)]).
      split; [reflexivity|]. split; [exact Hedges|].
      split; [now apply small_edges_new|].
      apply find_last; [now apply the_new_edge_matches|].
      intros l Hl. now apply (only_the_new_edge_matches s es). }
  destruct Hfound as (s1 & c1 & es1 & -> & Hes1 & Hsmall1 & Hfind).
  unfold addConnectomeEdge. rewrite Hes1, Hfind.
  rewrite <- (find_ext (add_matches s1 a b) (add_matches s1 b a))
    by (intros l Hl; now apply (add_matches_sym s1 es1)).
  rewrite Hfind. auto.
Qed.

(** X24.  Let the two nodes and the endpoints of the listed edges be
    positions below 2^52 in magnitude, and let the edge list refer to
    edge objects of the store.  When no edge of the list joins [a] and
    [b], [addConnectomeEdge a b] followed by [deleteConnectomeEdge],
    with the two nodes in either order, gives back the edge list as it
    was: the edge found is the one just added.  Its object stays in the
    store. *)
Theorem add_then_delete_edge
  (s : Store) (c : NVConnectome) (es : list loc) (a b : Z) (cv : number)
  (e : loc) (st1 : State) (x y : Z) :
  edges c = Some es ->
  small a -> small b -> small_edges s es ->
  Forall (fun l => l < length (edge_objects s)) es ->
  (forall l f, l ∈ es -> edge_at s l = Some f -> ~ joins f a b) ->
  addConnectomeEdge a b cv (s, c) = Returns e st1 ->
  (x = a /\ y = b) \/ (x = b /\ y = a) ->
  let out := deleteConnectomeEdge x y st1 in
  edges (snd (final_state out)) = Some es
  /\ nodes (snd (final_state out)) = nodes c
  /\ fst (final_state out) = fst st1
  /\ edge_at (fst (final_state out)) e = Some (mkEdge a b cv)
  /\ (forall e' st2, out = Returns e' st2 -> e' = e).
Proof.
  intros Hes Ha Hb Hsmall Hwf Hno Hrun Hxy.
  assert (Hnone : List.find (add_matches s a b) es = None).
  { apply (ConnectomeFacts.find_no_joining add_matches s es a b); [| |exact Hno].
    - intros l f Hl Hf. destruct (Hsmall l f Hl Hf) as [H1 H2].
      now apply ConnectomeFacts.add_matches_joins.
    - intros l. apply ConnectomeFacts.matches_is_edge. }
  destruct (addConnectomeEdge_new _ _ _ _ _ _ _ _ Hes Hnone Hrun)
    as (-> & Hstore & Hedges & Hnodes).
  destruct st1 as [s1 c1]. cbn [fst snd] in Hstore, Hedges, Hnodes. subst s1.
  set (s1 := mkStore (node_objects s) (edge_objects s ++ [mkEdge a b cv])).
  pose proof (small_edges_new s es a b cv Ha Hb Hsmall Hwf) as Hsmall1.
  assert (Hfind : List.find (delete_matches s1 x y) (es ++ [length (edge_objects s)])
                  = Some (length (edge_objects s))).
  { rewrite (find_ext _ (add_matches s1 a b))
      by (intros l Hl;
          now apply (delete_matches_add_matches s1
                       (es ++ [length (edge_objects s)]))).
    apply find_last; [now apply the_new_edge_matches|].
    intros l Hl. now apply (only_the_new_edge_matches s es). }
  assert (Hnot : length (edge_objects s) ∉ es).
  { intros Hin. rewrite Forall_forall in Hwf. apply Hwf in Hin. lia. }
  cbn zeta. unfold deleteConnectomeEdge. rewrite Hedges, Hfind.
  rewrite filter_drops_last by exact Hnot. unfold JS.bind, JS.ret.
  pose proof (ConnectomeFacts.updateConnectome_frame (s1, with_edges (Some es) c1))
    as (Hst & Hn & He).
  cbn [fst snd] in Hst, Hn, He.
  assert (Hnew : edge_at s1 (length (edge_objects s)) = Some (mkEdge a b cv)).
  { unfold edge_at. subst s1. cbn [edge_objects]. rewrite lookup_app_r by lia.
    now rewrite Nat.sub_diag. }
  destruct (updateConnectome (s1, with_edges (Some es) c1)) as [[] st'|err st'];
    cbn [final_state fst snd] in *; rewrite Hst, Hn, He;
    (split; [reflexivity|]; split; [exact Hnodes|]; split; [reflexivity|];
     split; [exact Hnew|]).
  - intros e' st2 E. apply OutcomeFacts.Returns_inj in E as [<- _].
    reflexivity.
  - intros e' st2 E. discriminate.
Qed.

(** X25.  [updateMesh] builds the geometry first and the labels
    second.  When the geometry update throws, [updateMesh] throws the
    same exception and nothing has changed: no label is rebuilt.  When
    it returns, the geometry is in place before the labels are rebuilt,
    [updateMesh] throws exactly what the label update then throws, and
    that can only come from the label constructor, the color tables
    having been found once already; in either case it has written a
    geometry and labels only. *)
Theorem updateMesh_order (st : State) :
  (forall err st', updateConnectome st = Throws err st' ->
                   updateMesh st = Throws err st)
  /\ (forall st1, updateConnectome st = Returns tt st1 ->
        let out := updateMesh st in
        fst st1 = fst st
        /\ is_Some (geometry (snd st1))
        /\ thrown out = thrown (updateLabels st1)
        /\ (forall e, thrown out = Some e ->
                      exists all nd, node_label (snd st1) all nd = inl e)
        /\ snd (final_state out) = snd st1
        /\ nodes (snd (final_state out)) = nodes (snd st)
        /\ edges (snd (final_state out)) = edges (snd st)
        /\ labels_only (fst st) (fst (final_state out))).
Proof.
  split.
  - intros err st' Hrun. unfold updateMesh, JS.bind. rewrite Hrun.
    now rewrite (ConnectomeFacts.updateConnectome_throws _ _ _ Hrun).
  - intros st1 Hrun. cbn zeta. unfold updateMesh, JS.bind. rewrite Hrun.
    pose proof (ConnectomeFacts.updateConnectome_frame st) as (Hst & Hn & He).
    rewrite Hrun in Hst, Hn, He. cbn [final_state] in Hst, Hn, He.
    destruct (ConnectomeFacts.updateLabels_labels_only st1) as (Hc & Hlabels).
    rewrite Hc. rewrite Hst in Hlabels.
    destruct st as [s c].
    destruct (ConnectomeFacts.updateConnectome_returned s c st1 Hrun)
      as (Hfound & g & Hst1).
    split; [exact Hst|]. split; [rewrite Hst1; cbn; eauto|].
    split; [reflexivity|]. split; [|split; [reflexivity|]].
    + intros e Hthrown.
      assert (He' : thrown (updateLabels st1) = Some e).
      { revert Hthrown. now destruct (updateLabels st1). }
      destruct (updateLabels_thrown st1 e He') as [Hmaps|Hlabel]; [|exact Hlabel].
      rewrite Hst1 in Hmaps. cbn [snd options with_geometry] in Hmaps. congruence.
    + split; [exact Hn|]. split; [exact He | exact Hlabels].
Qed.

End Connectome.

Section Examples.
#[local] Existing Instance DemoConnectome.types.
#[local] Existing Instance DemoConnectome.platform.
Import DemoConnectome MoreDemo.

(** With a null node color map the label update throws: the node is in
    the array and no event was dispatched. *)
Lemma addConnectomeNode_can_throw_after_the_push :
  let out := addConnectomeNode 2 (store, null_colormap) in
  thrown out
  = Some (TypeError "Cannot read properties of null (reading 'toLowerCase')")
  /\ nodes (snd (final_state out)) = Some [0; 1; 2]
  /\ nodesChanged (snd (final_state out)) = [].
Proof. repeat split; vm_compute; reflexivity. Qed.

Lemma addConnectomeNode_appends_witness :
  let out := addConnectomeNode 2 (store, configured) in
  thrown out = None
  /\ nodes (snd (final_state out)) = Some [0; 1; 2]
  /\ geometry (snd (final_state out)) = None
  /\ nodesChanged (snd (final_state out)) = [nodeAdded 2].
Proof.
  cbn zeta.
  destruct (addConnectomeNode_appends store configured 2) as [_ Hadd].
  destruct (Hadd [0; 1] eq_refl) as (Hn & _ & Hg & _ & _ & Hthrown & Hev).
  assert (Hno : thrown (addConnectomeNode 2 (store, configured)) = None)
    by (rewrite Hthrown; vm_compute; reflexivity).
  split; [exact Hno|]. split; [exact Hn|]. split; [exact Hg|].
  rewrite Hev, Hno. reflexivity.
Defined.

(** After the node at position 0 is deleted, the edge between the
    positions 1 and 2 still names 1 and 2, and the node array has two
    elements. *)
Lemma deleteConnectomeNode_keeps_endpoints_witness :
  let out := deleteConnectomeNode 0 (store3, triangle) in
  nodes (snd (final_state out)) = Some [1; 2]
  /\ edges (snd (final_state out)) = Some [1]
  /\ edge_at (fst (final_state out)) 1 = Some (mkEdge 1 2 (double 4 0)).
Proof.
  intros out.
  destruct (deleteConnectomeNode_keeps_endpoints store3 triangle 0) as [_ Hdel].
  destruct (Hdel [0; 1; 2] eq_refl) as (Hn & _ & He & _ & Hkeep & _).
  split; [exact Hn|]. split; [exact He|].
  apply (Hkeep [1] 1 (mkEdge 1 2 (double 4 0))); [exact He | | reflexivity].
  apply list_elem_of_here.
Defined.

Lemma updateConnectomeNodeByIndex_replaces_witness :
  let out := updateConnectomeNodeByIndex 1 2 (store, configured) in
  nodes (snd (final_state out)) = Some [0; 2]
  /\ edges (snd (final_state out)) = Some [0]
  /\ nodesChanged (snd (final_state out)) = [nodeChanged 2].
Proof.
  cbn zeta.
  destruct (updateConnectomeNodeByIndex_replaces store configured [0; 1] 1 2 eq_refl)
    as (_ & He & _ & _ & Hev); [cbn; lia|].
  split; [vm_compute; reflexivity|]. split; [exact He|].
  rewrite Hev. vm_compute. reflexivity.
Defined.

Lemma addConnectomeEdge_twice_witness :
  exists e st1,
    addConnectomeEdge 1 2 (double 3 0) (store, configured) = Returns e st1
    /\ addConnectomeEdge 2 1 (double 9 0) st1 = Returns e st1.
Proof.
  assert (Hret : returned (addConnectomeEdge 1 2 (double 3 0) (store, configured))
                 = Some 1) by (vm_compute; reflexivity).
  apply OutcomeFacts.returns_value in Hret.
  set (st1 := final_state (addConnectomeEdge 1 2 (double 3 0) (store, configured)))
    in *.
  exists 1, st1. split; [exact Hret|].
  assert (Hwf : Forall (fun l => l < length (edge_objects store)) [0]).
  { apply Forall_cons. split; [vm_compute; lia | apply Forall_nil_2]. }
  apply (addConnectomeEdge_twice store configured [0] 1 2 (double 3 0) 1 st1
           eq_refl eq_refl eq_refl ConnectomeFacts.small_store Hwf Hret (double 9 0)).
Defined.

Lemma add_then_delete_edge_witness :
  exists e st1,
    addConnectomeEdge 1 2 (double 3 0) (store, configured) = Returns e st1
    /\ edges (snd st1) = Some [0; 1]
    /\ edges (snd (final_state (deleteConnectomeEdge 2 1 st1))) = Some [0].
Proof.
  assert (Hret : returned (addConnectomeEdge 1 2 (double 3 0) (store, configured))
                 = Some 1) by (vm_compute; reflexivity).
  apply OutcomeFacts.returns_value in Hret.
  set (st1 := final_state (addConnectomeEdge 1 2 (double 3 0) (store, configured)))
    in *.
  exists 1, st1. split; [exact Hret|]. split; [vm_compute; reflexivity|].
  assert (Hwf : Forall (fun l => l < length (edge_objects store)) [0]).
  { apply Forall_cons. split; [vm_compute; lia | apply Forall_nil_2]. }
  assert (Hno : forall l f, l ∈ [0] -> edge_at store l = Some f -> ~ joins f 1 2).
  { intros l f Hl Hf. apply list_elem_of_singleton in Hl. subst l.
    injection Hf as <-. intros [[E _]|[E _]]; discriminate. }
  destruct (add_then_delete_edge store configured [0] 1 2 (double 3 0) 1 st1
              2%Z 1%Z eq_refl eq_refl eq_refl ConnectomeFacts.small_store Hwf Hno
              Hret (or_intror (conj eq_refl eq_refl)))
    as (He & _).
  exact He.
Defined.

Lemma updateMesh_order_witness :
  updateMesh (store, unconfigured)
  = Throws (Error "nodeMinColor or nodeMaxColor is undefined") (store, unconfigured).
Proof.
  destruct (updateMesh_order (store, unconfigured)) as [Hthrow _].
  apply (Hthrow _ (store, unconfigured)). reflexivity.
Defined.

End Examples.

End ConnectomeMore.
